(** * MAPopt analysis: a shallow embedding of the estimation engine

    The development follows the three core modules of the package:
    [core/signal_processing.py] (class [SignalProcessor]),
    [core/mapopt_calculator.py] (class [MAPoptCalculator]) and
    [core/burden_metrics.py] (class [BurdenCalculator]), together with the
    constants of [config.py].

    Numeric model.  A binary64 value is either [NaN] or a finite number, and
    finite arithmetic is exact rational arithmetic ([Q], with results kept in
    lowest terms by [Qred]): rounding, overflow and the sign of zero are not
    modelled.  The infinities are not
    represented: a division by zero, which numpy answers with [nan] or
    [+-inf] and a warning, yields [NaN] here.  Comparisons with [NaN] are
    false, arithmetic on [NaN] gives [NaN].  The three library functions that
    leave the rationals ([np.sqrt], [np.log], [np.tanh]) are the fields of the
    class [Libm]; the pipeline is defined for every instance, and
    [rational_libm] is a fixed-point instance used to run it. *)

From Stdlib Require Import QArith Qabs Qround ZArith List Bool Lia.
From Stdlib Require Import Reals Psatz Sorted.
Import ListNotations.

Local Open Scope Q_scope.

(** ** Floating-point values *)

Inductive fl : Type :=
| NaN
| Num (q : Q).

Definition np_isnan (a : fl) : bool :=
  match a with NaN => true | Num _ => false end.

Definition np_isfinite (a : fl) : bool :=
  match a with NaN => false | Num _ => true end.

Definition Qltb (a b : Q) : bool := negb (Qle_bool b a).

Definition fl_lift2 (f : Q -> Q -> Q) (a b : fl) : fl :=
  match a, b with
  | Num x, Num y => Num (Qred (f x y))
  | _, _ => NaN
  end.

Definition fadd := fl_lift2 Qplus.
Definition fsub := fl_lift2 Qminus.
Definition fmul := fl_lift2 Qmult.

Definition fneg (a : fl) : fl :=
  match a with Num x => Num (- x) | NaN => NaN end.

(** [x / 0] is not a finite number in IEEE arithmetic. *)
Definition fdiv (a b : fl) : fl :=
  match a, b with
  | Num x, Num y => if Qeq_bool y 0 then NaN else Num (Qred (x / y))
  | _, _ => NaN
  end.

Definition flt (a b : fl) : bool :=
  match a, b with Num x, Num y => Qltb x y | _, _ => false end.

Definition fle (a b : fl) : bool :=
  match a, b with Num x, Num y => Qle_bool x y | _, _ => false end.

Definition fgt (a b : fl) : bool := flt b a.
Definition fge (a b : fl) : bool := fle b a.

(** Equality of floating-point values up to the representation of the
    rational. *)
Definition feq (a b : fl) : Prop :=
  match a, b with
  | NaN, NaN => True
  | Num x, Num y => x == y
  | _, _ => False
  end.

(** ** Python exceptions *)

Inductive exn : Type :=
| ValueError
| IndexError
| TypeError
| ZeroDivisionError
| OSError.

Inductive result (A : Type) : Type :=
| Ok (a : A)
| Raise (e : exn).

Arguments Ok {A} a.
Arguments Raise {A} e.

Definition bind {A B : Type} (r : result A) (k : A -> result B) : result B :=
  match r with
  | Ok a => k a
  | Raise e => Raise e
  end.

Notation "x <- r ;; k" := (bind r (fun x => k))
  (at level 61, r at next level, right associativity).

(** ** numpy primitives on lists *)

Definition np_sum (l : list Q) : Q :=
  fold_left (fun acc x => Qred (acc + x)) l 0.

Definition fl_sum (l : list fl) : fl := fold_left fadd l (Num 0).

Definition len {A : Type} (l : list A) : Z := Z.of_nat (length l).

(** [np.mean]: the mean of an empty array is [nan]. *)
Definition np_mean (l : list fl) : fl :=
  fdiv (fl_sum l) (Num (inject_Z (len l))).

Definition np_maximum (a b : Q) : Q := if Qle_bool a b then b else a.
Definition np_minimum (a b : Q) : Q := if Qle_bool a b then a else b.

(** [np.clip(x, lo, hi) = minimum(maximum(x, lo), hi)]; [nan] is kept. *)
Definition Qclip (x lo hi : Q) : Q := np_minimum (np_maximum x lo) hi.

Definition np_clip (a : fl) (lo hi : Q) : fl :=
  match a with Num x => Num (Qclip x lo hi) | NaN => NaN end.

(** [a[mask]] for a boolean mask of the same length. *)
Fixpoint mask_select {A : Type} (mask : list bool) (a : list A) : list A :=
  match mask, a with
  | m :: mask', x :: a' =>
      if m then x :: mask_select mask' a' else mask_select mask' a'
  | _, _ => []
  end.

(** [np.sum(mask)] for a boolean array. *)
Definition count_true (mask : list bool) : Z :=
  Z.of_nat (length (filter (fun b => b) mask)).

Definition np_any (mask : list bool) : bool := existsb (fun b => b) mask.

(** Python's [int()] on a float truncates toward zero. *)
Definition py_int (q : Q) : Z := Z.quot (Qnum q) (Zpos (Qden q)).

(** [range(n)] *)
Definition py_range (n : Z) : list Z := map Z.of_nat (seq 0 (Z.to_nat n)).

(** [np.arange(start, stop, step)] for a positive step, in exact
    arithmetic: [ceil((stop - start) / step)] values from [start] on, one
    step apart. *)
Definition np_arange (start stop step : Q) : list Q :=
  map (fun i => Qred (start + inject_Z (Z.of_nat i) * step))
      (seq 0 (Z.to_nat (Qceiling ((stop - start) / step)))).

(** [df.groupby('time')['cox'].mean().reset_index()]: the rows are
    grouped by their time, the groups come in the increasing order of the
    times, and each is replaced by its mean. *)
Fixpoint group_insert (k : Q) (v : fl) (groups : list (Q * list fl))
  : list (Q * list fl) :=
  match groups with
  | [] => [(k, [v])]
  | (k', vs) :: groups' =>
      if Qeq_bool k k' then (k', vs ++ [v]) :: groups'
      else if Qltb k k' then (k, [v]) :: groups
      else (k', vs) :: group_insert k v groups'
  end.

Definition groupby_mean (rows : list (Q * fl)) : list (Q * fl) :=
  map (fun g => (fst g, np_mean (snd g)))
      (fold_left (fun groups r => group_insert (fst r) (snd r) groups)
                 rows []).

Definition np_min (l : list Q) : Q :=
  match l with [] => 0 | x :: l' => fold_left np_minimum l' x end.

Definition np_max (l : list Q) : Q :=
  match l with [] => 0 | x :: l' => fold_left np_maximum l' x end.

(** [np.polyval]: coefficients from the highest power down. *)
Definition np_polyval (coeffs : list Q) (x : Q) : Q :=
  fold_left (fun acc c => Qred (acc * x + c)) coeffs 0.

(** *** Least squares ([np.polyfit])

    The least-squares polynomial is the solution of the normal equations,
    solved here by Gauss-Jordan elimination on the augmented matrix; a
    singular system gives [None]. *)

Fixpoint pick_pivot (rows : list (list Q))
  : option (list Q * list (list Q)) :=
  match rows with
  | [] => None
  | r :: rows' =>
      if Qeq_bool (hd 0 r) 0
      then match pick_pivot rows' with
           | Some (p, rest) => Some (p, r :: rest)
           | None => None
           end
      else Some (r, rows')
  end.

Fixpoint row_sub (s r : list Q) (f : Q) : list Q :=
  match s, r with
  | a :: s', b :: r' => Qred (a - f * b) :: row_sub s' r' f
  | _, _ => []
  end.

(** Each step eliminates the leading column and drops it, so that a finished
    row is reduced to the value of its unknown. *)
Fixpoint gauss_jordan (n : nat) (done todo : list (list Q))
  : option (list Q) :=
  match n with
  | O => Some (map (hd 0) done)
  | S n' =>
      match pick_pivot todo with
      | None => None
      | Some (p, rest) =>
          let p' := map (fun a => Qred (a / hd 0 p)) p in
          let elim := fun s => tl (row_sub s p' (hd 0 s)) in
          gauss_jordan n' (map elim done ++ [tl p']) (map elim rest)
      end
  end.

Fixpoint Qpow (x : Q) (n : nat) : Q :=
  match n with O => 1 | S n' => x * Qpow x n' end.

(** Powers [deg, deg-1, ..., 0], the column order of [np.vander]. *)
Definition powers (deg : nat) : list nat := rev (seq 0 (S deg)).

Definition normal_row (xs ys : list Q) (deg i : nat) : list Q :=
  map (fun j => np_sum (map (fun x => Qpow x i * Qpow x j) xs)) (powers deg)
  ++ [np_sum (map (fun p => Qpow (fst p) i * snd p) (combine xs ys))].

Definition np_polyfit (xs ys : list Q) (deg : nat) : option (list Q) :=
  gauss_jordan (S deg) [] (map (normal_row xs ys deg) (powers deg)).

(** *** Gap filling ([pandas.Series.interpolate(method='pchip')])

    The index of the series is [0, 1, ...].  pandas leaves a series without
    a gap, or without a value, as it is; otherwise it hands the valid points to
    [scipy.interpolate.pchip_interpolate], which needs two of them at least,
    evaluates the interpolant at every gap (extrapolating behind the last
    valid point) and, the direction being forward, sets the gaps before the
    first valid point back to [nan]. *)

Definition sign (q : Q) : Z := Z.sgn (Qnum q).

(** [PchipInterpolator._edge_case] *)
Definition pchip_edge_case (h0 h1 m0 m1 : Q) : Q :=
  let d := ((2 * h0 + h1) * m0 - h0 * m1) / (h0 + h1) in
  if negb (sign d =? sign m0)%Z then 0
  else if negb (sign m0 =? sign m1)%Z && Qltb (3 * Qabs m0) (Qabs d)
       then 3 * m0
       else d.

(** The derivative at an interior point, between the segments of lengths
    [h0], [h1] and slopes [m0], [m1]. *)
Definition pchip_interior (h0 h1 m0 m1 : Q) : Q :=
  if negb (sign m1 =? sign m0)%Z || Qeq_bool m1 0 || Qeq_bool m0 0 then 0
  else
    let w1 := 2 * h1 + h0 in
    let w2 := h1 + 2 * h0 in
    1 / ((w1 / m0 + w2 / m1) / (w1 + w2)).

Fixpoint pchip_interiors (hk mk : list Q) : list Q :=
  match hk, mk with
  | h0 :: ((h1 :: _) as hk'), m0 :: ((m1 :: _) as mk') =>
      pchip_interior h0 h1 m0 m1 :: pchip_interiors hk' mk'
  | _, _ => []
  end.

Fixpoint diffs (l : list Q) : list Q :=
  match l with
  | a :: ((b :: _) as l') => (b - a) :: diffs l'
  | _ => []
  end.

(** [PchipInterpolator._find_derivatives], for two points at least. *)
Definition pchip_derivatives (x y : list Q) : list Q :=
  let hk := diffs x in
  let mk := map (fun p => fst p / snd p) (combine (diffs y) hk) in
  match hk, mk with
  | [_], [m0] => [m0; m0]
  | h0 :: h1 :: _, m0 :: m1 :: _ =>
      let rh := rev hk in
      let rm := rev mk in
      pchip_edge_case h0 h1 m0 m1
      :: pchip_interiors hk mk
      ++ [pchip_edge_case (nth 0 rh 0) (nth 1 rh 0) (nth 0 rm 0) (nth 1 rm 0)]
  | _, _ => []
  end.

(** The cubic Hermite piece on [x0, x1]. *)
Definition hermite (x0 x1 y0 y1 d0 d1 x : Q) : Q :=
  let h := x1 - x0 in
  let t := (x - x0) / h in
  let t2 := t * t in
  let t3 := t2 * t in
  (2 * t3 - 3 * t2 + 1) * y0 + (t3 - 2 * t2 + t) * h * d0
  + (3 * t2 - 2 * t3) * y1 + (t3 - t2) * h * d1.

(** Evaluation with [extrapolate=True]: the first piece serves on its left,
    the last one on its right. *)
Fixpoint pchip_eval (x y d : list Q) (q : Q) : Q :=
  match x, y, d with
  | x0 :: ((x1 :: x'') as x'), y0 :: ((y1 :: _) as y'),
    d0 :: ((d1 :: _) as d') =>
      match x'' with
      | [] => hermite x0 x1 y0 y1 d0 d1 q
      | _ => if Qltb q x1 then hermite x0 x1 y0 y1 d0 d1 q
             else pchip_eval x' y' d' q
      end
  | _, _, _ => 0
  end.

Definition pchip_interpolate (xi yi : list Q) (q : Q) : Q :=
  pchip_eval xi yi (pchip_derivatives xi yi) q.

Definition indexed {A : Type} (l : list A) : list (nat * A) :=
  combine (seq 0 (length l)) l.

(** The valid points of a series: their positions and their values. *)
Definition valid_points (ys : list fl) : list (nat * Q) :=
  flat_map (fun p => match snd p with Num q => [(fst p, q)] | NaN => [] end)
           (indexed ys).

Definition Qnat (n : nat) : Q := inject_Z (Z.of_nat n).

Definition interpolate_pchip (ys : list fl) : result (list fl) :=
  let pts := valid_points ys in
  match pts with
  | [] => Ok ys
  | (first_valid, _) :: others =>
      if forallb np_isfinite ys then Ok ys
      else
        match others with
        | [] => Raise ValueError
        | _ =>
            let xi := map (fun p => Qnat (fst p)) pts in
            let yi := map snd pts in
            Ok (map (fun p =>
                       match snd p with
                       | Num q => Num q
                       | NaN =>
                           if (fst p <? first_valid)%nat then NaN
                           else Num (pchip_interpolate xi yi (Qnat (fst p)))
                       end)
                    (indexed ys))
        end
  end.

(** [Series.ffill] and [Series.bfill] *)
Fixpoint ffill_from (last : fl) (l : list fl) : list fl :=
  match l with
  | [] => []
  | NaN :: l' => last :: ffill_from last l'
  | Num q :: l' => Num q :: ffill_from (Num q) l'
  end.

Definition ffill (l : list fl) : list fl := ffill_from NaN l.

Definition bfill (l : list fl) : list fl := rev (ffill (rev l)).

(** *** Smoothing ([scipy.signal.savgol_filter], [mode='interp'])

    A value of the filtered series is the value, at its position, of the
    least-squares polynomial of the window around it; this is a fixed linear
    combination of the window.  Within half a window of an end the window is
    the first, or the last, full one. *)

Definition unit_vector (n j : nat) : list Q :=
  map (fun i => if (i =? j)%nat then 1 else 0) (seq 0 n).

(** The weights that give the fitted value at position [pos] of a window. *)
Definition fit_weights (window order pos : nat) : list Q :=
  map (fun j =>
         match np_polyfit (map Qnat (seq 0 window)) (unit_vector window j)
                 order with
         | Some c => Qred (np_polyval c (Qnat pos))
         | None => 0
         end)
      (seq 0 window).

Definition dot (c x : list Q) : Q :=
  np_sum (map (fun p => fst p * snd p) (combine c x)).

Definition savgol_values (window order : nat) (x : list Q) : list Q :=
  let n := length x in
  let half := (window / 2)%nat in
  map (fun i =>
         if (i <? half)%nat
         then dot (fit_weights window order i) (firstn window x)
         else if (n - half <=? i)%nat
              then dot (fit_weights window order (i - (n - window)))
                       (skipn (n - window) x)
              else dot (fit_weights window order half)
                       (firstn window (skipn (i - half) x)))
      (seq 0 n).

Definition all_finite (l : list fl) : option (list Q) :=
  fold_right (fun a acc =>
                match a, acc with
                | Num q, Some qs => Some (q :: qs)
                | _, _ => None
                end) (Some []) l.

(** On a series with a [nan] the model answers [nan] everywhere; the only
    such series that reaches the filter in this program has no value at
    all. *)
Definition savgol_filter (x : list fl) (window order : nat) : list fl :=
  match all_finite x with
  | Some qs => map Num (savgol_values window order qs)
  | None => map (fun _ => NaN) x
  end.

(** ** The functions outside the rationals *)

Class Libm : Type := {
  np_sqrt : Q -> Q;
  np_log : Q -> Q;
  np_tanh : Q -> Q
}.

(** *** A fixed-point instance

    Approximations to 64 binary digits behind the point, by the usual
    reductions and series.  Nothing below depends on their accuracy: they
    serve to run the pipeline on data. *)

Definition fx_one : positive := 18446744073709551616.

Definition fx (q : Q) : Q := Qred (Qfloor (q * (Zpos fx_one # 1)) # fx_one).

Definition fx_sqrt (q : Q) : Q :=
  if Qle_bool q 0 then 0
  else Qred (Z.sqrt (Qnum q * Zpos (Qden q) * Zpos (fx_one * fx_one))
             # (Qden q * fx_one)).

(** [y^k/k + y^(k+2)/(k+2) + ...], [n] terms; [p] is [y^k]. *)
Fixpoint atanh_terms (n : nat) (k : positive) (p y2 : Q) : Q :=
  match n with
  | O => 0
  | S n' => fx (p / (Zpos k # 1)) + atanh_terms n' (k + 2) (fx (p * y2)) y2
  end.

Definition fx_atanh (y : Q) : Q := atanh_terms 40 1 y (y * y).

Fixpoint log_reduce (fuel : nat) (x : Q) (k : Z) : Q * Z :=
  match fuel with
  | O => (x, k)
  | S fuel' =>
      if Qltb 2 x then log_reduce fuel' (x / 2) (k + 1)
      else if Qltb x (1 # 2) then log_reduce fuel' (x * 2) (k - 1)
           else (x, k)
  end.

Definition fx_log (x : Q) : Q :=
  if Qle_bool x 0 then 0
  else
    let '(m, k) := log_reduce 2048 (Qred x) 0 in
    fx (inject_Z k * (2 * fx_atanh (1 # 3))
        + 2 * fx_atanh (Qred ((m - 1) / (m + 1)))).

(** [1 + x + x^2/2! + ...], [n] terms; [term] is [x^i/i!]. *)
Fixpoint exp_terms (n : nat) (i : positive) (term x : Q) : Q :=
  match n with
  | O => 0
  | S n' => term + exp_terms n' (i + 1) (fx (term * x / (Zpos i # 1))) x
  end.

Fixpoint square_times (n : nat) (e : Q) : Q :=
  match n with O => e | S n' => square_times n' (fx (e * e)) end.

(** [exp x] for [|x| <= 64], through [exp (x / 64) ^ 64]. *)
Definition fx_exp (x : Q) : Q :=
  square_times 6 (exp_terms 30 1 1 (Qred (x / 64))).

Definition fx_tanh (z : Q) : Q :=
  if Qltb 32 z then 1
  else if Qltb z (-32) then -1
       else let e := fx_exp (2 * z) in fx ((e - 1) / (e + 1)).

#[export] Instance rational_libm : Libm :=
  {| np_sqrt := fx_sqrt; np_log := fx_log; np_tanh := fx_tanh |}.

(** ** config.py *)

Module Config.

Definition MAP_BINS : list Q :=
  map (fun k => inject_Z (40 + 5 * k)) (py_range 13).
Definition MAP_BIN_CENTERS : list Q :=
  map (fun e : Q => e + (5 # 2)) (removelast MAP_BINS).
Definition COX_WINDOWS_MIN : list Q :=
  map inject_Z [3; 5; 10; 20; 30; 60; 90; 120]%Z.
Definition HISTORY_WINDOWS_HR : list Q :=
  map inject_Z [1; 2; 3; 4; 5; 6; 7; 8; 12]%Z.

Definition MAP_OPT_MIN : Q := 40.
Definition MAP_OPT_MAX : Q := 90.
Definition DEVIATION_MIN : Q := -50.
Definition DEVIATION_MAX : Q := 50.

Definition TIME_STEP_MIN : Q := 1 # 60.
Definition BURDEN_BOUNDS : Q := 5.

Definition SAVGOL_WINDOW : nat := 11.
Definition SAVGOL_ORDER : nat := 3.

Definition MAX_CORES : nat := 8.
Definition CHUNK_SIZE : nat := 25.

Definition COX_WEIGHT_THRESHOLD : Q := 3 # 10.
Definition MIN_CORRELATION_POINTS : Z := 3.
Definition MIN_DATA_POINTS : Z := 10.

Definition FISHER_BOUNDS : Q := 999 # 1000.

End Config.

(** ** core/signal_processing.py *)

Module SignalProcessor.

Import Config.

Section WithLibm.

Context {L : Libm}.

(** The finite entries of an array, as rationals. *)
Definition finite_values (l : list fl) : list Q :=
  flat_map (fun a => match a with Num q => [q] | NaN => [] end) l.

(** [np.corrcoef(x, y)[0, 1]] on finite data of one length: the covariance
    matrix with [ddof = 1], divided by the standard deviation of its row and
    then of its column, and clipped to [-1, 1]. *)
Definition np_corrcoef (xs ys : list Q) : fl :=
  let n := inject_Z (len xs) in
  let mx := Qred (np_sum xs / n) in
  let my := Qred (np_sum ys / inject_Z (len ys)) in
  let dx := map (fun x => Qred (x - mx)) xs in
  let dy := map (fun y => Qred (y - my)) ys in
  let fact := n - 1 in
  let cxx := np_sum (map (fun d => d * d) dx) / fact in
  let cyy := np_sum (map (fun d => d * d) dy) / fact in
  let cxy := np_sum (map (fun p => fst p * snd p) (combine dx dy)) / fact in
  let c := fdiv (fdiv (Num cxy) (Num (np_sqrt cxx))) (Num (np_sqrt cyy)) in
  np_clip c (-1) 1.

(** [isfinite(x) & isfinite(y)] *)
Definition finite_mask (x y : list fl) : list bool :=
  map (fun p => np_isfinite (fst p) && np_isfinite (snd p)) (combine x y).

(** [fast_correlation].  The body runs under [try: ... except: return nan]:
    arrays of different lengths cannot be broadcast in [&], which raises
    and so gives [nan]. *)
Definition fast_correlation (x y : list fl) : fl :=
  if ((len x <? MIN_CORRELATION_POINTS) || (len y <? MIN_CORRELATION_POINTS))%Z
  then NaN
  else if negb (len x =? len y)%Z then NaN
  else
    let mask := finite_mask x y in
    if (count_true mask <? MIN_CORRELATION_POINTS)%Z then NaN
    else
      let x_clean := mask_select mask x in
      let y_clean := mask_select mask y in
      np_corrcoef (finite_values x_clean) (finite_values y_clean).

(** [fisher_transform], on one entry of the array. *)
Definition fisher_transform (r : fl) : fl :=
  match np_clip r (- FISHER_BOUNDS) FISHER_BOUNDS with
  | Num r_clipped =>
      Num ((1 # 2) * np_log ((1 + r_clipped) / (1 - r_clipped)))
  | NaN => NaN
  end.

Definition inverse_fisher_transform (z : Q) : Q := np_tanh z.

(** [(time >= lo) & (time < hi)] *)
Definition in_window (lo hi : Q) (t : Q) : bool :=
  Qle_bool lo t && Qltb t hi.

(** One iteration of the loop [for s in range(num_steps)]; [acc] is the pair
    [(cox_vals, map_vals)]. *)
Definition window_step (time_seg : list Q) (map_seg rso2_seg : list fl)
  (win_hr hist_hr t_now step_size : Q)
  (acc : list fl * list fl) (s : Z) : list fl * list fl :=
  let win_start := t_now - hist_hr + inject_Z s * step_size in
  let win_end := win_start + win_hr in
  let win_idx := map (in_window win_start win_end) time_seg in
  if (count_true win_idx <? MIN_DATA_POINTS)%Z then acc
  else
    let map_win := mask_select win_idx map_seg in
    let rso2_win := mask_select win_idx rso2_seg in
    if (1 <? len map_win)%Z then
      let corr := fast_correlation map_win rso2_win in
      if negb (np_isnan corr)
      then (fst acc ++ [corr], snd acc ++ [np_mean map_win])
      else acc
    else acc.

(** [calculate_sliding_window_correlations].  [win_hr / 2] is a Python
    float: dividing by it when it is zero raises. *)
Definition calculate_sliding_window_correlations
  (time : list Q) (MAP rSO2 : list fl) (win_hr hist_hr t_now : Q)
  : result (list fl * list fl) :=
  let t_start := t_now - hist_hr in
  let idx := map (in_window t_start t_now) time in
  if (count_true idx <? 60)%Z then Ok ([], [])
  else
    let time_seg := mask_select idx time in
    let map_seg := mask_select idx MAP in
    let rso2_seg := mask_select idx rSO2 in
    let step_size := win_hr / 2 in
    if Qeq_bool step_size 0 then Raise ZeroDivisionError
    else
      let num_steps := (py_int ((hist_hr - win_hr) / step_size) + 1)%Z in
      Ok (fold_left
            (window_step time_seg map_seg rso2_seg win_hr hist_hr t_now
               step_size)
            (py_range num_steps) ([], [])).

(** One window of [calculate_cox_correlations]: the row it appends to
    [all_corr_time] and [all_corr_val], if any. *)
Definition cox_window (t : list Q) (MAP rSO2 : list fl)
  (t0 win_hr step_size : Q) (s : Z) : list (Q * fl) :=
  let win_start := t0 + inject_Z s * step_size in
  let win_end := win_start + win_hr in
  let idx := map (in_window win_start win_end) t in
  if (count_true idx <? MIN_DATA_POINTS)%Z then []
  else
    let map_seg := mask_select idx MAP in
    let rso2_seg := mask_select idx rSO2 in
    if (1 <? len map_seg)%Z then
      let corr := fast_correlation map_seg rso2_seg in
      if negb (np_isnan corr)
      then [(Qred ((win_start + win_end) / 2), corr)]
      else []
    else [].

(** [calculate_cox_correlations], on the three columns of the data. *)
Definition calculate_cox_correlations (t : list Q) (MAP rSO2 : list fl)
  : result (list Q * list fl) :=
  match t with
  | [] => Raise IndexError
  | t0 :: _ =>
      let cox_windows_min :=
        filter (fun w => Qle_bool w 30) COX_WINDOWS_MIN in
      let rows :=
        flat_map
          (fun w =>
             let win_hr := w / 60 in
             if Qltb (1 # 2) win_hr then []
             else
               let step_size := win_hr / 2 in
               let num_steps :=
                 (py_int ((last t t0 - t0 - win_hr) / step_size) + 1)%Z in
               flat_map (cox_window t MAP rSO2 t0 win_hr step_size)
                        (py_range num_steps))
          cox_windows_min in
      let corr_df := groupby_mean rows in
      Ok (map fst corr_df, map snd corr_df)
  end.

(** [(map_vals >= bins[b]) & (map_vals < bins[b+1])] *)
Definition bin_mask (map_vals : list fl) (bins : list Q) (b : nat)
  : list bool :=
  map (fun m => fge m (Num (nth b bins 0)) && flt m (Num (nth (S b) bins 0)))
      map_vals.

Definition bin_correlations (cox_vals map_vals : list fl) (bins : list Q)
  : list fl :=
  if (len cox_vals <? 5)%Z then repeat NaN (length bins - 1)
  else
    map (fun b =>
           let mask := bin_mask map_vals bins b in
           if np_any mask then np_mean (mask_select mask cox_vals) else NaN)
        (seq 0 (length bins - 1)).

End WithLibm.

End SignalProcessor.

(** ** core/mapopt_calculator.py *)

Module MAPoptCalculator.

Import Config.

(** The [fit_data] dictionary of an accepted fit. *)
Record Fit : Type := {
  fit_win_hr : Q;
  fit_hist_hr : Q;
  fit_bin_centers : list Q;
  fit_binned_cox : list fl;
  fit_binned_cox_fisher : list fl;
  fit_coeffs : list Q;
  fit_mapopt : Q;
  fit_nadir_cox : Q;
  fit_r2 : fl;
  fit_weight : fl
}.

(** The argument tuple of [_process_time_point]. *)
Record Args : Type := {
  arg_k : nat;
  arg_t_now : Q;
  arg_t : list Q;
  arg_MAP : list fl;
  arg_rSO2 : list fl;
  arg_bins : list Q;
  arg_bin_centers : list Q;
  arg_cox_windows_min : list Q;
  arg_history_windows_hr : list Q
}.

(** [_calculate_weight] *)
Definition _calculate_weight (nadir_cox r2 : fl) : fl :=
  let cox_weight :=
    if flt nadir_cox (Num 0) then fneg nadir_cox
    else if fle nadir_cox (Num COX_WEIGHT_THRESHOLD)
         then fdiv (fsub (Num COX_WEIGHT_THRESHOLD) nadir_cox)
                   (Num COX_WEIGHT_THRESHOLD)
         else Num 0 in
  fmul r2 cox_weight.

Section WithLibm.

Context {L : Libm}.

(** The part of [_calculate_single_fit] under [if np.sum(valid) >= 3]: the
    quadratic fit, its vertex, the quality of the fit and the weight.  [None]
    stands for falling through to the final [return None]; an exception of
    [np.polyfit] is absorbed by the bare [except]. *)
Definition fit_valid_bins (win_hr hist_hr : Q)
  (bin_centers : list Q) (binned_cox binned_cox_fisher : list fl)
  : option (fl * fl * Fit) :=
  let valid := map np_isfinite binned_cox_fisher in
  if (3 <=? count_true valid)%Z then
    let xs := mask_select valid bin_centers in
    let ys := SignalProcessor.finite_values
                (mask_select valid binned_cox_fisher) in
    match np_polyfit xs ys 2 with
    | Some coeffs =>
        let c0 := nth 0 coeffs 0 in
        let c1 := nth 1 coeffs 0 in
        if Qltb 0 c0 then
          let mapopt_theoretical := - c1 / (2 * c0) in
          let data_min := np_min xs in
          let data_max := np_max xs in
          let mapopt := Qclip mapopt_theoretical data_min data_max in
          if Qle_bool MAP_OPT_MIN mapopt && Qle_bool mapopt MAP_OPT_MAX then
            let yfit := map (np_polyval coeffs) xs in
            let SSE :=
              np_sum (map (fun p => Qpow (fst p - snd p) 2)
                          (combine ys yfit)) in
            let ybar := np_sum ys / inject_Z (len ys) in
            let SST := np_sum (map (fun y => Qpow (y - ybar) 2) ys) in
            let R2 := fsub (Num 1) (fdiv (Num SSE) (Num SST)) in
            let nadir_cox_fisher := np_polyval coeffs mapopt in
            let nadir_cox :=
              SignalProcessor.inverse_fisher_transform nadir_cox_fisher in
            let weight := _calculate_weight (Num nadir_cox) R2 in
            if fgt weight (Num (1 # 1000000)) then
              Some (Num mapopt, weight,
                    {| fit_win_hr := win_hr;
                       fit_hist_hr := hist_hr;
                       fit_bin_centers := xs;
                       fit_binned_cox := mask_select valid binned_cox;
                       fit_binned_cox_fisher :=
                         mask_select valid binned_cox_fisher;
                       fit_coeffs := coeffs;
                       fit_mapopt := mapopt;
                       fit_nadir_cox := nadir_cox;
                       fit_r2 := R2;
                       fit_weight := weight |})
            else None
          else None
        else None
    | None => None
    end
  else None.

(** [_calculate_single_fit]; [t[0]] raises on an empty array. *)
Definition _calculate_single_fit (t_now : Q) (t : list Q)
  (MAP rSO2 : list fl) (win_hr hist_hr : Q) (bins bin_centers : list Q)
  : result (option (fl * fl * Fit)) :=
  let t_start := t_now - hist_hr in
  match t with
  | [] => Raise IndexError
  | t0 :: _ =>
      if Qltb t_start t0 then Ok None
      else
        cm <- SignalProcessor.calculate_sliding_window_correlations
                t MAP rSO2 win_hr hist_hr t_now ;;
        let cox_vals := fst cm in
        let map_vals := snd cm in
        if (len map_vals <? 5)%Z then Ok None
        else
          let binned_cox :=
            SignalProcessor.bin_correlations cox_vals map_vals bins in
          let binned_cox_fisher :=
            map SignalProcessor.fisher_transform binned_cox in
          Ok (fit_valid_bins win_hr hist_hr bin_centers binned_cox
                binned_cox_fisher)
  end.

(** A loop whose body may raise. *)
Fixpoint for_each {A B : Type} (body : A -> B -> result A) (l : list B)
  (acc : A) : result A :=
  match l with
  | [] => Ok acc
  | x :: l' => acc' <- body acc x ;; for_each body l' acc'
  end.

(** The three lists [mapopts], [weights], [local_fits]. *)
Definition Acc : Type := (list fl * list fl * list Fit)%type.

Definition history_step (a : Args) (win_hr : Q) (acc : Acc) (hist_hr : Q)
  : result Acc :=
  fit_result <- _calculate_single_fit (arg_t_now a) (arg_t a) (arg_MAP a)
                  (arg_rSO2 a) win_hr hist_hr (arg_bins a)
                  (arg_bin_centers a) ;;
  match fit_result with
  | Some (mapopt, weight, fit_data) =>
      let '(mapopts, weights, local_fits) := acc in
      Ok (mapopts ++ [mapopt], weights ++ [weight], local_fits ++ [fit_data])
  | None => Ok acc
  end.

Definition window_loop (a : Args) (acc : Acc) (cox_win_min : Q)
  : result Acc :=
  let win_hr := cox_win_min / 60 in
  for_each (history_step a win_hr) (arg_history_windows_hr a) acc.

(** [np.sum(np.array(mapopts) * np.array(weights)) / np.sum(weights)] *)
Definition weighted_mean (mapopts weights : list fl) : fl :=
  fdiv (fl_sum (map (fun p => fmul (fst p) (snd p)) (combine mapopts weights)))
       (fl_sum weights).

(** [_process_time_point] *)
Definition _process_time_point (a : Args) : result (nat * fl * list Fit) :=
  acc <- for_each (window_loop a) (arg_cox_windows_min a) ([], [], []) ;;
  let '(mapopts, weights, local_fits) := acc in
  if negb (len mapopts =? 0)%Z && (0 <? len weights)%Z
  then Ok (arg_k a, weighted_mean mapopts weights, local_fits)
  else Ok (arg_k a, NaN, []).

End WithLibm.

(** *** The scheduler

    [_process_parallel] is modelled for [progress_callback = None].  What a
    worker pool does is fixed by a [pool_behaviour]: it works, it cannot be
    created, or one of its dispatches raises.  A healthy [pool.map] returns
    the results of the workers in the order of its arguments and re-raises
    the exception of a worker. *)

Inductive pool_behaviour : Type :=
| Healthy
| FailsAtCreation
| FailsAtDispatch (chunk_idx : nat).

(** [mapopt_series] and [all_fits_data] *)
Definition Slots : Type := (list fl * list (list Fit))%type.

Fixpoint list_set {A : Type} (k : nat) (v : A) (l : list A) : list A :=
  match l, k with
  | [], _ => []
  | _ :: l', O => v :: l'
  | x :: l', S k' => x :: list_set k' v l'
  end.

(** [mapopt_series[k] = weighted_mapopt; all_fits_data[k] = local_fits].
    The two arrays are allocated with the same length, so the two index
    checks agree. *)
Definition store (st : Slots) (r : nat * fl * list Fit) : result Slots :=
  let '(k, weighted_mapopt, local_fits) := r in
  if (k <? length (fst st))%nat && (k <? length (snd st))%nat
  then Ok (list_set k weighted_mapopt (fst st), list_set k local_fits (snd st))
  else Raise IndexError.

(** [l[start:stop]] *)
Definition slice {A : Type} (l : list A) (start stop : nat) : list A :=
  firstn (stop - start) (skipn start l).

Fixpoint map_result {A B : Type} (f : A -> result B) (l : list A)
  : result (list B) :=
  match l with
  | [] => Ok []
  | x :: l' => y <- f x ;; ys <- map_result f l' ;; Ok (y :: ys)
  end.

Section Scheduler.

Variable worker : Args -> result (nat * fl * list Fit).

Definition pool_map (p : pool_behaviour) (chunk_idx : nat)
  (chunk_args : list Args) : result (list (nat * fl * list Fit)) :=
  match p with
  | FailsAtDispatch c =>
      if (c =? chunk_idx)%nat then Raise OSError
      else map_result worker chunk_args
  | _ => map_result worker chunk_args
  end.

(** [for k, weighted_mapopt, local_fits in results: ...]; the slots written
    before an exception keep their values. *)
Fixpoint store_all (st : Slots) (rs : list (nat * fl * list Fit))
  : Slots * option exn :=
  match rs with
  | [] => (st, None)
  | r :: rs' =>
      match store st r with
      | Ok st' => store_all st' rs'
      | Raise e => (st, Some e)
      end
  end.

(** [for chunk_idx in range(total_chunks)], with the exception that left the
    loop, if any. *)
Fixpoint chunk_loop (p : pool_behaviour) (args_list : list Args)
  (chunks : list nat) (st : Slots) : Slots * option exn :=
  match chunks with
  | [] => (st, None)
  | chunk_idx :: chunks' =>
      let start_idx := (chunk_idx * CHUNK_SIZE)%nat in
      let end_idx :=
        Nat.min ((chunk_idx + 1) * CHUNK_SIZE) (length args_list) in
      if (length args_list <=? start_idx)%nat then (st, None)
      else
        let chunk_args := slice args_list start_idx end_idx in
        match pool_map p chunk_idx chunk_args with
        | Raise e => (st, Some e)
        | Ok results =>
            match store_all st results with
            | (st', None) => chunk_loop p args_list chunks' st'
            | (st', Some e) => (st', Some e)
            end
        end
  end.

(** The body of [try:]. *)
Definition try_pool (p : pool_behaviour) (args_list : list Args)
  (st : Slots) : Slots * option exn :=
  let total_chunks := (length args_list / CHUNK_SIZE + 1)%nat in
  match p with
  | FailsAtCreation => (st, Some OSError)
  | _ => chunk_loop p args_list (seq 0 total_chunks) st
  end.

(** The body of [except Exception:], over the whole of [args_list]. *)
Definition fallback (args_list : list Args) (st : Slots) : result Slots :=
  for_each (fun st args => r <- worker args ;; store st r) args_list st.

Definition process_with (p : pool_behaviour) (time_vector : list Q)
  (args_list : list Args) : result Slots :=
  let n := length time_vector in
  let st0 : Slots := (repeat NaN n, repeat [] n) in
  match try_pool p args_list st0 with
  | (st, None) => Ok st
  | (st, Some _) => fallback args_list st
  end.

(** The scheduler in the words of the specification: on a failure of the
    pool the slots already written are kept and the worker is run
    sequentially for the remaining evaluation times only. *)
Fixpoint chunk_loop_remaining (p : pool_behaviour) (args_list : list Args)
  (chunks : list nat) (st : Slots) : result Slots :=
  match chunks with
  | [] => Ok st
  | chunk_idx :: chunks' =>
      let start_idx := (chunk_idx * CHUNK_SIZE)%nat in
      let end_idx :=
        Nat.min ((chunk_idx + 1) * CHUNK_SIZE) (length args_list) in
      if (length args_list <=? start_idx)%nat then Ok st
      else
        match p with
        | FailsAtDispatch c =>
            if (c =? chunk_idx)%nat
            then fallback (skipn start_idx args_list) st
            else
              st' <- fallback (slice args_list start_idx end_idx) st ;;
              chunk_loop_remaining p args_list chunks' st'
        | _ =>
            st' <- fallback (slice args_list start_idx end_idx) st ;;
            chunk_loop_remaining p args_list chunks' st'
        end
  end.

Definition process_remaining_spec (p : pool_behaviour)
  (time_vector : list Q) (args_list : list Args) : result Slots :=
  let n := length time_vector in
  let st0 : Slots := (repeat NaN n, repeat [] n) in
  match p with
  | FailsAtCreation => fallback args_list st0
  | _ =>
      chunk_loop_remaining p args_list
        (seq 0 (length args_list / CHUNK_SIZE + 1)) st0
  end.

End Scheduler.

(** [_prepare_processing_args], with the constants of [config.py]. *)
Definition prepare_from (k0 : nat) (time_vector t : list Q)
  (MAP rSO2 : list fl) : list Args :=
  map (fun kt =>
         {| arg_k := fst kt;
            arg_t_now := snd kt;
            arg_t := t;
            arg_MAP := MAP;
            arg_rSO2 := rSO2;
            arg_bins := MAP_BINS;
            arg_bin_centers := MAP_BIN_CENTERS;
            arg_cox_windows_min := COX_WINDOWS_MIN;
            arg_history_windows_hr := HISTORY_WINDOWS_HR |})
      (combine (seq k0 (length time_vector)) time_vector).

Definition _prepare_processing_args := prepare_from 0.

(** [_post_process_mapopt], up to the smoothing. *)
Definition fill_and_clamp (mapopt_series : list fl) : result (list fl) :=
  mapopt_filled <- interpolate_pchip mapopt_series ;;
  let mapopt_filled :=
    map (fun v => np_clip v MAP_OPT_MIN MAP_OPT_MAX) mapopt_filled in
  Ok (bfill (ffill mapopt_filled)).

(** [_post_process_mapopt] *)
Definition _post_process_mapopt (mapopt_series : list fl)
  : result (list fl) :=
  mapopt_filled <- fill_and_clamp mapopt_series ;;
  if (SAVGOL_WINDOW <? length mapopt_filled)%nat
  then Ok (savgol_filter mapopt_filled SAVGOL_WINDOW SAVGOL_ORDER)
  else Ok mapopt_filled.

Definition _process_parallel {L : Libm} (p : pool_behaviour)
  (time_vector : list Q) (args_list : list Args) : result Slots :=
  process_with _process_time_point p time_vector args_list.

(** [calculate_mapopt_series], for [progress_callback = None]: the time
    grid, the filled series and the diagnostics it returns. *)
Definition calculate_mapopt_series {L : Libm} (p : pool_behaviour)
  (t : list Q) (MAP rSO2 : list fl)
  : result (list Q * list fl * list (list Fit)) :=
  match t with
  | [] => Raise IndexError
  | t0 :: _ =>
      let time_vector := np_arange t0 (last t t0) TIME_STEP_MIN in
      let args_list := _prepare_processing_args time_vector t MAP rSO2 in
      slots <- _process_parallel p time_vector args_list ;;
      mapopt_filled <- _post_process_mapopt (fst slots) ;;
      Ok (time_vector, mapopt_filled, snd slots)
  end.

End MAPoptCalculator.

(** ** core/burden_metrics.py *)

Module BurdenCalculator.

Import Config.

(** The attributes of a [BurdenCalculator]; [None] is Python's [None]. *)
Record State : Type := {
  deviation : option (list fl);
  lower_bound : option (list fl);
  upper_bound : option (list fl);
  outside_upper : option (list bool);
  outside_lower : option (list bool);
  outside_bounds : option (list bool);
  excess_above : option (list fl);
  excess_below : option (list fl)
}.

(** [__init__] *)
Definition __init__ : State :=
  {| deviation := None; lower_bound := None; upper_bound := None;
     outside_upper := None; outside_lower := None; outside_bounds := None;
     excess_above := None; excess_below := None |}.

(** The dictionary returned by [calculate_burden_metrics]. *)
Record BurdenResult : Type := {
  t_start_hr : Q;
  t_end_hr : Q;
  time_burden : fl;
  area_burden_ratio : fl
}.

(** [np.interp(x, xp, fp)] for increasing [xp]: constant outside of
    [xp], linear between two neighbours. *)
Fixpoint interp_from (x0 : Q) (f0 : fl) (xp : list Q) (fp : list fl) (x : Q)
  : fl :=
  match xp, fp with
  | x1 :: xp', f1 :: fp' =>
      if Qltb x x1
      then fadd f0 (fmul (fdiv (fsub f1 f0) (Num (x1 - x0))) (Num (x - x0)))
      else interp_from x1 f1 xp' fp' x
  | _, _ => f0
  end.

Definition np_interp (x : Q) (xp : list Q) (fp : list fl) : result fl :=
  match xp, fp with
  | x0 :: xp', f0 :: fp' =>
      if Qle_bool x x0 then Ok f0 else Ok (interp_from x0 f0 xp' fp' x)
  | _, _ => Raise ValueError
  end.

Definition zip_with {A B C : Type} (f : A -> B -> C) (a : list A)
  (b : list B) : list C :=
  map (fun p => f (fst p) (snd p)) (combine a b).

(** [calculate_deviation_and_burden]; arrays of different lengths cannot be
    subtracted. *)
Definition calculate_deviation_and_burden (self : State)
  (data_time : list Q) (data_MAP : list fl) (time_vector : list Q)
  (mapopt_filled : list fl) : result State :=
  map_interp <- MAPoptCalculator.map_result
                  (fun x => np_interp x data_time data_MAP) time_vector ;;
  if negb (length map_interp =? length mapopt_filled)%nat
  then Raise ValueError
  else
    let deviation0 := zip_with fsub map_interp mapopt_filled in
    let deviation1 :=
      map (fun d => np_clip d DEVIATION_MIN DEVIATION_MAX) deviation0 in
    let lower := map (fun m => fsub m (Num BURDEN_BOUNDS)) mapopt_filled in
    let upper := map (fun m => fadd m (Num BURDEN_BOUNDS)) mapopt_filled in
    let out_upper := zip_with fgt map_interp upper in
    let out_lower := zip_with flt map_interp lower in
    let out_bounds := zip_with orb out_upper out_lower in
    let above :=
      zip_with (fun o d => if o : bool then d else Num 0) out_upper
               (zip_with fsub map_interp upper) in
    let below :=
      zip_with (fun o d => if o : bool then d else Num 0) out_lower
               (zip_with fsub lower map_interp) in
    Ok {| deviation := Some deviation1;
          lower_bound := Some lower;
          upper_bound := Some upper;
          outside_upper := Some out_upper;
          outside_lower := Some out_lower;
          outside_bounds := Some out_bounds;
          excess_above := Some above;
          excess_below := Some below |}.

(** [np.trapz(y, x)] *)
Fixpoint np_trapz (y : list fl) (x : list Q) : fl :=
  match y, x with
  | y0 :: ((y1 :: _) as y'), x0 :: ((x1 :: _) as x') =>
      fadd (fdiv (fmul (Num (x1 - x0)) (fadd y1 y0)) (Num 2)) (np_trapz y' x')
  | _, _ => Num 0
  end.

(** Subscripting an attribute that is still [None] raises [TypeError]; a
    boolean mask of another length raises [IndexError]. *)
Definition subscript {A : Type} (a : option (list A)) (mask : list bool)
  : result (list A) :=
  match a with
  | None => Raise TypeError
  | Some l =>
      if (length l =? length mask)%nat then Ok (mask_select mask l)
      else Raise IndexError
  end.

(** [_calculate_area_burden] *)
Definition _calculate_area_burden (self : State) (time_vector : list Q)
  (time_idx : list bool) : result fl :=
  above <- subscript (excess_above self) time_idx ;;
  below <- subscript (excess_below self) time_idx ;;
  let tsel := mask_select time_idx time_vector in
  let area_outside := np_trapz (zip_with fadd above below) tsel in
  upper <- subscript (upper_bound self) time_idx ;;
  lower <- subscript (lower_bound self) time_idx ;;
  let area_safe_zone := np_trapz (zip_with fsub upper lower) tsel in
  if fgt area_safe_zone (Num 0)
  then Ok (fmul (fdiv area_outside area_safe_zone) (Num 100))
  else Ok (Num 0).

(** Python's [max(a, b)] and [min(a, b)] *)
Definition py_max (a b : Q) : Q := if Qltb a b then b else a.
Definition py_min (a b : Q) : Q := if Qltb b a then b else a.

(** [(time_vector >= t_start_hr) & (time_vector <= t_end_hr)] *)
Definition in_range (lo hi : Q) (t : Q) : bool :=
  Qle_bool lo t && Qle_bool t hi.

(** [calculate_burden_metrics] *)
Definition calculate_burden_metrics (self : State) (time_vector : list Q)
  (t_start t_end : Q) : result BurdenResult :=
  match outside_bounds self with
  | None => Raise ValueError
  | Some outside =>
      match time_vector with
      | [] => Raise IndexError
      | first :: _ =>
          let t_start' := py_max t_start first in
          let t_end' := py_min t_end (last time_vector first) in
          let time_idx := map (in_range t_start' t_end') time_vector in
          if negb (np_any time_idx)
          then Ok {| t_start_hr := t_start'; t_end_hr := t_end';
                     time_burden := Num 0; area_burden_ratio := Num 0 |}
          else
            sel <- subscript (Some outside) time_idx ;;
            let tb :=
              fmul (fdiv (Num (inject_Z (count_true sel)))
                         (Num (inject_Z (count_true time_idx))))
                   (Num 100) in
            area <- _calculate_area_burden self time_vector time_idx ;;
            Ok {| t_start_hr := t_start'; t_end_hr := t_end';
                  time_burden := tb; area_burden_ratio := area |}
      end
  end.

(** The loop [while current_time <= end_time] of
    [calculate_burden_over_time]; [None] when the iterations allowed by
    [fuel] do not reach its end. *)
Fixpoint burden_windows (fuel : nat) (self : State) (time_vector : list Q)
  (window_hours step_hours end_time current_time : Q)
  (time_centers : list Q) (burden_values : list fl)
  : option (result (list Q * list fl)) :=
  if Qle_bool current_time end_time then
    match fuel with
    | O => None
    | S fuel' =>
        let window_start := current_time in
        let window_end := current_time + window_hours in
        match calculate_burden_metrics self time_vector window_start
                window_end with
        | Raise e => Some (Raise e)
        | Ok burden_result =>
            burden_windows fuel' self time_vector window_hours step_hours
              end_time (current_time + step_hours)
              (time_centers ++ [current_time + window_hours / 2])
              (burden_values ++ [time_burden burden_result])
        end
    end
  else Some (Ok (time_centers, burden_values)).

(** [calculate_burden_over_time] *)
Definition calculate_burden_over_time (fuel : nat) (self : State)
  (time_vector : list Q) (window_hours step_hours : Q)
  : option (result (list Q * list fl)) :=
  match outside_bounds self with
  | None => Some (Raise ValueError)
  | Some _ =>
      match time_vector with
      | [] => Some (Raise IndexError)
      | start_time :: _ =>
          let end_time := last time_vector start_time - window_hours in
          burden_windows fuel self time_vector window_hours step_hours
            end_time start_time [] []
      end
  end.

(** [np.max] and [np.min] of an array of floats: [nan] when the array
    holds one, a [ValueError] on an empty array. *)
Definition fl_max (l : list fl) : result fl :=
  match l with
  | [] => Raise ValueError
  | _ :: _ =>
      match all_finite l with
      | Some qs => Ok (Num (np_max qs))
      | None => Ok NaN
      end
  end.

Definition fl_min (l : list fl) : result fl :=
  match l with
  | [] => Raise ValueError
  | _ :: _ =>
      match all_finite l with
      | Some qs => Ok (Num (np_min qs))
      | None => Ok NaN
      end
  end.

(** [np.std] *)
Definition np_std {L : Libm} (l : list fl) : fl :=
  let m := np_mean l in
  match np_mean (map (fun x => fmul (fsub x m) (fsub x m)) l) with
  | Num v => Num (np_sqrt v)
  | NaN => NaN
  end.

(** [np.mean(mask) * 100] for a boolean array; [np.mean(None)] raises
    [TypeError]. *)
Definition percent_true (mask : option (list bool)) : result fl :=
  match mask with
  | None => Raise TypeError
  | Some m =>
      Ok (fmul (fdiv (Num (inject_Z (count_true m)))
                     (Num (inject_Z (len m))))
               (Num 100))
  end.

(** The dictionary of [get_deviation_statistics], one field per key. *)
Record DeviationStatistics : Type := {
  mean_deviation : fl;
  std_deviation : fl;
  max_positive_deviation : fl;
  max_negative_deviation : fl;
  percent_time_above_bounds : fl;
  percent_time_below_bounds : fl;
  percent_time_outside_bounds : fl
}.

(** [get_deviation_statistics]; [None] is the empty dictionary. *)
Definition get_deviation_statistics {L : Libm} (self : State)
  : result (option DeviationStatistics) :=
  match deviation self with
  | None => Ok None
  | Some dev =>
      mx <- fl_max dev ;;
      mn <- fl_min dev ;;
      above <- percent_true (outside_upper self) ;;
      below <- percent_true (outside_lower self) ;;
      outside <- percent_true (outside_bounds self) ;;
      Ok (Some {| mean_deviation := np_mean dev;
                  std_deviation := np_std dev;
                  max_positive_deviation := mx;
                  max_negative_deviation := mn;
                  percent_time_above_bounds := above;
                  percent_time_below_bounds := below;
                  percent_time_outside_bounds := outside |})
  end.

(** [np.mean(a[mask])]; subscripting with [None] adds an axis and selects
    the whole array. *)
Definition mean_selected (a : list fl) (mask : option (list bool))
  : result fl :=
  match mask with
  | None => Ok (np_mean a)
  | Some m =>
      if (length a =? length m)%nat then Ok (np_mean (mask_select m a))
      else Raise IndexError
  end.

Record ExcessSummary : Type := {
  total_excess_above : fl;
  total_excess_below : fl;
  mean_excess_above : fl;
  mean_excess_below : fl
}.

(** The dictionary of [get_burden_summary].  Its three updates write
    disjoint sets of keys, so it is modelled by the three groups, each
    present or not. *)
Record BurdenSummary : Type := {
  period_metrics : option BurdenResult;
  deviation_statistics : option DeviationStatistics;
  excess_summary : option ExcessSummary
}.

(** [get_burden_summary]; the arguments [time_vector[0]] and
    [time_vector[-1]] are evaluated before [calculate_burden_metrics] is
    entered. *)
Definition get_burden_summary {L : Libm} (self : State)
  (time_vector : list Q) (full_period : bool) : result BurdenSummary :=
  metrics <-
    (if full_period then
       match time_vector with
       | [] => Raise IndexError
       | first :: _ =>
           r <- calculate_burden_metrics self time_vector first
                  (last time_vector first) ;;
           Ok (Some r)
       end
     else Ok None) ;;
  dev_stats <- get_deviation_statistics self ;;
  excess <-
    match excess_above self, excess_below self with
    | Some above, Some below =>
        mean_above <- mean_selected above (outside_upper self) ;;
        mean_below <- mean_selected below (outside_lower self) ;;
        Ok (Some {| total_excess_above := fl_sum above;
                    total_excess_below := fl_sum below;
                    mean_excess_above := mean_above;
                    mean_excess_below := mean_below |})
    | _, _ => Ok None
    end ;;
  Ok {| period_metrics := metrics;
        deviation_statistics := dev_stats;
        excess_summary := excess |}.

End BurdenCalculator.

(** ** core/data_loader.py *)

Module DataLoader.




End DataLoader.

(** ** The Fisher transform over the reals

    The transform and its inverse with their real-valued functions, of
    which the floating-point code computes the rounding. *)

Module RealFisher.

Local Open Scope R_scope.

Definition FISHER_BOUNDS : R := 999 / 1000.

(** [np.clip] *)
Definition clip (r lo hi : R) : R := Rmin (Rmax r lo) hi.

Definition fisher_transform (r : R) : R :=
  let r_clipped := clip r (- FISHER_BOUNDS) FISHER_BOUNDS in
  (1 / 2) * ln ((1 + r_clipped) / (1 - r_clipped)).

Definition inverse_fisher_transform (z : R) : R := tanh z.

End RealFisher.

(** * Definitions for the statements *)

Section GridSearchSpec.

Import Config MAPoptCalculator.

Context {L : Libm}.

(** The (window, history) combinations in the order of the two loops. *)
Definition grid (a : Args) : list (Q * Q) :=
  list_prod (arg_cox_windows_min a) (arg_history_windows_hr a).

(** What [_calculate_single_fit] answers for one combination. *)
Definition attempt (a : Args) (wh : Q * Q)
  : result (option (fl * fl * Fit)) :=
  _calculate_single_fit (arg_t_now a) (arg_t a) (arg_MAP a) (arg_rSO2 a)
    (fst wh / 60) (snd wh) (arg_bins a) (arg_bin_centers a).

Definition accepted (r : result (option (fl * fl * Fit)))
  : list (fl * fl * Fit) :=
  match r with Ok (Some x) => [x] | _ => [] end.

(** The (candidate, weight, diagnostics) triples produced over the grid. *)
Definition produced (a : Args) : list (fl * fl * Fit) :=
  flat_map (fun wh => accepted (attempt a wh)) (grid a).

Definition candidate_of (x : fl * fl * Fit) : fl := fst (fst x).
Definition weight_of (x : fl * fl * Fit) : fl := snd (fst x).
Definition fit_of (x : fl * fl * Fit) : Fit := snd x.

Definition extend (acc : Acc) (l : list (fl * fl * Fit)) : Acc :=
  let '(mapopts, weights, local_fits) := acc in
  (mapopts ++ map candidate_of l, weights ++ map weight_of l,
   local_fits ++ map fit_of l).

(** A record of 90 minutes sampled every minute: the pressure rises from
    45 mmHg at 2/3 mmHg per minute, and the oxygenation follows a cubic in
    the pressure that falls between 54.4 and 75.6 mmHg and rises outside. *)
Definition example_pressure (i : nat) : Q := 45 + (2 # 3) * Qnat i.

Definition example_response (m : Q) : Q :=
  (m - 65) * (m - 65) * (m - 65) / 675 - (m - 65) / 2.

Definition example_t : list Q := map (fun i => Qred (Qnat i / 60)) (seq 0 90).

Definition example_MAP : list fl :=
  map (fun i => Num (Qred (example_pressure i))) (seq 0 90).

Definition example_rSO2 : list fl :=
  map (fun i => Num (Qred (60 + example_response (example_pressure i))))
      (seq 0 90).

(** The arguments of the worker at the evaluation times of the first 61
    minutes of the example. *)
Definition example_args_list : list Args :=
  _prepare_processing_args (firstn 61 example_t) example_t example_MAP
    example_rSO2.

(** Its arguments one hour into the record. *)
Definition example_args : Args :=
  {| arg_k := 60; arg_t_now := 1; arg_t := example_t;
     arg_MAP := example_MAP; arg_rSO2 := example_rSO2;
     arg_bins := MAP_BINS; arg_bin_centers := MAP_BIN_CENTERS;
     arg_cox_windows_min := COX_WINDOWS_MIN;
     arg_history_windows_hr := HISTORY_WINDOWS_HR |}.

(** Its arguments at the start of the record, where no lookback period
    fits. *)
Definition example_args_start : Args :=
  {| arg_k := 0; arg_t_now := 0; arg_t := example_t;
     arg_MAP := example_MAP; arg_rSO2 := example_rSO2;
     arg_bins := MAP_BINS; arg_bin_centers := MAP_BIN_CENTERS;
     arg_cox_windows_min := COX_WINDOWS_MIN;
     arg_history_windows_hr := HISTORY_WINDOWS_HR |}.

(** The value and the diagnostics of a result of the worker. *)
Definition value_of (r : nat * fl * list Fit) : fl := snd (fst r).
Definition fits_of (r : nat * fl * list Fit) : list Fit := snd r.

End GridSearchSpec.


(** A value of a series: a number of the interval, or a gap. *)
Definition within (lo hi : Q) (a : fl) : Prop :=
  match a with Num q => lo <= q <= hi | NaN => False end.

Definition within_or_nan (lo hi : Q) (a : fl) : Prop :=
  match a with Num q => lo <= q <= hi | NaN => True end.

(** A raw series of 13 estimates without a gap, at the two ends of the
    physiological band. *)
Definition example_raw : list fl :=
  map (fun z => Num (inject_Z z))
      [40; 90; 40; 40; 40; 40; 40; 40; 40; 40; 40; 90; 40]%Z.

Section SchedulerSpec.

Import MAPoptCalculator.

Variable worker : Args -> result (nat * fl * list Fit).

(** The results of the worker at every evaluation time, slot by slot, or
    the exception of the first worker that raises. *)
Definition sequential_results (args : list Args) : result Slots :=
  match map_result worker args with
  | Ok rs => Ok (map value_of rs, map fits_of rs)
  | Raise e => Raise e
  end.

(** The first [j] slots hold the results of the worker at the first [j]
    arguments. *)
Definition filled (args : list Args) (j : nat) (st : Slots) : Prop :=
  exists rs rv rf,
    map_result worker (firstn j args) = Ok rs
    /\ st = (map value_of rs ++ rv, map fits_of rs ++ rf)
    /\ length rv = (length args - j)%nat
    /\ length rf = (length args - j)%nat.

End SchedulerSpec.

Section BurdenExamples.

Import BurdenCalculator.

(** A state in which the deviations and the burden have been computed. *)
Definition example_state : State :=
  {| deviation := Some [Num 30; Num 30; Num 30];
     lower_bound := Some [Num 65; Num 65; Num 65];
     upper_bound := Some [Num 75; Num 75; Num 75];
     outside_upper := Some [true; true; true];
     outside_lower := Some [false; false; false];
     outside_bounds := Some [true; true; true];
     excess_above := Some [Num 25; Num 25; Num 25];
     excess_below := Some [Num 0; Num 0; Num 0] |}.

End BurdenExamples.

(** The sum of the opposites of the negative weights of a filter. *)
Definition negative_weight (w : list Q) : Q :=
  fold_right (fun a acc => np_maximum (- a) 0 + acc) 0 w.

Definition nonneg_or_nan (a : fl) : Prop :=
  match a with Num q => 0 <= q | NaN => True end.

(** The attributes of a calculator after the deviations have been computed
    on a grid of [n] points. *)
Definition burden_state_ok (st : BurdenCalculator.State) (n : nat) : Prop :=
  exists dev lower upper ou ol ob ea eb,
    st = {| BurdenCalculator.deviation := Some dev;
            BurdenCalculator.lower_bound := Some lower;
            BurdenCalculator.upper_bound := Some upper;
            BurdenCalculator.outside_upper := Some ou;
            BurdenCalculator.outside_lower := Some ol;
            BurdenCalculator.outside_bounds := Some ob;
            BurdenCalculator.excess_above := Some ea;
            BurdenCalculator.excess_below := Some eb |}
    /\ (length dev = n /\ length lower = n /\ length upper = n
        /\ length ou = n /\ length ol = n /\ length ob = n
        /\ length ea = n /\ length eb = n)
    /\ Forall (within_or_nan (-50) 50) dev
    /\ Forall (fun p => fst p && snd p = false) (combine ou ol)
    /\ ob = BurdenCalculator.zip_with orb ou ol
    /\ Forall nonneg_or_nan ea
    /\ Forall nonneg_or_nan eb.

(** An excess is a positive number where the sample is outside of the band
    and 0 elsewhere. *)
Definition excess_marks (outside : bool) (excess : fl) : Prop :=
  if outside then exists q, excess = Num q /\ 0 < q else excess = Num 0.

(** Groups of rows in the strict order of their times, none empty, with
    times of [P] and values of [V]. *)
Definition groups_ok (P : Q -> Prop) (V : fl -> Prop)
  (groups : list (Q * list fl)) : Prop :=
  StronglySorted Qlt (map fst groups)
  /\ Forall P (map fst groups)
  /\ Forall (fun g => snd g <> [] /\ Forall V (snd g)) groups.

(** * Properties *)

(** ** Comparisons and arithmetic of the numeric model *)

Lemma Qltb_lt (a b : Q) : Qltb a b = true <-> a < b.
Proof.
  unfold Qltb. rewrite negb_true_iff.
  split; intro H.
  - apply Qnot_le_lt. intro Hle. apply Qle_bool_iff in Hle. congruence.
  - destruct (Qle_bool b a) eqn:E; [|reflexivity].
    apply Qle_bool_iff in E. exfalso. apply (Qlt_not_le _ _ H E).
Qed.

Lemma Qltb_ge (a b : Q) : Qltb a b = false <-> b <= a.
Proof.
  unfold Qltb. rewrite negb_false_iff. apply Qle_bool_iff.
Qed.

Lemma Qle_bool_false (a b : Q) : Qle_bool a b = false <-> b < a.
Proof.
  rewrite <- Qltb_lt. unfold Qltb. rewrite negb_true_iff. reflexivity.
Qed.

Lemma Qeq_bool_true (a b : Q) : Qeq_bool a b = true <-> a == b.
Proof. apply Qeq_bool_iff. Qed.

Lemma Qeq_bool_false (a b : Q) : Qeq_bool a b = false <-> ~ a == b.
Proof.
  split; intro H.
  - intro E. apply Qeq_bool_iff in E. congruence.
  - destruct (Qeq_bool a b) eqn:E; [|reflexivity].
    apply Qeq_bool_iff in E. contradiction.
Qed.

Lemma Qclip_bounds (x lo hi : Q) : lo <= hi -> lo <= Qclip x lo hi <= hi.
Proof.
  intro H. unfold Qclip, np_minimum, np_maximum.
  destruct (Qle_bool x lo) eqn:E1.
  - destruct (Qle_bool lo hi) eqn:E2.
    + split; [apply Qle_refl | assumption].
    + apply Qle_bool_false in E2. split; [assumption | apply Qle_refl].
  - apply Qle_bool_false in E1.
    destruct (Qle_bool x hi) eqn:E2.
    + apply Qle_bool_iff in E2. split; [apply Qlt_le_weak|]; assumption.
    + split; [assumption | apply Qle_refl].
Qed.

Lemma feq_refl (a : fl) : feq a a.
Proof. destruct a; simpl; [trivial | reflexivity]. Qed.

(** ** The weighting scheme *)

Section Weight.

Import Config MAPoptCalculator.



End Weight.

(** ** The burden engine *)

Section Burden.

Import Config BurdenCalculator.

Lemma np_any_map_false {A : Type} (f : A -> bool) (l : list A) :
  (forall t, In t l -> f t = false) -> np_any (map f l) = false.
Proof.
  intro H. unfold np_any. induction l as [|x l IH]; simpl; [reflexivity|].
  rewrite (H x) by (left; reflexivity). simpl.
  apply IH. intros t Ht. apply H. right. assumption.
Qed.

Lemma py_max_lower (a b : Q) : b <= py_max a b /\ a <= py_max a b.
Proof.
  unfold py_max. destruct (Qltb a b) eqn:E.
  - apply Qltb_lt in E. split; lra.
  - apply Qltb_ge in E. split; lra.
Qed.

Lemma py_min_upper (a b : Q) : py_min a b <= b /\ py_min a b <= a.
Proof.
  unfold py_min. destruct (Qltb b a) eqn:E.
  - apply Qltb_lt in E. split; lra.
  - apply Qltb_ge in E. split; lra.
Qed.

Lemma in_range_spec (lo hi t : Q) :
  in_range lo hi t = true <-> lo <= t <= hi.
Proof.
  unfold in_range. rewrite andb_true_iff, !Qle_bool_iff. reflexivity.
Qed.

(** The state of the example is the one [calculate_deviation_and_burden]
    computes for a pressure of 100 mmHg against a target of 70 mmHg. *)
Lemma example_state_computed :
  match calculate_deviation_and_burden __init__ [0; 1; 2]
          [Num 100; Num 100; Num 100] [0; 1; 2] [Num 70; Num 70; Num 70] with
  | Ok st =>
      outside_bounds st = outside_bounds example_state
      /\ outside_upper st = outside_upper example_state
      /\ outside_lower st = outside_lower example_state
  | Raise _ => False
  end.
Proof. vm_compute. repeat split. Qed.

(** C8, as the code has it.  Once the deviations have been computed, a query
    on a non-empty time grid whose range, clamped to the span of the grid,
    holds no sample of the grid returns a zero burden and does not raise.
    This is the case of a range that lies entirely before or entirely behind
    the grid, and of a range whose end is strictly before its start after
    clamping. *)
Theorem burden_zero_without_samples
  (self : State) (outside : list bool) (first : Q) (rest : list Q)
  (t_start t_end : Q) :
  outside_bounds self = Some outside ->
  ((forall t, In t (first :: rest) ->
      ~ (py_max t_start first <= t
         <= py_min t_end (last (first :: rest) first)))
   \/ t_end < first
   \/ last (first :: rest) first < t_start
   \/ py_min t_end (last (first :: rest) first) < py_max t_start first) ->
  calculate_burden_metrics self (first :: rest) t_start t_end
  = Ok {| t_start_hr := py_max t_start first;
          t_end_hr := py_min t_end (last (first :: rest) first);
          time_burden := Num 0;
          area_burden_ratio := Num 0 |}.
Proof.
  intros Hout Hcase.
  set (tv := first :: rest) in *.
  assert (Hnone : forall t, In t tv ->
            in_range (py_max t_start first) (py_min t_end (last tv first)) t
            = false).
  { intros t Ht.
    destruct (in_range _ _ t) eqn:E; [|reflexivity].
    apply in_range_spec in E. exfalso.
    pose proof (py_max_lower t_start first) as [Hm1 Hm2].
    pose proof (py_min_upper t_end (last tv first)) as [Hn1 Hn2].
    destruct Hcase as [H | [H | [H | H]]].
    - apply (H t Ht). exact E.
    - lra.
    - lra.
    - lra. }
  unfold calculate_burden_metrics. rewrite Hout. subst tv.
  cbv beta iota zeta. rewrite (np_any_map_false _ _ Hnone). reflexivity.
Qed.

Lemma burden_zero_without_samples_witness :
  calculate_burden_metrics example_state [0; 1; 2] 5 7
  = Ok {| t_start_hr := py_max 5 0;
          t_end_hr := py_min 7 (last [0; 1; 2] 0);
          time_burden := Num 0;
          area_burden_ratio := Num 0 |}.
Proof.
  apply (burden_zero_without_samples example_state [true; true; true]
           0 [1; 2] 5 7).
  - reflexivity.
  - right. right. left. reflexivity.
Defined.

(** C8, as stated, fails: a range from the first sample to the first sample
    has its end at its start after clamping, holds that one sample, and
    reports the burden of it, here 100 percent. *)
Lemma burden_single_sample_counterexample :
  py_min 0 (last [0; 1; 2] 0) <= py_max 0 0
  /\ exists r,
       calculate_burden_metrics example_state [0; 1; 2] 0 0 = Ok r
       /\ feq (time_burden r) (Num 100)
       /\ ~ feq (time_burden r) (Num 0).
Proof.
  split; [vm_compute; discriminate|].
  eexists. split; [vm_compute; reflexivity|].
  split; [reflexivity | vm_compute; discriminate].
Qed.

(** C10.  A calculator whose deviations have not been computed, as
    [__init__] leaves it, answers both burden queries with [ValueError]: the
    query on one range, and the query over sliding windows whatever the
    number of iterations allowed. *)
Theorem burden_requires_state (self : State) (time_vector : list Q) :
  outside_bounds self = None ->
  (forall t_start t_end,
      calculate_burden_metrics self time_vector t_start t_end
      = Raise ValueError)
  /\ (forall fuel window_hours step_hours,
        calculate_burden_over_time fuel self time_vector window_hours
          step_hours
        = Some (Raise ValueError)).
Proof.
  intro H. split.
  - intros. unfold calculate_burden_metrics. rewrite H. reflexivity.
  - intros. unfold calculate_burden_over_time. rewrite H. reflexivity.
Qed.

Lemma burden_requires_state_witness :
  (forall t_start t_end,
      calculate_burden_metrics __init__ [0; 1; 2] t_start t_end
      = Raise ValueError)
  /\ (forall fuel window_hours step_hours,
        calculate_burden_over_time fuel __init__ [0; 1; 2] window_hours
          step_hours
        = Some (Raise ValueError)).
Proof.
  apply (burden_requires_state __init__ [0; 1; 2]). reflexivity.
Defined.

End Burden.

(** ** The grid search at one evaluation time *)

Section GridSearch.

Import Config MAPoptCalculator.

Context {L : Libm}.

Lemma extend_nil (acc : Acc) : extend acc [] = acc.
Proof.
  destruct acc as [[m w] f]. simpl. rewrite !app_nil_r. reflexivity.
Qed.

Lemma extend_app (acc : Acc) (l1 l2 : list (fl * fl * Fit)) :
  extend (extend acc l1) l2 = extend acc (l1 ++ l2).
Proof.
  destruct acc as [[m w] f]. simpl.
  rewrite !map_app, !app_assoc. reflexivity.
Qed.

Lemma history_loop_extends (a : Args) (w : Q) (hs : list Q) :
  forall acc,
    (forall h, In h hs -> exists o, attempt a (w, h) = Ok o) ->
    for_each (history_step a (w / 60)) hs acc
    = Ok (extend acc
            (flat_map (fun wh => accepted (attempt a wh))
                      (map (pair w) hs))).
Proof.
  induction hs as [|h hs IH]; intros acc Hok.
  - simpl. rewrite extend_nil. reflexivity.
  - destruct (Hok h (or_introl eq_refl)) as [o Ho].
    cbn [for_each map flat_map]. unfold history_step at 1.
    unfold attempt in Ho. cbn [fst snd] in Ho. rewrite Ho.
    unfold attempt at 1. cbn [fst snd]. rewrite Ho.
    cbn [bind].
    rewrite <- extend_app.
    destruct o as [[[m wt] fd]|].
    + destruct acc as [[ms ws] fs]. cbn [bind].
      rewrite IH by (intros h' Hh'; apply Hok; right; assumption).
      reflexivity.
    + cbn [bind accepted]. rewrite extend_nil.
      apply IH. intros h' Hh'. apply Hok. right. assumption.
Qed.

Lemma window_loop_extends (a : Args) (ws : list Q) :
  forall acc,
    (forall wh, In wh (list_prod ws (arg_history_windows_hr a)) ->
                exists o, attempt a wh = Ok o) ->
    for_each (window_loop a) ws acc
    = Ok (extend acc
            (flat_map (fun wh => accepted (attempt a wh))
                      (list_prod ws (arg_history_windows_hr a)))).
Proof.
  induction ws as [|w ws IH]; intros acc Hok.
  - simpl. rewrite extend_nil. reflexivity.
  - cbn [for_each list_prod]. unfold window_loop at 1.
    rewrite history_loop_extends.
    + cbn [bind]. rewrite IH.
      * rewrite extend_app, flat_map_app. reflexivity.
      * intros wh Hwh. apply Hok. cbn [list_prod].
        apply in_or_app. right. assumption.
    + intros h Hh. apply Hok. cbn [list_prod].
      apply in_or_app. left. apply in_map. assumption.
Qed.

(** A combination with a window that is not zero, on a signal that is not
    empty, is settled without an error. *)
Lemma attempt_returns (a : Args) (wh : Q * Q) :
  arg_t a <> [] -> ~ fst wh == 0 -> exists o, attempt a wh = Ok o.
Proof.
  intros Ht Hw. unfold attempt, _calculate_single_fit.
  destruct (arg_t a) as [|t0 t']; [contradiction|].
  destruct (Qltb _ t0); [eexists; reflexivity|].
  unfold SignalProcessor.calculate_sliding_window_correlations.
  destruct (count_true _ <? 60)%Z.
  - cbn [bind fst snd len length]. eexists. reflexivity.
  - assert (E : Qeq_bool (fst wh / 60 / 2) 0 = false).
    { apply Qeq_bool_false. intro E. apply Hw.
      assert (H : fst wh == fst wh / 60 / 2 * 120) by field.
      rewrite E in H. lra. }
    rewrite E. cbn [bind].
    destruct (len _ <? 5)%Z; eexists; reflexivity.
Qed.

Lemma combine_map_same {A B C : Type} (f : A -> B) (g : A -> C)
  (l : list A) :
  combine (map f l) (map g l) = map (fun x => (f x, g x)) l.
Proof.
  induction l as [|x l IH]; simpl; [reflexivity | rewrite IH; reflexivity].
Qed.

(** The two loops of [_process_time_point] collect the produced triples. *)
Lemma grid_loops_collect (a : Args) :
  arg_t a <> [] ->
  arg_cox_windows_min a = COX_WINDOWS_MIN ->
  for_each (window_loop a) (arg_cox_windows_min a) ([], [], [])
  = Ok (map candidate_of (produced a), map weight_of (produced a),
        map fit_of (produced a)).
Proof.
  intros Ht Hw.
  rewrite window_loop_extends; [reflexivity|].
  intros [w h] Hin. apply attempt_returns; [assumption|].
  apply in_prod_iff in Hin. destruct Hin as [Hin _].
  rewrite Hw in Hin. cbn [fst].
  unfold COX_WINDOWS_MIN in Hin. simpl in Hin.
  intuition (subst; discriminate).
Qed.

Lemma process_time_point_returns (a : Args) :
  arg_t a <> [] ->
  arg_cox_windows_min a = COX_WINDOWS_MIN ->
  exists r, _process_time_point a = Ok r.
Proof.
  intros Ht Hw. unfold _process_time_point.
  rewrite (grid_loops_collect a Ht Hw). cbn [bind].
  destruct (_ && _); eexists; reflexivity.
Qed.

Lemma process_time_point_key (a : Args) (r : nat * fl * list Fit) :
  _process_time_point a = Ok r -> fst (fst r) = arg_k a.
Proof.
  unfold _process_time_point.
  destruct (for_each _ _ _) as [[[ms ws] fs]|e]; cbn [bind];
    [|discriminate].
  destruct (_ && _); intro H; injection H as <-; reflexivity.
Qed.

Lemma len_cons_pos {A B : Type} (f : A -> B) (x : A) (l : list A) :
  (len (map f (x :: l)) =? 0)%Z = false
  /\ (0 <? len (map f (x :: l)))%Z = true.
Proof.
  unfold len. cbn [map length]. split.
  - apply Z.eqb_neq. lia.
  - apply Z.ltb_lt. lia.
Qed.

(** C3.  On a signal that is not empty and with the 72 combinations of
    [config.py], [_process_time_point] returns, if at least one combination
    produced a (candidate, weight) pair, the sum of candidate times weight
    over all produced pairs divided by the sum of their weights, with the
    diagnostics of these pairs; and if none did, [nan] with an empty list of
    diagnostics. *)
Theorem process_time_point_weighted_mean (a : Args) :
  arg_t a <> [] ->
  arg_cox_windows_min a = COX_WINDOWS_MIN ->
  arg_history_windows_hr a = HISTORY_WINDOWS_HR ->
  length (grid a) = 72%nat
  /\ (produced a <> [] ->
      _process_time_point a
      = Ok (arg_k a,
            fdiv (fl_sum (map (fun x => fmul (candidate_of x) (weight_of x))
                              (produced a)))
                 (fl_sum (map weight_of (produced a))),
            map fit_of (produced a)))
  /\ (produced a = [] -> _process_time_point a = Ok (arg_k a, NaN, [])).
Proof.
  intros Ht Hw Hh.
  assert (Hgrid : length (grid a) = 72%nat).
  { unfold grid. rewrite Hw, Hh. reflexivity. }
  pose proof (grid_loops_collect a Ht Hw) as Hrun.
  split; [exact Hgrid|].
  unfold _process_time_point. rewrite Hrun. cbn [bind].
  split; intro Hp.
  - destruct (produced a) as [|x l] eqn:E; [contradiction|].
    rewrite (proj1 (len_cons_pos candidate_of x l)).
    rewrite (proj2 (len_cons_pos weight_of x l)).
    cbn [negb andb]. unfold weighted_mean.
    rewrite combine_map_same, map_map. reflexivity.
  - rewrite Hp. reflexivity.
Qed.

End GridSearch.

Lemma process_time_point_weighted_mean_witness :
  (@produced rational_libm example_args <> []
   /\ MAPoptCalculator._process_time_point example_args
      = Ok (MAPoptCalculator.arg_k example_args,
            fdiv (fl_sum (map (fun x => fmul (candidate_of x) (weight_of x))
                              (produced example_args)))
                 (fl_sum (map weight_of (produced example_args))),
            map fit_of (produced example_args)))
  /\ (@produced rational_libm example_args_start = []
      /\ MAPoptCalculator._process_time_point example_args_start
         = Ok (MAPoptCalculator.arg_k example_args_start, NaN, [])).
Proof.
  assert (Ht : example_t <> []) by (vm_compute; discriminate).
  split.
  - assert (H : @produced rational_libm example_args <> [])
      by (vm_compute; discriminate).
    split; [exact H|].
    exact (proj1 (proj2 (process_time_point_weighted_mean example_args
                           Ht eq_refl eq_refl)) H).
  - assert (H : @produced rational_libm example_args_start = [])
      by (vm_compute; reflexivity).
    split; [exact H|].
    exact (proj2 (proj2 (process_time_point_weighted_mean
                           example_args_start Ht eq_refl eq_refl)) H).
Defined.

(** ** The scheduler *)

Section SchedulerFacts.

Import Config MAPoptCalculator.

Variable worker : Args -> result (nat * fl * list Fit).

(** The worker answers in the slot of its argument. *)
Hypothesis worker_key :
  forall a r, worker a = Ok r -> fst (fst r) = arg_k a.

Lemma list_set_app {A : Type} (done : list A) (v x : A) (rest : list A) :
  list_set (length done) v (done ++ x :: rest) = done ++ v :: rest.
Proof.
  induction done as [|d done IH]; simpl; [reflexivity|].
  rewrite IH. reflexivity.
Qed.

Lemma map_result_app {A B : Type} (f : A -> result B) (l1 l2 : list A) :
  map_result f (l1 ++ l2)
  = (rs1 <- map_result f l1 ;; rs2 <- map_result f l2 ;; Ok (rs1 ++ rs2)).
Proof.
  induction l1 as [|x l1 IH]; simpl.
  - destruct (map_result f l2); reflexivity.
  - destruct (f x) as [y|e]; simpl; [|reflexivity].
    rewrite IH. destruct (map_result f l1) as [ys|e]; simpl; [|reflexivity].
    destruct (map_result f l2); reflexivity.
Qed.

Lemma map_result_length {A B : Type} (f : A -> result B) (l : list A) :
  forall rs, map_result f l = Ok rs -> length rs = length l.
Proof.
  induction l as [|x l IH]; simpl; intros rs H.
  - injection H as <-. reflexivity.
  - destruct (f x) as [y|e]; simpl in H; [|discriminate].
    destruct (map_result f l) as [ys|e]; simpl in H; [|discriminate].
    injection H as <-. simpl. rewrite (IH ys eq_refl). reflexivity.
Qed.

Lemma map_result_keys (l : list Args) :
  forall rs, map_result worker l = Ok rs ->
             map (fun r => fst (fst r)) rs = map arg_k l.
Proof.
  induction l as [|a l IH]; simpl; intros rs H.
  - injection H as <-. reflexivity.
  - destruct (worker a) as [y|e] eqn:E; simpl in H; [|discriminate].
    destruct (map_result worker l) as [ys|e]; simpl in H; [|discriminate].
    injection H as <-. simpl.
    rewrite (worker_key _ _ E), (IH ys eq_refl). reflexivity.
Qed.

(** Storing results with consecutive keys fills consecutive slots. *)
Lemma store_all_prefix (rs : list (nat * fl * list Fit)) :
  forall dv df rv1 rf1 rv2 rf2,
    length dv = length df ->
    length rv1 = length rs -> length rf1 = length rs ->
    map (fun r => fst (fst r)) rs = seq (length dv) (length rs) ->
    store_all (dv ++ rv1 ++ rv2, df ++ rf1 ++ rf2) rs
    = ((dv ++ map value_of rs ++ rv2, df ++ map fits_of rs ++ rf2), None).
Proof.
  induction rs as [|[[k v] f] rs IH]; intros dv df rv1 rf1 rv2 rf2 Hd Hv Hf Hk.
  - destruct rv1; [|discriminate]. destruct rf1; [|discriminate].
    reflexivity.
  - destruct rv1 as [|x rv1]; [discriminate|].
    destruct rf1 as [|y rf1]; [discriminate|].
    simpl in Hk. injection Hk as Hk0 Hk.
    cbn [store_all store fst snd]. subst k.
    replace (length dv <? length (dv ++ (x :: rv1) ++ rv2))%nat with true
      by (symmetry; apply Nat.ltb_lt; rewrite length_app; simpl; lia).
    replace (length dv <? length (df ++ (y :: rf1) ++ rf2))%nat with true
      by (symmetry; apply Nat.ltb_lt; rewrite length_app; simpl; lia).
    cbn [andb]. cbn [app].
    rewrite list_set_app. rewrite Hd. rewrite list_set_app.
    specialize (IH (dv ++ [v]) (df ++ [f]) rv1 rf1 rv2 rf2).
    rewrite <- !app_assoc in IH. cbn [app] in IH.
    rewrite IH.
    + reflexivity.
    + rewrite !length_app. simpl. lia.
    + simpl in Hv. lia.
    + simpl in Hf. lia.
    + rewrite length_app. simpl. rewrite Nat.add_1_r. exact Hk.
Qed.

(** The sequential loop over arguments with consecutive keys does the
    same, or stops at the first worker that raises. *)
Lemma fallback_prefix (args : list Args) :
  forall dv df rv1 rf1 rv2 rf2,
    length dv = length df ->
    length rv1 = length args -> length rf1 = length args ->
    map arg_k args = seq (length dv) (length args) ->
    fallback worker args (dv ++ rv1 ++ rv2, df ++ rf1 ++ rf2)
    = match map_result worker args with
      | Ok rs => Ok (dv ++ map value_of rs ++ rv2,
                     df ++ map fits_of rs ++ rf2)
      | Raise e => Raise e
      end.
Proof.
  induction args as [|a args IH];
    intros dv df rv1 rf1 rv2 rf2 Hd Hv Hf Hk.
  - destruct rv1; [|discriminate]. destruct rf1; [|discriminate].
    reflexivity.
  - destruct rv1 as [|x rv1]; [discriminate|].
    destruct rf1 as [|y rf1]; [discriminate|].
    simpl in Hk. injection Hk as Hk0 Hk.
    unfold fallback. cbn [for_each map_result].
    destruct (worker a) as [[[k v] f]|e] eqn:E; cbn [bind]; [|reflexivity].
    pose proof (worker_key _ _ E) as Hkey. cbn [fst] in Hkey.
    rewrite Hk0 in Hkey. subst k.
    cbn [store fst snd].
    replace (length dv <? length (dv ++ (x :: rv1) ++ rv2))%nat with true
      by (symmetry; apply Nat.ltb_lt; rewrite length_app; simpl; lia).
    replace (length dv <? length (df ++ (y :: rf1) ++ rf2))%nat with true
      by (symmetry; apply Nat.ltb_lt; rewrite length_app; simpl; lia).
    cbn [andb bind app].
    rewrite list_set_app. rewrite Hd. rewrite list_set_app.
    specialize (IH (dv ++ [v]) (df ++ [f]) rv1 rf1 rv2 rf2).
    rewrite <- !app_assoc in IH. cbn [app] in IH.
    unfold fallback in IH. rewrite IH.
    + destruct (map_result worker args) as [rs|e]; cbn [bind]; [|reflexivity].
      rewrite <- !app_assoc. reflexivity.
    + rewrite !length_app. simpl. lia.
    + simpl in Hv. lia.
    + simpl in Hf. lia.
    + rewrite length_app. simpl. rewrite Nat.add_1_r. exact Hk.
Qed.

End SchedulerFacts.

Lemma firstn_seq (k : nat) :
  forall start len, firstn k (seq start len) = seq start (Nat.min k len).
Proof.
  induction k as [|k IH]; intros start [|len]; simpl; try reflexivity.
  rewrite IH. reflexivity.
Qed.

Lemma firstn_plus {A : Type} (j k : nat) :
  forall l : list A, firstn (j + k) l = firstn j l ++ firstn k (skipn j l).
Proof.
  induction j as [|j IH]; intros [|x l]; simpl;
    try reflexivity.
  - rewrite firstn_nil. reflexivity.
  - rewrite IH. reflexivity.
Qed.

Section ChunkFacts.

Import Config MAPoptCalculator.

Variable worker : Args -> result (nat * fl * list Fit).

Hypothesis worker_key :
  forall a r, worker a = Ok r -> fst (fst r) = arg_k a.

Variable args : list Args.

Hypothesis args_keys : map arg_k args = seq 0 (length args).

Lemma slice_keys (j j' : nat) :
  (j <= j' <= length args)%nat ->
  map arg_k (slice args j j') = seq j (j' - j).
Proof.
  intro H. unfold slice.
  rewrite <- firstn_map, <- skipn_map, args_keys.
  rewrite skipn_seq, firstn_seq. f_equal; lia.
Qed.

Lemma firstn_slice (j j' : nat) :
  (j <= j')%nat -> firstn j' args = firstn j args ++ slice args j j'.
Proof.
  intro H. unfold slice.
  replace j' with (j + (j' - j))%nat at 1 by lia.
  apply firstn_plus.
Qed.

Lemma slice_length (j j' : nat) :
  (j <= j' <= length args)%nat -> length (slice args j j') = (j' - j)%nat.
Proof.
  intro H. unfold slice. rewrite length_firstn, length_skipn. lia.
Qed.

Lemma filled_lengths (j : nat) (st : Slots) :
  (j <= length args)%nat -> filled worker args j st ->
  length (fst st) = length args /\ length (snd st) = length args.
Proof.
  intros Hj (rs & rv & rf & Hrs & -> & Hv & Hf).
  apply map_result_length in Hrs. rewrite length_firstn in Hrs.
  cbn [fst snd]. rewrite !length_app, !length_map. lia.
Qed.

Lemma fallback_any (st : Slots) :
  length (fst st) = length args -> length (snd st) = length args ->
  fallback worker args st = sequential_results worker args.
Proof.
  destruct st as [sv sf]. cbn [fst snd]. intros Hv Hf.
  pose proof (fallback_prefix worker worker_key args [] [] sv sf [] []
                eq_refl Hv Hf args_keys) as H.
  cbn [app] in H. rewrite !app_nil_r in H. rewrite H.
  unfold sequential_results.
  destruct (map_result worker args); [|reflexivity].
  rewrite !app_nil_r. reflexivity.
Qed.

Lemma filled_all (st : Slots) :
  filled worker args (length args) st ->
  sequential_results worker args = Ok st.
Proof.
  intros (rs & rv & rf & Hrs & -> & Hv & Hf).
  rewrite firstn_all in Hrs. unfold sequential_results. rewrite Hrs.
  rewrite Nat.sub_diag in Hv, Hf.
  destruct rv; [|discriminate]. destruct rf; [|discriminate].
  rewrite !app_nil_r. reflexivity.
Qed.

(** A chunk computed in sequence extends the filled prefix, or raises
    what the whole run raises. *)
Lemma fallback_slice (j j' : nat) (st : Slots) :
  (j <= j' <= length args)%nat -> filled worker args j st ->
  match fallback worker (slice args j j') st with
  | Ok st' => filled worker args j' st'
  | Raise e => sequential_results worker args = Raise e
  end.
Proof.
  intros Hj (rs & rv & rf & Hrs & -> & Hv & Hf).
  pose proof (map_result_length _ _ _ Hrs) as Hlen.
  rewrite length_firstn in Hlen.
  rewrite <- (firstn_skipn (j' - j) rv), <- (firstn_skipn (j' - j) rf).
  rewrite (fallback_prefix worker worker_key).
  - destruct (map_result worker (slice args j j')) as [rs'|e] eqn:E.
    + exists (rs ++ rs'), (skipn (j' - j) rv), (skipn (j' - j) rf).
      split; [|split; [|split]].
      * rewrite (firstn_slice j j') by lia.
        rewrite map_result_app, Hrs, E. reflexivity.
      * rewrite !map_app, <- !app_assoc. reflexivity.
      * rewrite length_skipn. lia.
      * rewrite length_skipn. lia.
    + unfold sequential_results.
      rewrite <- (firstn_skipn j' args), map_result_app.
      rewrite (firstn_slice j j') by lia.
      rewrite map_result_app, Hrs, E. reflexivity.
  - rewrite !length_map. reflexivity.
  - rewrite length_firstn, slice_length by lia. lia.
  - rewrite length_firstn, slice_length by lia. lia.
  - rewrite length_map, Hlen, slice_length by lia.
    rewrite Nat.min_l by lia. apply slice_keys. lia.
Qed.

Lemma slice_to_end (j : nat) :
  slice args j (length args) = skipn j args.
Proof.
  unfold slice. apply firstn_all2. rewrite length_skipn. lia.
Qed.

Lemma fallback_rest (j : nat) (st : Slots) :
  (j <= length args)%nat -> filled worker args j st ->
  fallback worker (skipn j args) st = sequential_results worker args.
Proof.
  intros Hj Hfill. rewrite <- slice_to_end.
  pose proof (fallback_slice j (length args) st (conj Hj (le_n _)) Hfill)
    as H.
  destruct (fallback worker (slice args j (length args)) st) as [st'|e].
  - symmetry. apply filled_all. exact H.
  - symmetry. exact H.
Qed.

(** The results of a chunk stored by the pool extend the filled prefix. *)
Lemma store_chunk (j j' : nat) (st : Slots)
  (results : list (nat * fl * list Fit)) :
  (j <= j' <= length args)%nat -> filled worker args j st ->
  map_result worker (slice args j j') = Ok results ->
  exists st', store_all st results = (st', None)
              /\ filled worker args j' st'.
Proof.
  intros Hj (rs & rv & rf & Hrs & -> & Hv & Hf) E.
  pose proof (map_result_length _ _ _ Hrs) as Hlen.
  rewrite length_firstn in Hlen.
  pose proof (map_result_length _ _ _ E) as Hlen'.
  rewrite slice_length in Hlen' by lia.
  rewrite <- (firstn_skipn (j' - j) rv), <- (firstn_skipn (j' - j) rf).
  rewrite store_all_prefix.
  - eexists. split; [reflexivity|].
    exists (rs ++ results), (skipn (j' - j) rv), (skipn (j' - j) rf).
    split; [|split; [|split]].
    + rewrite (firstn_slice j j') by lia.
      rewrite map_result_app, Hrs, E. reflexivity.
    + rewrite !map_app, <- !app_assoc. reflexivity.
    + rewrite length_skipn. lia.
    + rewrite length_skipn. lia.
  - rewrite !length_map. reflexivity.
  - rewrite length_firstn. lia.
  - rewrite length_firstn. lia.
  - rewrite (map_result_keys worker worker_key _ _ E).
    rewrite length_map, Hlen, Hlen'.
    rewrite Nat.min_l by lia. apply slice_keys. lia.
Qed.

Lemma pool_map_ok (p : pool_behaviour) (c : nat) (chunk : list Args)
  (results : list (nat * fl * list Fit)) :
  pool_map worker p c chunk = Ok results ->
  map_result worker chunk = Ok results.
Proof.
  unfold pool_map. destruct p as [| |c']; try (intro H; exact H).
  destruct (c' =? c)%nat; [discriminate | intro H; exact H].
Qed.

Lemma chunk_loop_filled (p : pool_behaviour) (m : nat) :
  forall c0 st,
    filled worker args (Nat.min (c0 * CHUNK_SIZE) (length args)) st ->
    match chunk_loop worker p args (seq c0 m) st with
    | (st', None) =>
        filled worker args
          (Nat.min ((c0 + m) * CHUNK_SIZE) (length args)) st'
    | (st', Some _) =>
        length (fst st') = length args /\ length (snd st') = length args
    end.
Proof.
  induction m as [|m IH]; intros c0 st Hf.
  - cbn [seq chunk_loop]. rewrite Nat.add_0_r. exact Hf.
  - cbn [seq chunk_loop].
    destruct (length args <=? c0 * CHUNK_SIZE)%nat eqn:E.
    + apply Nat.leb_le in E. unfold CHUNK_SIZE in *.
      rewrite Nat.min_r in Hf by lia. rewrite Nat.min_r by lia. exact Hf.
    + apply Nat.leb_gt in E.
      rewrite Nat.min_l in Hf by lia.
      set (j' := Nat.min ((c0 + 1) * CHUNK_SIZE) (length args)).
      assert (Hj : (c0 * CHUNK_SIZE <= j' <= length args)%nat)
        by (subst j'; unfold CHUNK_SIZE in *; lia).
      destruct (pool_map worker p c0 (slice args (c0 * CHUNK_SIZE) j'))
        as [results|e] eqn:Ep.
      * apply pool_map_ok in Ep.
        destruct (store_chunk _ _ _ _ Hj Hf Ep) as (st' & Hs & Hf').
        rewrite Hs.
        specialize (IH (S c0) st').
        replace (c0 + S m)%nat with (S c0 + m)%nat by lia.
        apply IH.
        replace (S c0) with (c0 + 1)%nat by lia. exact Hf'.
      * apply (filled_lengths (c0 * CHUNK_SIZE)); [lia | exact Hf].
Qed.

Lemma initial_slots_filled (n : nat) :
  n = length args ->
  filled worker args 0 (repeat NaN n, repeat [] n).
Proof.
  intros ->. exists [], (repeat NaN (length args)), (repeat [] (length args)).
  rewrite !repeat_length, Nat.sub_0_r. repeat split; reflexivity.
Qed.

Lemma chunks_cover :
  (length args <= (0 + (length args / CHUNK_SIZE + 1)) * CHUNK_SIZE)%nat.
Proof.
  unfold CHUNK_SIZE.
  pose proof (Nat.div_mod (length args) 25 ltac:(discriminate)) as H.
  pose proof (Nat.mod_upper_bound (length args) 25 ltac:(discriminate)).
  lia.
Qed.

(** Whatever the pool does, the scheduler ends with the results of the
    worker in every slot, or with the exception of a worker. *)
Lemma process_with_results (p : pool_behaviour) (time_vector : list Q) :
  length time_vector = length args ->
  process_with worker p time_vector args = sequential_results worker args.
Proof.
  intro Hn. unfold process_with, try_pool.
  pose proof (initial_slots_filled (length time_vector) Hn) as H0.
  assert (Hloop :
    match chunk_loop worker p args
            (seq 0 (length args / CHUNK_SIZE + 1))
            (repeat NaN (length time_vector), repeat [] (length time_vector))
    with
    | (st, None) => Ok st
    | (st, Some _) => fallback worker args st
    end = sequential_results worker args).
  { pose proof (chunk_loop_filled p (length args / CHUNK_SIZE + 1) 0 _ H0)
      as H.
    destruct (chunk_loop worker p args _ _) as [st [e|]].
    - apply fallback_any; apply H.
    - rewrite Nat.min_r in H by apply chunks_cover.
      symmetry. apply filled_all. exact H. }
  destruct p; try exact Hloop.
  apply fallback_any; cbn [fst snd]; rewrite repeat_length; exact Hn.
Qed.

Lemma chunk_loop_remaining_results (p : pool_behaviour) (m : nat) :
  forall c0 st,
    filled worker args (Nat.min (c0 * CHUNK_SIZE) (length args)) st ->
    (length args <= (c0 + m) * CHUNK_SIZE)%nat ->
    chunk_loop_remaining worker p args (seq c0 m) st
    = sequential_results worker args.
Proof.
  induction m as [|m IH]; intros c0 st Hf Hc.
  - cbn [seq chunk_loop_remaining]. rewrite Nat.add_0_r in Hc.
    rewrite Nat.min_r in Hf by exact Hc.
    symmetry. apply filled_all. exact Hf.
  - cbn [seq chunk_loop_remaining].
    destruct (length args <=? c0 * CHUNK_SIZE)%nat eqn:E.
    + apply Nat.leb_le in E. rewrite Nat.min_r in Hf by exact E.
      symmetry. apply filled_all. exact Hf.
    + apply Nat.leb_gt in E.
      rewrite Nat.min_l in Hf by lia.
      set (j' := Nat.min ((c0 + 1) * CHUNK_SIZE) (length args)).
      assert (Hj : (c0 * CHUNK_SIZE <= j' <= length args)%nat)
        by (subst j'; unfold CHUNK_SIZE in *; lia).
      assert (Hstep :
        (st' <- fallback worker (slice args (c0 * CHUNK_SIZE) j') st ;;
         chunk_loop_remaining worker p args (seq (S c0) m) st')
        = sequential_results worker args).
      { pose proof (fallback_slice _ _ _ Hj Hf) as H.
        destruct (fallback worker (slice args (c0 * CHUNK_SIZE) j') st)
          as [st'|e]; cbn [bind].
        - apply IH.
          + replace (S c0) with (c0 + 1)%nat by lia. exact H.
          + lia.
        - symmetry. exact H. }
      destruct p as [| |c]; try exact Hstep.
      destruct (c =? c0)%nat; [|exact Hstep].
      apply fallback_rest; [lia | exact Hf].
Qed.

Lemma process_remaining_results (p : pool_behaviour)
  (time_vector : list Q) :
  length time_vector = length args ->
  process_remaining_spec worker p time_vector args
  = sequential_results worker args.
Proof.
  intro Hn. unfold process_remaining_spec.
  pose proof (initial_slots_filled (length time_vector) Hn) as H0.
  pose proof (chunk_loop_remaining_results p
                (length args / CHUNK_SIZE + 1) 0 _ H0 chunks_cover) as H.
  destruct p; try exact H.
  apply fallback_any; cbn [fst snd]; rewrite repeat_length; exact Hn.
Qed.

End ChunkFacts.

Section ParallelScheduler.

Import Config MAPoptCalculator.

Context {L : Libm}.

Lemma prepare_from_length (k0 : nat) (tv t : list Q) (MAP rSO2 : list fl) :
  length (prepare_from k0 tv t MAP rSO2) = length tv.
Proof.
  unfold prepare_from. rewrite length_map, length_combine, length_seq.
  apply Nat.min_id.
Qed.

Lemma prepare_from_keys (tv t : list Q) (MAP rSO2 : list fl) :
  forall k0,
    map arg_k (prepare_from k0 tv t MAP rSO2) = seq k0 (length tv).
Proof.
  unfold prepare_from.
  induction tv as [|x tv IH]; intro k0; [reflexivity|].
  cbn [length seq combine map arg_k fst]. f_equal. apply IH.
Qed.

Lemma prepare_from_fields (k0 : nat) (tv t : list Q) (MAP rSO2 : list fl)
  (a : Args) :
  In a (prepare_from k0 tv t MAP rSO2) ->
  arg_t a = t /\ arg_cox_windows_min a = COX_WINDOWS_MIN.
Proof.
  unfold prepare_from. intro H. apply in_map_iff in H.
  destruct H as (kt & <- & _). split; reflexivity.
Qed.

Lemma map_result_total {A B : Type} (f : A -> result B) (l : list A) :
  (forall x, In x l -> exists y, f x = Ok y) ->
  exists ys, map_result f l = Ok ys.
Proof.
  induction l as [|x l IH]; intro H.
  - exists []. reflexivity.
  - destruct (H x (or_introl eq_refl)) as [y Hy].
    destruct IH as [ys Hys]; [intros z Hz; apply H; right; exact Hz|].
    exists (y :: ys). cbn [map_result]. rewrite Hy, Hys. reflexivity.
Qed.

(** C9.  On a signal that is not empty the scheduler completes whatever the
    pool does - healthy, impossible to create, or failing at one of its
    dispatches: it returns, in every slot of the time grid, the value and
    the diagnostics that the worker computes for that evaluation time.  So
    the run after a failure of the pool ends with the slots of the run
    without failure, and with the slots of a run that keeps what the pool
    has stored and computes the remaining times in sequence. *)
Theorem pool_failure_falls_back (p : pool_behaviour)
  (time_vector t : list Q) (MAP rSO2 : list fl) :
  t <> [] ->
  exists rs,
    map_result _process_time_point
      (_prepare_processing_args time_vector t MAP rSO2) = Ok rs
    /\ length rs = length time_vector
    /\ _process_parallel p time_vector
         (_prepare_processing_args time_vector t MAP rSO2)
       = Ok (map value_of rs, map fits_of rs)
    /\ _process_parallel Healthy time_vector
         (_prepare_processing_args time_vector t MAP rSO2)
       = Ok (map value_of rs, map fits_of rs)
    /\ process_remaining_spec _process_time_point p time_vector
         (_prepare_processing_args time_vector t MAP rSO2)
       = Ok (map value_of rs, map fits_of rs).
Proof.
  intro Ht.
  set (args := _prepare_processing_args time_vector t MAP rSO2).
  assert (Hlen : length time_vector = length args)
    by (symmetry; apply prepare_from_length).
  assert (Hkeys : map arg_k args = seq 0 (length args)).
  { rewrite <- Hlen. apply prepare_from_keys. }
  destruct (map_result_total _process_time_point args) as [rs Hrs].
  { intros a Ha. apply prepare_from_fields in Ha. destruct Ha as [Ha Hw].
    apply process_time_point_returns; [rewrite Ha; exact Ht | exact Hw]. }
  assert (Hseq : sequential_results _process_time_point args
                 = Ok (map value_of rs, map fits_of rs)).
  { unfold sequential_results. rewrite Hrs. reflexivity. }
  exists rs. split; [exact Hrs|]. split.
  - rewrite (map_result_length _ _ _ Hrs). symmetry. exact Hlen.
  - unfold _process_parallel.
    rewrite !(process_with_results _ process_time_point_key args Hkeys)
      by exact Hlen.
    rewrite (process_remaining_results _ process_time_point_key args Hkeys)
      by exact Hlen.
    repeat split; exact Hseq.
Qed.

End ParallelScheduler.

Lemma pool_failure_falls_back_witness :
  exists rs,
    MAPoptCalculator.map_result
      (@MAPoptCalculator._process_time_point rational_libm)
      example_args_list = Ok rs
    /\ length rs = length (firstn 61 example_t)
    /\ MAPoptCalculator._process_parallel
         (MAPoptCalculator.FailsAtDispatch 1) (firstn 61 example_t)
         example_args_list
       = Ok (map value_of rs, map fits_of rs)
    /\ MAPoptCalculator._process_parallel MAPoptCalculator.Healthy
         (firstn 61 example_t) example_args_list
       = Ok (map value_of rs, map fits_of rs)
    /\ MAPoptCalculator.process_remaining_spec
         MAPoptCalculator._process_time_point
         (MAPoptCalculator.FailsAtDispatch 1) (firstn 61 example_t)
         example_args_list
       = Ok (map value_of rs, map fits_of rs).
Proof.
  assert (Ht : example_t <> []) by (vm_compute; discriminate).
  exact (pool_failure_falls_back (MAPoptCalculator.FailsAtDispatch 1)
           (firstn 61 example_t) example_t example_MAP example_rSO2 Ht).
Defined.


(** ** The correlation engine *)






Lemma products_zero_l (l1 l2 : list Q) :
  Forall (fun d => d == 0) l1 ->
  Forall (fun d => d == 0) (map (fun p => fst p * snd p) (combine l1 l2)).
Proof.
  intro H. revert l2.
  induction H as [|d l1 Hd _ IH]; intros [|e l2]; cbn [combine map];
    constructor.
  - cbv beta in Hd. cbn [fst snd]. rewrite Hd. ring.
  - apply IH.
Qed.

Lemma products_zero_r (l1 l2 : list Q) :
  Forall (fun d => d == 0) l2 ->
  Forall (fun d => d == 0) (map (fun p => fst p * snd p) (combine l1 l2)).
Proof.
  intro H. revert l1.
  induction H as [|d l2 Hd _ IH]; intros [|e l1]; cbn [combine map];
    constructor.
  - cbv beta in Hd. cbn [fst snd]. rewrite Hd. ring.
  - apply IH.
Qed.


Lemma fdiv_NaN (b : fl) : fdiv NaN b = NaN.
Proof. reflexivity. Qed.


Section Correlation.

Import Config SignalProcessor.

Context {L : Libm}.

(** [np.sqrt] of zero is zero. *)
Hypothesis sqrt_zero : forall v, v == 0 -> np_sqrt v == 0.




End Correlation.

Section PairwiseExclusion.

Import Config SignalProcessor.

Context {L : Libm}.

Lemma count_true_cons (b : bool) (m : list bool) :
  count_true (b :: m) = ((if b then 1 else 0) + count_true m)%Z.
Proof.
  unfold count_true. destruct b; cbn [filter length]; lia.
Qed.

Lemma count_true_bounds (m : list bool) :
  (0 <= count_true m <= len m)%Z.
Proof.
  induction m as [|b m IH].
  - unfold count_true, len. simpl. lia.
  - rewrite count_true_cons. unfold len in *. cbn [length].
    destruct b; lia.
Qed.







End PairwiseExclusion.





Section Thresholds.

Import Config SignalProcessor MAPoptCalculator.

Context {L : Libm}.

Lemma count_true_map {A : Type} (f : A -> bool) (l : list A) :
  count_true (map f l) = Z.of_nat (length (filter f l)).
Proof.
  unfold count_true. f_equal.
  induction l as [|x l IH]; [reflexivity|].
  cbn [map filter]. destruct (f x); cbn [length]; rewrite IH; reflexivity.
Qed.

(** C7.  At an evaluation time and for a (window, history) combination the
    sliding-window collection yields no observation when fewer than 60
    samples lie in the lookback period; and when the collection yields fewer
    than 5 observations, [_calculate_single_fit] returns [None] without an
    error, so that the combination leaves the lists of the worker as they
    are. *)
Theorem lookback_and_observation_thresholds (a : Args) (win_hr hist_hr : Q) :
  ((length (filter (in_window (arg_t_now a - hist_hr) (arg_t_now a))
                   (arg_t a)) < 60)%nat ->
   calculate_sliding_window_correlations (arg_t a) (arg_MAP a) (arg_rSO2 a)
     win_hr hist_hr (arg_t_now a) = Ok ([], []))
  /\ (forall cox_vals map_vals,
        arg_t a <> [] ->
        calculate_sliding_window_correlations (arg_t a) (arg_MAP a)
          (arg_rSO2 a) win_hr hist_hr (arg_t_now a)
        = Ok (cox_vals, map_vals) ->
        (length map_vals < 5)%nat ->
        _calculate_single_fit (arg_t_now a) (arg_t a) (arg_MAP a)
          (arg_rSO2 a) win_hr hist_hr (arg_bins a) (arg_bin_centers a)
        = Ok None
        /\ forall acc, history_step a win_hr acc hist_hr = Ok acc).
Proof.
  split.
  - intro H. unfold calculate_sliding_window_correlations.
    rewrite count_true_map.
    replace (Z.of_nat _ <? 60)%Z with true
      by (symmetry; apply Z.ltb_lt; lia).
    reflexivity.
  - intros cox_vals map_vals Ht Hs Hm.
    assert (Hfit : _calculate_single_fit (arg_t_now a) (arg_t a) (arg_MAP a)
                     (arg_rSO2 a) win_hr hist_hr (arg_bins a)
                     (arg_bin_centers a) = Ok None).
    { unfold _calculate_single_fit.
      destruct (arg_t a) as [|t0 t'] eqn:Et; [contradiction|].
      destruct (Qltb _ t0); [reflexivity|].
      rewrite Hs. cbn [bind fst snd].
      replace (len map_vals <? 5)%Z with true
        by (symmetry; apply Z.ltb_lt; unfold len; lia).
      reflexivity. }
    split; [exact Hfit|].
    intro acc. unfold history_step. rewrite Hfit. reflexivity.
Qed.

End Thresholds.

Lemma lookback_and_observation_thresholds_witness :
  @SignalProcessor.calculate_sliding_window_correlations rational_libm
    example_t example_MAP example_rSO2 (1 # 6) (1 # 2) 1 = Ok ([], [])
  /\ (@MAPoptCalculator._calculate_single_fit rational_libm 1 example_t
        example_MAP example_rSO2 (1 # 2) 1 Config.MAP_BINS
        Config.MAP_BIN_CENTERS = Ok None
      /\ forall acc,
           @MAPoptCalculator.history_step rational_libm example_args (1 # 2)
             acc 1 = Ok acc).
Proof.
  split.
  - apply (proj1 (@lookback_and_observation_thresholds rational_libm
                    example_args (1 # 6) (1 # 2))).
    vm_compute. lia.
  - assert (Ht : example_t <> []) by (vm_compute; discriminate).
    assert (Hs : { cm | @SignalProcessor.calculate_sliding_window_correlations
                          rational_libm example_t example_MAP example_rSO2
                          (1 # 2) 1 1 = Ok cm
                        /\ (length (snd cm) < 5)%nat }).
    { eexists. split; [vm_compute; reflexivity | vm_compute; lia]. }
    destruct Hs as [[cox_vals map_vals] [Hs Hm]].
    exact (proj2 (@lookback_and_observation_thresholds rational_libm
                    example_args (1 # 2) 1) cox_vals map_vals Ht Hs Hm).
Defined.


(** ** The curve fit *)

Lemma np_minimum_cases (a b : Q) :
  (np_minimum a b = a \/ np_minimum a b = b)
  /\ np_minimum a b <= a /\ np_minimum a b <= b.
Proof.
  unfold np_minimum. destruct (Qle_bool a b) eqn:E.
  - apply Qle_bool_iff in E. repeat split; try lra. left. reflexivity.
  - apply Qle_bool_false in E. repeat split; try lra. right. reflexivity.
Qed.

Lemma np_maximum_cases (a b : Q) :
  (np_maximum a b = a \/ np_maximum a b = b)
  /\ a <= np_maximum a b /\ b <= np_maximum a b.
Proof.
  unfold np_maximum. destruct (Qle_bool a b) eqn:E.
  - apply Qle_bool_iff in E. repeat split; try lra. right. reflexivity.
  - apply Qle_bool_false in E. repeat split; try lra. left. reflexivity.
Qed.

Lemma fold_minimum_spec (l : list Q) :
  forall a,
    (fold_left np_minimum l a = a \/ In (fold_left np_minimum l a) l)
    /\ fold_left np_minimum l a <= a
    /\ (forall c, In c l -> fold_left np_minimum l a <= c).
Proof.
  induction l as [|x l IH]; intro a; cbn [fold_left].
  - repeat split; [left; reflexivity | lra | intros c []].
  - destruct (IH (np_minimum a x)) as (H1 & H2 & H3).
    destruct (np_minimum_cases a x) as (Hc & Ha & Hx).
    repeat split.
    + destruct H1 as [H1|H1].
      * rewrite H1. destruct Hc as [Hc|Hc]; rewrite Hc;
          [left; reflexivity | right; left; reflexivity].
      * right. right. exact H1.
    + lra.
    + intros c [<-|Hin]; [lra | apply H3; exact Hin].
Qed.

Lemma fold_maximum_spec (l : list Q) :
  forall a,
    (fold_left np_maximum l a = a \/ In (fold_left np_maximum l a) l)
    /\ a <= fold_left np_maximum l a
    /\ (forall c, In c l -> c <= fold_left np_maximum l a).
Proof.
  induction l as [|x l IH]; intro a; cbn [fold_left].
  - repeat split; [left; reflexivity | lra | intros c []].
  - destruct (IH (np_maximum a x)) as (H1 & H2 & H3).
    destruct (np_maximum_cases a x) as (Hc & Ha & Hx).
    repeat split.
    + destruct H1 as [H1|H1].
      * rewrite H1. destruct Hc as [Hc|Hc]; rewrite Hc;
          [left; reflexivity | right; left; reflexivity].
      * right. right. exact H1.
    + lra.
    + intros c [<-|Hin]; [lra | apply H3; exact Hin].
Qed.

(** [np.min] and [np.max] of an array that is not empty are entries of it
    and bound it. *)
Lemma np_min_max_spec (l : list Q) :
  l <> [] ->
  In (np_min l) l /\ In (np_max l) l
  /\ (forall c, In c l -> np_min l <= c <= np_max l).
Proof.
  destruct l as [|x l]; [contradiction|]. intros _. unfold np_min, np_max.
  destruct (fold_minimum_spec l x) as (M1 & M2 & M3).
  destruct (fold_maximum_spec l x) as (X1 & X2 & X3).
  repeat split.
  - destruct M1 as [M1|M1]; [left; symmetry; exact M1 | right; exact M1].
  - destruct X1 as [X1|X1]; [left; symmetry; exact X1 | right; exact X1].
  - destruct H as [<-|H]; [exact M2 | apply M3; exact H].
  - destruct H as [<-|H]; [exact X2 | apply X3; exact H].
Qed.

Lemma np_min_le_max (l : list Q) : np_min l <= np_max l.
Proof.
  destruct l as [|x l]; [simpl; lra|].
  destruct (np_min_max_spec (x :: l) ltac:(discriminate)) as (_ & _ & H).
  pose proof (H x (or_introl eq_refl)). lra.
Qed.

Lemma polyfit_needs_points (ys : list Q) : np_polyfit [] ys 2 = None.
Proof. reflexivity. Qed.

Section CurveFit.

Import Config SignalProcessor MAPoptCalculator.

Context {L : Libm}.

(** What [fit_valid_bins] returns is a clamped vertex that passed the test
    of the physiological band, with a weight above the threshold. *)
Lemma fit_valid_bins_accepts (win_hr hist_hr : Q) (bin_centers : list Q)
  (binned_cox binned_cox_fisher : list fl)
  (mapopt weight : fl) (fd : Fit) :
  fit_valid_bins win_hr hist_hr bin_centers binned_cox binned_cox_fisher
  = Some (mapopt, weight, fd) ->
  fit_bin_centers fd
  = mask_select (map np_isfinite binned_cox_fisher) bin_centers
  /\ fit_bin_centers fd <> []
  /\ mapopt = Num (fit_mapopt fd)
  /\ weight = fit_weight fd
  /\ (exists w, weight = Num w /\ 1 # 1000000 < w)
  /\ MAP_OPT_MIN <= fit_mapopt fd <= MAP_OPT_MAX
  /\ np_min (fit_bin_centers fd) <= fit_mapopt fd
     <= np_max (fit_bin_centers fd).
Proof.
  unfold fit_valid_bins. cbv zeta.
  set (xs := mask_select (map np_isfinite binned_cox_fisher) bin_centers).
  destruct (3 <=? _)%Z; [|discriminate].
  destruct (np_polyfit xs _ 2) as [coeffs|] eqn:Ep; [|discriminate].
  destruct (Qltb 0 _); [|discriminate].
  destruct (Qle_bool MAP_OPT_MIN _ && Qle_bool _ MAP_OPT_MAX) eqn:Eb;
    [|discriminate].
  destruct (fgt _ _) eqn:Ew; [|discriminate].
  intro H. injection H as <- <- <-. cbn [fit_bin_centers fit_mapopt fit_weight].
  apply andb_true_iff in Eb. destruct Eb as [Eb1 Eb2].
  apply Qle_bool_iff in Eb1, Eb2.
  repeat split; try assumption.
  - intro E. rewrite E in Ep. rewrite polyfit_needs_points in Ep.
    discriminate.
  - unfold fgt, flt in Ew.
    destruct (_calculate_weight _ _) as [|w]; [discriminate|].
    exists w. split; [reflexivity|]. apply Qltb_lt. exact Ew.
  - apply Qclip_bounds. apply np_min_le_max.
  - apply Qclip_bounds. apply np_min_le_max.
Qed.

(** C4.  A fit that [_calculate_single_fit] returns has a weight above
    [1e-6], hence positive, and a candidate within [40, 90] mmHg that lies
    between the smallest and the largest of the bin centers that took part
    in the quadratic fit. *)
Theorem accepted_fit_within_bounds (t_now : Q) (t : list Q)
  (MAP rSO2 : list fl) (win_hr hist_hr : Q) (bins bin_centers : list Q)
  (mapopt weight : fl) (fd : Fit) :
  _calculate_single_fit t_now t MAP rSO2 win_hr hist_hr bins bin_centers
  = Ok (Some (mapopt, weight, fd)) ->
  exists m w lo hi,
    mapopt = Num m /\ weight = Num w /\ 0 < w
    /\ 40 <= m <= 90
    /\ In lo (fit_bin_centers fd) /\ In hi (fit_bin_centers fd)
    /\ (forall c, In c (fit_bin_centers fd) -> lo <= c <= hi)
    /\ lo <= m <= hi.
Proof.
  unfold _calculate_single_fit.
  destruct t as [|t0 t']; [discriminate|].
  destruct (Qltb _ t0); [discriminate|].
  destruct (calculate_sliding_window_correlations _ _ _ _ _ _)
    as [[cox_vals map_vals]|e]; cbn [bind fst snd]; [|discriminate].
  destruct (len map_vals <? 5)%Z; [discriminate|].
  intro H. injection H as H.
  apply fit_valid_bins_accepts in H.
  destruct H as (_ & Hne & Hm & _ & (w & Hw & Hpos) & Hband & Hspan).
  destruct (np_min_max_spec _ Hne) as (Hlo & Hhi & Hall).
  exists (fit_mapopt fd), w, (np_min (fit_bin_centers fd)),
    (np_max (fit_bin_centers fd)).
  unfold MAP_OPT_MIN, MAP_OPT_MAX in Hband.
  repeat split; try assumption; try lra; apply Hall; assumption.
Qed.

End CurveFit.

Lemma accepted_fit_within_bounds_witness :
  exists mapopt weight fd,
    @MAPoptCalculator._calculate_single_fit rational_libm 1 example_t
      example_MAP example_rSO2 (1 # 6) 1 Config.MAP_BINS
      Config.MAP_BIN_CENTERS = Ok (Some (mapopt, weight, fd))
    /\ exists m w lo hi,
         mapopt = Num m /\ weight = Num w /\ 0 < w
         /\ 40 <= m <= 90
         /\ In lo (MAPoptCalculator.fit_bin_centers fd)
         /\ In hi (MAPoptCalculator.fit_bin_centers fd)
         /\ (forall c, In c (MAPoptCalculator.fit_bin_centers fd) ->
                       lo <= c <= hi)
         /\ lo <= m <= hi.
Proof.
  assert (Hs : { r | @MAPoptCalculator._calculate_single_fit rational_libm 1
                       example_t example_MAP example_rSO2 (1 # 6) 1
                       Config.MAP_BINS Config.MAP_BIN_CENTERS
                     = Ok (Some r) }).
  { eexists. vm_compute. reflexivity. }
  destruct Hs as [[[mapopt weight] fd] Hs].
  exists mapopt, weight, fd. split; [exact Hs|].
  exact (@accepted_fit_within_bounds rational_libm 1 example_t example_MAP
           example_rSO2 (1 # 6) 1 Config.MAP_BINS Config.MAP_BIN_CENTERS
           mapopt weight fd Hs).
Defined.


(** ** The Fisher transform *)

Section FisherRoundTrip.

Import RealFisher.

Local Open Scope R_scope.

Lemma clip_inside (r lo hi : R) : lo < r < hi -> clip r lo hi = r.
Proof.
  intros [H1 H2]. unfold clip.
  rewrite Rmax_left by lra. rewrite Rmin_left by lra. reflexivity.
Qed.

Lemma tanh_half_ln (u : R) : 0 < u -> tanh (1 / 2 * ln u) = (u - 1) / (u + 1).
Proof.
  intro Hu. unfold tanh, sinh, cosh.
  set (a := exp (1 / 2 * ln u)).
  assert (Ha : 0 < a) by apply exp_pos.
  assert (Hinv : exp (- (1 / 2 * ln u)) = / a) by apply exp_Ropp.
  assert (Hsq : a * a = u).
  { unfold a. rewrite <- exp_plus.
    replace (1 / 2 * ln u + 1 / 2 * ln u) with (ln u) by lra.
    apply exp_ln. exact Hu. }
  rewrite Hinv, <- Hsq. field. split; nra.
Qed.

(** C2.  For a correlation strictly inside the clip bound the inverse
    transform of the forward transform is the correlation itself, in real
    arithmetic; so it is within every tolerance of it. *)
Theorem fisher_round_trip (r : R) :
  - (999 / 1000) < r < 999 / 1000 ->
  inverse_fisher_transform (fisher_transform r) = r
  /\ forall eps, 0 <= eps ->
       Rabs (inverse_fisher_transform (fisher_transform r) - r) <= eps.
Proof.
  intro H.
  assert (E : inverse_fisher_transform (fisher_transform r) = r).
  { unfold inverse_fisher_transform, fisher_transform. cbv zeta.
    rewrite clip_inside by (unfold FISHER_BOUNDS; lra).
    rewrite tanh_half_ln.
    - field. lra.
    - apply Rdiv_lt_0_compat; lra. }
  split; [exact E|].
  intros eps Heps. rewrite E. unfold Rminus. rewrite Rplus_opp_r, Rabs_R0.
  exact Heps.
Qed.

Lemma fisher_round_trip_witness :
  inverse_fisher_transform (fisher_transform (1 / 2)) = 1 / 2
  /\ forall eps, 0 <= eps ->
       Rabs (inverse_fisher_transform (fisher_transform (1 / 2)) - 1 / 2)
       <= eps.
Proof.
  apply (fisher_round_trip (1 / 2)). lra.
Defined.

End FisherRoundTrip.


(** ** The series post-processor *)

Section Filling.

Variables lo hi : Q.

Lemma ffill_from_within (l : list fl) :
  forall last,
    Forall (within_or_nan lo hi) l -> within lo hi last ->
    Forall (within lo hi) (ffill_from last l).
Proof.
  induction l as [|a l IH]; intros last Hl Hlast; cbn [ffill_from].
  - constructor.
  - inversion Hl as [|? ? Ha Hl']; subst.
    destruct a as [|q]; constructor; try assumption; apply IH; assumption.
Qed.

Lemma ffill_from_within_or_nan (l : list fl) :
  forall last,
    Forall (within_or_nan lo hi) l -> within_or_nan lo hi last ->
    Forall (within_or_nan lo hi) (ffill_from last l).
Proof.
  induction l as [|a l IH]; intros last Hl Hlast; cbn [ffill_from].
  - constructor.
  - inversion Hl as [|? ? Ha Hl']; subst.
    destruct a as [|q]; constructor; try assumption; apply IH; assumption.
Qed.

(** Behind a value, the forward fill ends with a value. *)
Lemma ffill_from_ends_within (l : list fl) :
  forall last,
    Forall (within_or_nan lo hi) l -> l <> [] ->
    within lo hi last \/ (exists q, In (Num q) l) ->
    exists l1 x, ffill_from last l = l1 ++ [x] /\ within lo hi x.
Proof.
  induction l as [|a l IH]; intros last Hl Hne Hex; [contradiction|].
  inversion Hl as [|? ? Ha Hl']; subst.
  set (a' := match a with NaN => last | Num q => Num q end).
  assert (Hstep : ffill_from last (a :: l) = a' :: ffill_from a' l)
    by (destruct a; reflexivity).
  rewrite Hstep.
  destruct l as [|b l].
  - exists [], a'. split; [reflexivity|].
    subst a'. destruct a as [|q]; [|exact Ha].
    destruct Hex as [H|[q [H|[]]]]; [exact H | discriminate].
  - assert (Hex' : within lo hi a' \/ (exists q, In (Num q) (b :: l))).
    { subst a'. destruct a as [|q]; [|left; exact Ha].
      destruct Hex as [H|[q [H|H]]];
        [left; exact H | discriminate | right; exists q; exact H]. }
    destruct (IH a' Hl' ltac:(discriminate) Hex') as (l1 & x & E & Hx).
    exists (a' :: l1), x. rewrite E. split; [reflexivity | exact Hx].
Qed.

(** The forward fill followed by the backward fill leaves no gap in a
    series that has a value. *)
Lemma fills_leave_no_gap (l : list fl) :
  Forall (within_or_nan lo hi) l -> (exists q, In (Num q) l) ->
  Forall (within lo hi) (bfill (ffill l)).
Proof.
  intros Hl Hex.
  assert (Hne : l <> []) by (destruct Hex as [q Hq]; intro E; subst; exact Hq).
  destruct (ffill_from_ends_within l NaN Hl Hne (or_intror Hex))
    as (l1 & x & E & Hx).
  assert (Hf : Forall (within_or_nan lo hi) (ffill l))
    by (apply ffill_from_within_or_nan; [exact Hl | exact I]).
  unfold bfill. apply Forall_rev.
  unfold ffill in *. rewrite E in *. rewrite rev_app_distr. cbn [rev app].
  destruct x as [|q]; [contradiction|]. cbn [ffill_from].
  constructor; [exact Hx|].
  apply ffill_from_within; [|exact Hx].
  apply Forall_rev. apply Forall_app in Hf. apply Hf.
Qed.

Lemma ffill_from_length (l : list fl) :
  forall last, length (ffill_from last l) = length l.
Proof.
  induction l as [|a l IH]; intro last; [reflexivity|].
  destruct a; cbn [ffill_from length]; rewrite IH; reflexivity.
Qed.

Lemma fills_length (l : list fl) : length (bfill (ffill l)) = length l.
Proof.
  unfold bfill, ffill.
  rewrite length_rev, ffill_from_length, length_rev, ffill_from_length.
  reflexivity.
Qed.

End Filling.

Lemma in_indexed_from {A : Type} (x : A) (l : list A) :
  forall k, In x l -> exists i, In (i, x) (combine (seq k (length l)) l).
Proof.
  induction l as [|a l IH]; intros k Hin; [contradiction|].
  cbn [length seq combine]. destruct Hin as [<-|Hin].
  - exists k. left. reflexivity.
  - destruct (IH (S k) Hin) as [i Hi]. exists i. right. exact Hi.
Qed.

Lemma indexed_length {A : Type} (l : list A) :
  length (indexed l) = length l.
Proof.
  unfold indexed. rewrite length_combine, length_seq. apply Nat.min_id.
Qed.

Lemma valid_points_count (l : list fl) :
  forall k,
    length (flat_map
              (fun p : nat * fl =>
                 match snd p with Num q => [(fst p, q)] | NaN => [] end)
              (combine (seq k (length l)) l))
    = length (filter np_isfinite l).
Proof.
  induction l as [|a l IH]; intro k; [reflexivity|].
  cbn [length seq combine flat_map filter snd fst].
  destruct a as [|q]; cbn [np_isfinite app length]; rewrite IH; reflexivity.
Qed.

(** The gap filling keeps the length of the series and its values. *)
Lemma interpolate_pchip_keeps (ys r : list fl) :
  interpolate_pchip ys = Ok r ->
  length r = length ys /\ forall q, In (Num q) ys -> In (Num q) r.
Proof.
  unfold interpolate_pchip.
  destruct (valid_points ys) as [|[first_valid v] others].
  { intro H. injection H as <-. split; [reflexivity | trivial]. }
  destruct (forallb np_isfinite ys).
  { intro H. injection H as <-. split; [reflexivity | trivial]. }
  destruct others as [|p others]; [discriminate|].
  intro H. injection H as <-. split.
  - rewrite length_map. apply indexed_length.
  - intros q Hq. destruct (in_indexed_from _ _ 0%nat Hq) as [i Hi].
    apply in_map_iff. exists (i, Num q). split; [reflexivity | exact Hi].
Qed.

(** It returns on a series without a gap and on a series with two values
    at least. *)
Lemma interpolate_pchip_returns (ys : list fl) :
  (2 <= length (filter np_isfinite ys))%nat
  \/ forallb np_isfinite ys = true ->
  exists r, interpolate_pchip ys = Ok r.
Proof.
  intro H. unfold interpolate_pchip.
  pose proof (valid_points_count ys 0) as Hc.
  fold (indexed ys) in Hc. fold (valid_points ys) in Hc.
  destruct (valid_points ys) as [|[first_valid v] others];
    [eexists; reflexivity|].
  destruct (forallb np_isfinite ys) eqn:E; [eexists; reflexivity|].
  destruct others as [|p others]; [|eexists; reflexivity].
  destruct H as [H|H]; [|discriminate].
  cbn [length] in Hc. lia.
Qed.

Lemma all_finite_within (lo hi : Q) (l : list fl) :
  Forall (within lo hi) l ->
  exists qs, all_finite l = Some qs /\ length qs = length l.
Proof.
  induction 1 as [|a l Ha _ (qs & E & Hlen)].
  - exists []. split; reflexivity.
  - destruct a as [|q]; [contradiction|].
    exists (q :: qs). cbn [all_finite fold_right] in *.
    unfold all_finite in E. rewrite E. cbn [length]. rewrite Hlen.
    split; reflexivity.
Qed.

Lemma savgol_values_length (window order : nat) (x : list Q) :
  length (savgol_values window order x) = length x.
Proof. unfold savgol_values. rewrite length_map, length_seq. reflexivity. Qed.

Section PostProcess.

Import Config MAPoptCalculator.

(** C1, as the code has it.  On a raw series with two estimates at least,
    or with an estimate and no gap, the post-processing returns a series of
    the same length without [nan]; before the smoothing every value lies in
    [40, 90], so that the series returned lies in [40, 90] when it has at
    most 11 points, for which there is no smoothing. *)
Theorem post_process_fills_and_clamps (raw : list fl) :
  (exists q, In (Num q) raw) ->
  (2 <= length (filter np_isfinite raw))%nat
  \/ forallb np_isfinite raw = true ->
  exists filled out,
    fill_and_clamp raw = Ok filled
    /\ _post_process_mapopt raw = Ok out
    /\ length filled = length raw
    /\ length out = length raw
    /\ Forall (within 40 90) filled
    /\ Forall (fun a => a <> NaN) out
    /\ ((length raw <= 11)%nat ->
        out = filled /\ Forall (within 40 90) out).
Proof.
  intros [q0 Hq0] Hret.
  destruct (interpolate_pchip_returns raw Hret) as [r Hr].
  destruct (interpolate_pchip_keeps raw r Hr) as [Hlen Hkeep].
  set (clamped := map (fun v => np_clip v MAP_OPT_MIN MAP_OPT_MAX) r).
  assert (Hwn : Forall (within_or_nan 40 90) clamped).
  { apply Forall_map. apply Forall_forall. intros a _.
    destruct a as [|q]; [exact I|]. apply Qclip_bounds. discriminate. }
  assert (Hex : exists q, In (Num q) clamped).
  { exists (Qclip q0 MAP_OPT_MIN MAP_OPT_MAX).
    apply in_map_iff. exists (Num q0). split; [reflexivity|].
    apply Hkeep. exact Hq0. }
  pose proof (fills_leave_no_gap 40 90 clamped Hwn Hex) as Hw.
  assert (Hfl : length (bfill (ffill clamped)) = length raw).
  { rewrite fills_length. unfold clamped. rewrite length_map. exact Hlen. }
  assert (Hfill : fill_and_clamp raw = Ok (bfill (ffill clamped))).
  { unfold fill_and_clamp. rewrite Hr. reflexivity. }
  exists (bfill (ffill clamped)).
  unfold _post_process_mapopt. rewrite Hfill. cbn [bind].
  replace (SAVGOL_WINDOW <? length (bfill (ffill clamped)))%nat
    with (11 <? length raw)%nat by (rewrite Hfl; reflexivity).
  destruct (11 <? length raw)%nat eqn:E.
  - destruct (all_finite_within 40 90 _ Hw) as (qs & Hqs & Hql).
    eexists. split; [reflexivity|]. split; [reflexivity|].
    unfold savgol_filter. rewrite Hqs.
    split; [exact Hfl|]. split.
    { rewrite length_map, savgol_values_length, Hql. exact Hfl. }
    split; [exact Hw|]. split.
    { apply Forall_map. apply Forall_forall. intros; discriminate. }
    apply Nat.ltb_lt in E. intro. lia.
  - eexists. split; [reflexivity|]. split; [reflexivity|].
    split; [exact Hfl|]. split; [exact Hfl|]. split; [exact Hw|]. split.
    { eapply Forall_impl; [|exact Hw]. intros [|q] H; [contradiction|].
      discriminate. }
    intros _. split; [reflexivity | exact Hw].
Qed.

End PostProcess.

Lemma post_process_fills_and_clamps_witness :
  exists filled out,
    MAPoptCalculator.fill_and_clamp [NaN; Num 35; NaN; Num 95; NaN]
    = Ok filled
    /\ MAPoptCalculator._post_process_mapopt [NaN; Num 35; NaN; Num 95; NaN]
       = Ok out
    /\ length filled = 5%nat
    /\ length out = 5%nat
    /\ Forall (within 40 90) filled
    /\ Forall (fun a => a <> NaN) out
    /\ ((5 <= 11)%nat -> out = filled /\ Forall (within 40 90) out).
Proof.
  apply (post_process_fills_and_clamps [NaN; Num 35; NaN; Num 95; NaN]).
  - exists 35. right. left. reflexivity.
  - left. apply le_n.
Defined.

(** C1, as stated, fails: the smoothing of a series of 13 estimates, all of
    them in [40, 90] and none of them missing, gives 13560/429 mmHg, less
    than 40, at its seventh point. *)
Lemma post_process_overshoot_counterexample :
  Forall (within 40 90) example_raw
  /\ exists out,
       MAPoptCalculator._post_process_mapopt example_raw = Ok out
       /\ feq (nth 6 out NaN) (Num (13560 # 429))
       /\ ~ within 40 90 (nth 6 out NaN).
Proof.
  split.
  - unfold example_raw. repeat constructor; discriminate.
  - eexists. split; [vm_compute; reflexivity|].
    split; [reflexivity|]. vm_compute. intros [H _]. apply H. reflexivity.
Qed.

(** With one estimate and a gap the interpolation has too few points and
    the post-processing raises. *)
Lemma post_process_single_estimate :
  MAPoptCalculator._post_process_mapopt [NaN; Num 70; NaN]
  = Raise ValueError.
Proof. reflexivity. Qed.


(** * Further properties *)

(** ** Correlations and bins *)

Lemma fl_sum_within (lo hi : Q) (l : list fl) :
  Forall (within lo hi) l ->
  forall a,
    exists s, fold_left fadd l (Num a) = Num s
              /\ a + inject_Z (len l) * lo <= s
                 <= a + inject_Z (len l) * hi.
Proof.
  induction 1 as [|x l Hx _ IH]; intro a; cbn [fold_left].
  - exists a. split; [reflexivity|]. unfold len. cbn [length Z.of_nat].
    change (inject_Z 0) with 0. lra.
  - destruct x as [|q]; [contradiction|]. cbn [within] in Hx.
    cbn [fadd fl_lift2]. destruct (IH (Qred (a + q))) as (s & E & Hs).
    exists s. split; [exact E|].
    rewrite Qred_correct in Hs. unfold len in *. cbn [length].
    rewrite Nat2Z.inj_succ. unfold Z.succ. rewrite inject_Z_plus.
    change (inject_Z 1) with 1. lra.
Qed.

(** The mean of values of an interval is in the interval; the mean of no
    value is [nan]. *)
Lemma np_mean_within (lo hi : Q) (l : list fl) :
  Forall (within lo hi) l -> within_or_nan lo hi (np_mean l).
Proof.
  intro H. unfold np_mean, fl_sum.
  destruct (fl_sum_within lo hi l H 0) as (s & E & Hs). rewrite E.
  cbn [fdiv]. destruct (Qeq_bool (inject_Z (len l)) 0) eqn:En; [exact I|].
  cbn [within_or_nan]. rewrite Qred_correct.
  apply Qeq_bool_false in En.
  assert (Hn : 0 < inject_Z (len l)).
  { assert (0 <= inject_Z (len l)).
    { unfold len. change 0 with (inject_Z 0). rewrite <- Zle_Qle. lia. }
    lra. }
  split.
  - apply Qle_shift_div_l; [exact Hn | lra].
  - apply Qle_shift_div_r; [exact Hn | lra].
Qed.

Lemma mask_select_Forall {A : Type} (P : A -> Prop) (mask : list bool) :
  forall l, Forall P l -> Forall P (mask_select mask l).
Proof.
  induction mask as [|b mask IH]; intros [|x l] H; cbn [mask_select];
    try constructor.
  inversion H; subst. destruct b; [constructor|]; auto.
Qed.

Section CorrelationShape.

Import Config SignalProcessor.

Context {L : Libm}.

(** The clip at the end of [np_corrcoef] bounds every correlation. *)
Lemma fast_correlation_clipped (x y : list fl) :
  within_or_nan (-1) 1 (fast_correlation x y).
Proof.
  unfold fast_correlation.
  destruct (_ || _); [exact I|].
  destruct (negb _); [exact I|].
  destruct (_ <? _)%Z; [exact I|].
  unfold np_corrcoef. cbv zeta.
  destruct (fdiv (fdiv _ _) _) as [|c]; [exact I|].
  apply Qclip_bounds. discriminate.
Qed.

(** X1.  Whatever the arrays, [fast_correlation] returns [nan] or a number
    of [-1, 1]. *)
Theorem fast_correlation_range (x y : list fl) :
  within_or_nan (-1) 1 (fast_correlation x y).
Proof.
  exact (fast_correlation_clipped x y).
Qed.

Lemma window_step_invariant (time_seg : list Q) (map_seg rso2_seg : list fl)
  (win_hr hist_hr t_now step_size : Q) (acc : list fl * list fl) (s : Z) :
  length (fst acc) = length (snd acc) ->
  Forall (within (-1) 1) (fst acc) ->
  let acc' := window_step time_seg map_seg rso2_seg win_hr hist_hr t_now
                step_size acc s in
  length (fst acc') = length (snd acc')
  /\ Forall (within (-1) 1) (fst acc')
  /\ (length (fst acc') <= S (length (fst acc)))%nat.
Proof.
  intros Hlen Hall. unfold window_step. cbv zeta.
  destruct (_ <? MIN_DATA_POINTS)%Z; [repeat split; auto|].
  destruct (1 <? _)%Z; [|repeat split; auto].
  pose proof (fast_correlation_clipped
                (mask_select
                   (map (in_window
                           (t_now - hist_hr + inject_Z s * step_size)
                           (t_now - hist_hr + inject_Z s * step_size
                            + win_hr)) time_seg) map_seg)
                (mask_select
                   (map (in_window
                           (t_now - hist_hr + inject_Z s * step_size)
                           (t_now - hist_hr + inject_Z s * step_size
                            + win_hr)) time_seg) rso2_seg)) as Hr.
  destruct (fast_correlation _ _) as [|c]; cbn [np_isnan negb];
    [repeat split; auto|].
  cbn [fst snd]. rewrite !length_app. cbn [length]. repeat split.
  - lia.
  - apply Forall_app. split; [exact Hall|]. constructor; [exact Hr|].
    constructor.
  - lia.
Qed.

Lemma window_steps_invariant (time_seg : list Q) (map_seg rso2_seg : list fl)
  (win_hr hist_hr t_now step_size : Q) (steps : list Z) :
  forall acc,
    length (fst acc) = length (snd acc) ->
    Forall (within (-1) 1) (fst acc) ->
    let acc' :=
      fold_left (window_step time_seg map_seg rso2_seg win_hr hist_hr t_now
                   step_size) steps acc in
    length (fst acc') = length (snd acc')
    /\ Forall (within (-1) 1) (fst acc')
    /\ (length (fst acc') <= length steps + length (fst acc))%nat.
Proof.
  induction steps as [|s steps IH]; intros acc Hlen Hall; cbn [fold_left].
  - repeat split; auto.
  - destruct (window_step_invariant time_seg map_seg rso2_seg win_hr hist_hr
                t_now step_size acc s Hlen Hall) as (H1 & H2 & H3).
    destruct (IH _ H1 H2) as (I1 & I2 & I3).
    repeat split; auto. cbn [length]. lia.
Qed.

(** X2.  The sliding-window collection returns one mean pressure per
    correlation, only correlations that are numbers of [-1, 1], and no more
    observations than there are sub-windows. *)
Theorem sliding_window_observations (time : list Q) (MAP rSO2 : list fl)
  (win_hr hist_hr t_now : Q) (cox_vals map_vals : list fl) :
  calculate_sliding_window_correlations time MAP rSO2 win_hr hist_hr t_now
  = Ok (cox_vals, map_vals) ->
  length cox_vals = length map_vals
  /\ Forall (within (-1) 1) cox_vals
  /\ (len cox_vals
      <= Z.max 0 (py_int ((hist_hr - win_hr) / (win_hr / 2)) + 1))%Z.
Proof.
  unfold calculate_sliding_window_correlations. cbv zeta.
  destruct (_ <? 60)%Z.
  { intro H. injection H as <- <-. repeat split; auto.
    unfold len. simpl. lia. }
  destruct (Qeq_bool _ 0); [discriminate|].
  intro H. injection H as H.
  match type of H with
  | fold_left ?f ?steps ?acc = _ =>
      pose proof (window_steps_invariant
                    (mask_select
                       (map (in_window (t_now - hist_hr) t_now) time) time)
                    (mask_select
                       (map (in_window (t_now - hist_hr) t_now) time) MAP)
                    (mask_select
                       (map (in_window (t_now - hist_hr) t_now) time) rSO2)
                    win_hr hist_hr t_now (win_hr / 2) steps ([], [])
                    eq_refl (Forall_nil _)) as Hinv
  end.
  cbv zeta in Hinv. rewrite H in Hinv. cbn [fst snd] in Hinv.
  destruct Hinv as (H1 & H2 & H3).
  repeat split; auto.
  unfold py_range in H3. rewrite length_map, length_seq in H3.
  unfold len. cbn [length] in H3. lia.
Qed.

End CorrelationShape.

Lemma sliding_window_observations_witness :
  exists cox_vals map_vals,
    @SignalProcessor.calculate_sliding_window_correlations rational_libm
      example_t example_MAP example_rSO2 (1 # 6) 1 1
    = Ok (cox_vals, map_vals)
    /\ length cox_vals = length map_vals
    /\ Forall (within (-1) 1) cox_vals
    /\ (len cox_vals
        <= Z.max 0 (py_int ((1 - (1 # 6)) / ((1 # 6) / 2)) + 1))%Z.
Proof.
  assert (Hs : { cm | @SignalProcessor.calculate_sliding_window_correlations
                        rational_libm example_t example_MAP example_rSO2
                        (1 # 6) 1 1 = Ok cm }).
  { eexists. vm_compute. reflexivity. }
  destruct Hs as [[cox_vals map_vals] Hs].
  exists cox_vals, map_vals. split; [exact Hs|].
  exact (@sliding_window_observations rational_libm example_t example_MAP
           example_rSO2 (1 # 6) 1 1 cox_vals map_vals Hs).
Defined.

(** X3.  [bin_correlations] returns one value per bin, each of them [nan]
    or between the bounds of the correlations it was given; with fewer than
    5 correlations every bin is [nan]. *)
Theorem bin_correlations_shape (cox_vals map_vals : list fl)
  (bins : list Q) (lo hi : Q) :
  Forall (within lo hi) cox_vals ->
  length (SignalProcessor.bin_correlations cox_vals map_vals bins)
  = (length bins - 1)%nat
  /\ Forall (within_or_nan lo hi)
            (SignalProcessor.bin_correlations cox_vals map_vals bins)
  /\ ((length cox_vals < 5)%nat ->
      Forall (fun v => v = NaN)
             (SignalProcessor.bin_correlations cox_vals map_vals bins)).
Proof.
  intro Hc. unfold SignalProcessor.bin_correlations.
  destruct (len cox_vals <? 5)%Z eqn:E.
  - rewrite repeat_length. repeat split.
    + apply Forall_forall. intros v Hv. apply repeat_spec in Hv. subst.
      exact I.
    + intros _. apply Forall_forall. intros v Hv.
      apply repeat_spec in Hv. exact Hv.
  - rewrite length_map, length_seq. repeat split.
    + apply Forall_map. apply Forall_forall. intros b _.
      destruct (np_any _); [|exact I].
      apply np_mean_within. apply mask_select_Forall. exact Hc.
    + intro H. apply Z.ltb_ge in E. unfold len in E. lia.
Qed.

Lemma bin_correlations_shape_witness :
  length (SignalProcessor.bin_correlations
            [Num (1 # 2); Num (- (1 # 4)); Num 0; Num (3 # 4); Num (1 # 10)]
            [Num 42; Num 43; Num 51; Num 52; Num 97] Config.MAP_BINS)
  = (length Config.MAP_BINS - 1)%nat
  /\ Forall (within_or_nan (-1) 1)
       (SignalProcessor.bin_correlations
          [Num (1 # 2); Num (- (1 # 4)); Num 0; Num (3 # 4); Num (1 # 10)]
          [Num 42; Num 43; Num 51; Num 52; Num 97] Config.MAP_BINS).
Proof.
  assert (H : Forall (within (-1) 1)
                [Num (1 # 2); Num (- (1 # 4)); Num 0; Num (3 # 4);
                 Num (1 # 10)]).
  { repeat constructor; discriminate. }
  pose proof (bin_correlations_shape
                [Num (1 # 2); Num (- (1 # 4)); Num 0; Num (3 # 4);
                 Num (1 # 10)]
                [Num 42; Num 43; Num 51; Num 52; Num 97] Config.MAP_BINS
                (-1) 1 H) as (H1 & H2 & _).
  split; [exact H1 | exact H2].
Defined.


(** ** Weights and accepted fits *)

Lemma Num_inj (a b : Q) : Num a = Num b -> a = b.
Proof. intro H. congruence. Qed.

Section WeightBounds.

Import Config MAPoptCalculator.

Lemma cox_weight_unit (nadir : Q) :
  0 <= nadir <= 3 # 10 ->
  0 <= Qred (Qred ((3 # 10) - nadir) / (3 # 10)) <= 1
  /\ (nadir < 3 # 10 -> 0 < Qred (Qred ((3 # 10) - nadir) / (3 # 10))).
Proof.
  intros [H0 H1]. rewrite !Qred_correct.
  unfold Qdiv. change (/ (3 # 10)) with (10 # 3). split; [split|intro]; lra.
Qed.

(** X4.  For a fit quality that is not negative the weight is not negative
    either, and it does not exceed the fit quality when the nadir
    correlation is a correlation, that is at least -1. *)
Theorem calculate_weight_bounds (nadir r2 : Q) :
  0 <= r2 ->
  exists w,
    _calculate_weight (Num nadir) (Num r2) = Num w
    /\ 0 <= w
    /\ (-1 <= nadir -> w <= r2).
Proof.
  intro Hr. unfold _calculate_weight, COX_WEIGHT_THRESHOLD.
  cbn [flt fle].
  destruct (Qltb nadir 0) eqn:E0.
  - apply Qltb_lt in E0. cbn [fneg fmul fl_lift2].
    eexists. split; [reflexivity|]. rewrite Qred_correct. split; [nra|].
    intro. nra.
  - apply Qltb_ge in E0. destruct (Qle_bool nadir (3 # 10)) eqn:E1.
    + apply Qle_bool_iff in E1. cbn [fsub fdiv fl_lift2].
      change (Qeq_bool (3 # 10) 0) with false. cbn [fmul fl_lift2].
      destruct (cox_weight_unit nadir (conj E0 E1)) as [[Hc0 Hc1] _].
      eexists. split; [reflexivity|]. rewrite Qred_correct.
      split; [nra|]. intro. nra.
    + cbn [fmul fl_lift2]. eexists. split; [reflexivity|].
      rewrite Qred_correct. split; [lra|]. intro. lra.
Qed.

Lemma calculate_weight_bounds_witness :
  exists w,
    _calculate_weight (Num (- (1 # 2))) (Num (9 # 10)) = Num w
    /\ 0 <= w
    /\ (-1 <= - (1 # 2) -> w <= 9 # 10).
Proof.
  apply (calculate_weight_bounds (- (1 # 2)) (9 # 10)). discriminate.
Defined.

(** A weight above the threshold of acceptance comes from a fit quality
    that is a positive number and from a nadir below the threshold of the
    correlation. *)
Lemma accepted_weight_inversion (nadir : Q) (r2 : fl) (w : Q) :
  _calculate_weight (Num nadir) r2 = Num w ->
  1 # 1000000 < w ->
  exists r, r2 = Num r /\ 0 < r /\ nadir < COX_WEIGHT_THRESHOLD.
Proof.
  unfold _calculate_weight, COX_WEIGHT_THRESHOLD. cbn [flt fle].
  destruct r2 as [|r]; [destruct (if Qltb nadir 0 then _ else _); discriminate|].
  intros Hw Hpos. exists r. split; [reflexivity|].
  destruct (Qltb nadir 0) eqn:E0.
  - apply Qltb_lt in E0. cbn [fneg fmul fl_lift2] in Hw.
    apply Num_inj in Hw. subst w. rewrite Qred_correct in Hpos. split; nra.
  - apply Qltb_ge in E0. destruct (Qle_bool nadir (3 # 10)) eqn:E1.
    + apply Qle_bool_iff in E1. cbn [fsub fdiv fl_lift2] in Hw.
      change (Qeq_bool (3 # 10) 0) with false in Hw.
      cbn [fmul fl_lift2] in Hw. apply Num_inj in Hw. subst w.
      rewrite Qred_correct in Hpos.
      destruct (cox_weight_unit nadir (conj E0 E1)) as [[Hc0 Hc1] _].
      assert (Hn : ~ nadir == 3 # 10).
      { intro En. revert Hpos. rewrite !Qred_correct, En.
        unfold Qdiv. change (/ (3 # 10)) with (10 # 3). intro. lra. }
      split; [nra | lra].
    + cbn [fmul fl_lift2] in Hw. apply Num_inj in Hw. subst w.
      rewrite Qred_correct in Hpos. lra.
Qed.

End WeightBounds.

Lemma mask_select_self_length (l : list fl) :
  length (mask_select (map np_isfinite l) l)
  = Z.to_nat (count_true (map np_isfinite l)).
Proof.
  unfold count_true. rewrite Nat2Z.id.
  induction l as [|a l IH]; [reflexivity|].
  cbn [map mask_select filter]. destruct (np_isfinite a); cbn [length];
    rewrite IH; reflexivity.
Qed.

Section AcceptedFits.

Import Config SignalProcessor MAPoptCalculator.

Context {L : Libm}.

Lemma fit_valid_bins_diagnostics (win_hr hist_hr : Q) (bin_centers : list Q)
  (binned_cox binned_cox_fisher : list fl)
  (mapopt weight : fl) (fd : Fit) :
  fit_valid_bins win_hr hist_hr bin_centers binned_cox binned_cox_fisher
  = Some (mapopt, weight, fd) ->
  fit_win_hr fd = win_hr /\ fit_hist_hr fd = hist_hr
  /\ (3 <= length (fit_binned_cox_fisher fd))%nat
  /\ np_polyfit (fit_bin_centers fd)
       (finite_values (fit_binned_cox_fisher fd)) 2 = Some (fit_coeffs fd)
  /\ 0 < nth 0 (fit_coeffs fd) 0
  /\ fit_mapopt fd
     = Qclip (- nth 1 (fit_coeffs fd) 0 / (2 * nth 0 (fit_coeffs fd) 0))
             (np_min (fit_bin_centers fd)) (np_max (fit_bin_centers fd))
  /\ fit_nadir_cox fd
     = inverse_fisher_transform (np_polyval (fit_coeffs fd) (fit_mapopt fd))
  /\ fit_weight fd = _calculate_weight (Num (fit_nadir_cox fd)) (fit_r2 fd)
  /\ exists r2 w,
       fit_r2 fd = Num r2 /\ fit_weight fd = Num w
       /\ 0 < r2 /\ fit_nadir_cox fd < COX_WEIGHT_THRESHOLD
       /\ 1 # 1000000 < w.
Proof.
  unfold fit_valid_bins. cbv zeta.
  destruct (3 <=? _)%Z eqn:E3; [|discriminate].
  destruct (np_polyfit _ _ 2) as [coeffs|] eqn:Ep; [|discriminate].
  destruct (Qltb 0 _) eqn:Ea; [|discriminate].
  destruct (Qle_bool MAP_OPT_MIN _ && Qle_bool _ MAP_OPT_MAX);
    [|discriminate].
  destruct (fgt _ _) eqn:Ew; [|discriminate].
  intro H. injection H as <- <- <-.
  cbn [fit_win_hr fit_hist_hr fit_binned_cox_fisher fit_bin_centers
       fit_coeffs fit_mapopt fit_nadir_cox fit_weight fit_r2].
  apply Qltb_lt in Ea. apply Z.leb_le in E3.
  repeat (split; [first [reflexivity | assumption
                        | rewrite mask_select_self_length; lia]|]).
  unfold fgt, flt in Ew.
  destruct (_calculate_weight _ _) as [|w] eqn:Ec; [discriminate|].
  apply Qltb_lt in Ew.
  destruct (accepted_weight_inversion _ _ _ Ec Ew) as (r & Hr & Hr0 & Hn).
  exists r, w. repeat split; assumption.
Qed.

Lemma single_fit_from_bins (t_now : Q) (t : list Q) (MAP rSO2 : list fl)
  (win_hr hist_hr : Q) (bins bin_centers : list Q)
  (x : fl * fl * Fit) :
  _calculate_single_fit t_now t MAP rSO2 win_hr hist_hr bins bin_centers
  = Ok (Some x) ->
  exists binned_cox binned_cox_fisher,
    fit_valid_bins win_hr hist_hr bin_centers binned_cox binned_cox_fisher
    = Some x.
Proof.
  unfold _calculate_single_fit.
  destruct t as [|t0 t']; [discriminate|].
  destruct (Qltb _ t0); [discriminate|].
  destruct (calculate_sliding_window_correlations _ _ _ _ _ _)
    as [[cox_vals map_vals]|e]; cbn [bind fst snd]; [|discriminate].
  destruct (len map_vals <? 5)%Z; [discriminate|].
  intro H. injection H as H. eexists. eexists. exact H.
Qed.

(** X5.  The diagnostics of a fit that [_calculate_single_fit] returns are
    those of an accepted fit: they carry the window and the history of the
    call, at least 3 contributing bins, the least-squares coefficients of
    these bins with a positive leading coefficient, a fit quality that is a
    positive number, a nadir correlation below 0.3, and the weight that
    [_calculate_weight] gives for that nadir and that quality, above
    [1e-6]. *)
Theorem accepted_fit_diagnostics (t_now : Q) (t : list Q)
  (MAP rSO2 : list fl) (win_hr hist_hr : Q) (bins bin_centers : list Q)
  (mapopt weight : fl) (fd : Fit) :
  _calculate_single_fit t_now t MAP rSO2 win_hr hist_hr bins bin_centers
  = Ok (Some (mapopt, weight, fd)) ->
  fit_win_hr fd = win_hr /\ fit_hist_hr fd = hist_hr
  /\ (3 <= length (fit_binned_cox_fisher fd))%nat
  /\ np_polyfit (fit_bin_centers fd)
       (finite_values (fit_binned_cox_fisher fd)) 2 = Some (fit_coeffs fd)
  /\ 0 < nth 0 (fit_coeffs fd) 0
  /\ mapopt = Num (fit_mapopt fd) /\ weight = fit_weight fd
  /\ fit_weight fd = _calculate_weight (Num (fit_nadir_cox fd)) (fit_r2 fd)
  /\ exists r2 w,
       fit_r2 fd = Num r2 /\ fit_weight fd = Num w
       /\ 0 < r2 /\ fit_nadir_cox fd < 3 # 10 /\ 1 # 1000000 < w.
Proof.
  intro H. destruct (single_fit_from_bins _ _ _ _ _ _ _ _ _ H)
    as (bc & bcf & Hb).
  pose proof (fit_valid_bins_accepts _ _ _ _ _ _ _ _ Hb)
    as (_ & _ & Hm & Hw & _).
  pose proof (fit_valid_bins_diagnostics _ _ _ _ _ _ _ _ Hb)
    as (H1 & H2 & H3 & H4 & H5 & _ & _ & H8 & H9).
  repeat (split; [assumption|]). exact H9.
Qed.

End AcceptedFits.

Lemma accepted_fit_diagnostics_witness :
  exists mapopt weight fd,
    @MAPoptCalculator._calculate_single_fit rational_libm 1 example_t
      example_MAP example_rSO2 (1 # 3) 1 Config.MAP_BINS
      Config.MAP_BIN_CENTERS = Ok (Some (mapopt, weight, fd))
    /\ MAPoptCalculator.fit_win_hr fd = 1 # 3
    /\ (3 <= length (MAPoptCalculator.fit_binned_cox_fisher fd))%nat
    /\ 0 < nth 0 (MAPoptCalculator.fit_coeffs fd) 0
    /\ exists r2 w,
         MAPoptCalculator.fit_r2 fd = Num r2
         /\ MAPoptCalculator.fit_weight fd = Num w
         /\ 0 < r2 /\ MAPoptCalculator.fit_nadir_cox fd < 3 # 10
         /\ 1 # 1000000 < w.
Proof.
  assert (Hs : { r | @MAPoptCalculator._calculate_single_fit rational_libm 1
                       example_t example_MAP example_rSO2 (1 # 3) 1
                       Config.MAP_BINS Config.MAP_BIN_CENTERS
                     = Ok (Some r) }).
  { eexists. vm_compute. reflexivity. }
  destruct Hs as [[[mapopt weight] fd] Hs].
  exists mapopt, weight, fd. split; [exact Hs|].
  pose proof (@accepted_fit_diagnostics rational_libm 1 example_t
                example_MAP example_rSO2 (1 # 3) 1 Config.MAP_BINS
                Config.MAP_BIN_CENTERS mapopt weight fd Hs)
    as (H1 & _ & H3 & _ & H5 & _ & _ & _ & H9).
  repeat (split; [assumption|]). exact H9.
Defined.


(** ** The estimate at one evaluation time *)

(** The sums of a weighted mean of candidates of an interval with positive
    weights. *)
Lemma weighted_sums_within (lo hi : Q) (l : list (fl * fl)) :
  Forall (fun p => exists m w,
            p = (Num m, Num w) /\ lo <= m <= hi /\ 0 < w) l ->
  forall a b,
    lo * b <= a <= hi * b ->
    exists s t,
      fold_left fadd (map (fun p => fmul (fst p) (snd p)) l) (Num a) = Num s
      /\ fold_left fadd (map snd l) (Num b) = Num t
      /\ lo * t <= s <= hi * t
      /\ b <= t /\ (l <> [] -> b < t).
Proof.
  induction 1 as [|p l Hp _ IH]; intros a b Hab; cbn [map fold_left].
  - exists a, b. repeat split; try lra. intro H. contradiction.
  - destruct Hp as (m & w & -> & Hm & Hw). cbn [fst snd fmul fadd fl_lift2].
    destruct (IH (Qred (a + Qred (m * w))) (Qred (b + w))) as
      (s & t & Es & Et & Hst & Hbt & _).
    { rewrite !Qred_correct. nra. }
    exists s, t. rewrite Qred_correct in Hbt.
    repeat split; try assumption; try lra.
Qed.

Lemma weighted_mean_within (lo hi : Q) (l : list (fl * fl)) :
  Forall (fun p => exists m w,
            p = (Num m, Num w) /\ lo <= m <= hi /\ 0 < w) l ->
  l <> [] ->
  exists q,
    MAPoptCalculator.weighted_mean (map fst l) (map snd l) = Num q
    /\ lo <= q <= hi.
Proof.
  intros Hl Hne. unfold MAPoptCalculator.weighted_mean, fl_sum.
  rewrite combine_map_same.
  assert (Hsame : map (fun x : fl * fl => (fst x, snd x)) l = l).
  { clear. induction l as [|[a b] l IH]; [reflexivity|].
    cbn [map fst snd]. rewrite IH. reflexivity. }
  rewrite Hsame.
  destruct (weighted_sums_within lo hi l Hl 0 0 ltac:(lra))
    as (s & t & Es & Et & Hst & _ & Ht).
  specialize (Ht Hne). rewrite Es, Et. cbn [fdiv].
  assert (En : Qeq_bool t 0 = false) by (apply Qeq_bool_false; lra).
  rewrite En. eexists. split; [reflexivity|]. rewrite Qred_correct. split.
  - apply Qle_shift_div_l; lra.
  - apply Qle_shift_div_r; lra.
Qed.

Lemma flat_map_all_nil {A B : Type} (f : A -> list B) (l : list A) :
  (forall x, In x l -> f x = []) -> flat_map f l = [].
Proof.
  induction l as [|x l IH]; intro H; [reflexivity|].
  cbn [flat_map]. rewrite (H x (or_introl eq_refl)). apply IH.
  intros y Hy. apply H. right. exact Hy.
Qed.

Section Estimate.

Import Config SignalProcessor MAPoptCalculator.

Context {L : Libm}.

Lemma produced_accepted (a : Args) (x : fl * fl * Fit) :
  In x (produced a) ->
  exists wh, In wh (grid a) /\ attempt a wh = Ok (Some x).
Proof.
  unfold produced. intro H. apply in_flat_map in H.
  destruct H as (wh & Hwh & Hx). exists wh. split; [exact Hwh|].
  destruct (attempt a wh) as [[y|]|e]; cbn [accepted] in Hx;
    try contradiction.
  destruct Hx as [<-|[]]. reflexivity.
Qed.

Lemma produced_length (a : Args) :
  (length (produced a) <= length (grid a))%nat.
Proof.
  unfold produced. induction (grid a) as [|wh g IH]; [apply le_n|].
  cbn [flat_map length]. rewrite length_app.
  destruct (attempt a wh) as [[y|]|e]; cbn [accepted length]; lia.
Qed.

Lemma produced_in_band (a : Args) :
  Forall (fun p => exists m w,
            p = (Num m, Num w) /\ 40 <= m <= 90 /\ 0 < w)
         (map (fun x => (candidate_of x, weight_of x)) (produced a)).
Proof.
  apply Forall_map. apply Forall_forall. intros [[c w] fd] Hx.
  destruct (produced_accepted a _ Hx) as (wh & _ & Hat).
  unfold attempt in Hat.
  destruct (single_fit_from_bins _ _ _ _ _ _ _ _ _ Hat) as (bc & bcf & Hb).
  destruct (fit_valid_bins_accepts _ _ _ _ _ _ _ _ Hb)
    as (_ & _ & Hm & _ & (w' & Hw & Hpos) & Hband & _).
  exists (fit_mapopt fd), w'. cbn [candidate_of weight_of fst snd].
  unfold MAP_OPT_MIN, MAP_OPT_MAX in Hband.
  rewrite Hm, Hw. repeat split; try lra.
Qed.

(** X6.  With the grid of [config.py], the estimate that
    [_process_time_point] returns is [nan] with no diagnostics, or a number
    of [40, 90] with at least one and at most 72 diagnostics; it is returned
    with the slot of the arguments. *)
Theorem process_time_point_estimate (a : Args) :
  arg_t a <> [] ->
  arg_cox_windows_min a = COX_WINDOWS_MIN ->
  arg_history_windows_hr a = HISTORY_WINDOWS_HR ->
  exists estimate fits,
    _process_time_point a = Ok (arg_k a, estimate, fits)
    /\ (length fits <= 72)%nat
    /\ ((estimate = NaN /\ fits = [])
        \/ (within 40 90 estimate /\ fits <> [])).
Proof.
  intros Ht Hw Hh.
  pose proof (grid_loops_collect a Ht Hw) as Hrun.
  pose proof (produced_length a) as Hlen.
  assert (Hgrid : length (grid a) = 72%nat).
  { unfold grid. rewrite Hw, Hh. reflexivity. }
  unfold _process_time_point. rewrite Hrun. cbn [bind].
  destruct (produced a) as [|x l] eqn:E.
  - exists NaN, []. repeat split; [cbn; lia | left; split; reflexivity].
  - rewrite (proj1 (len_cons_pos candidate_of x l)).
    rewrite (proj2 (len_cons_pos weight_of x l)). cbn [negb andb].
    pose proof (produced_in_band a) as Hband. rewrite E in Hband.
    destruct (weighted_mean_within 40 90 _ Hband) as (q & Eq & Hq).
    { discriminate. }
    rewrite !map_map in Eq. cbn [fst snd] in Eq.
    eexists. eexists. split; [reflexivity|].
    split; [rewrite length_map; lia|].
    right. split; [|discriminate].
    change (map (fun x0 => candidate_of x0) (x :: l))
      with (map candidate_of (x :: l)) in Eq.
    change (map (fun x0 => weight_of x0) (x :: l))
      with (map weight_of (x :: l)) in Eq.
    rewrite Eq. exact Hq.
Qed.

(** X7.  During the first hour of a record no lookback period fits into
    it: [_process_time_point] returns [nan] and no diagnostics. *)
Theorem first_hour_has_no_estimate (a : Args) (t0 : Q) (t' : list Q) :
  arg_t a = t0 :: t' ->
  arg_cox_windows_min a = COX_WINDOWS_MIN ->
  arg_history_windows_hr a = HISTORY_WINDOWS_HR ->
  arg_t_now a - 1 < t0 ->
  _process_time_point a = Ok (arg_k a, NaN, []).
Proof.
  intros Ht Hw Hh Hnow.
  assert (Hne : arg_t a <> []) by (rewrite Ht; discriminate).
  pose proof (grid_loops_collect a Hne Hw) as Hrun.
  assert (Hp : produced a = []).
  { unfold produced. apply flat_map_all_nil.
    intros [w h] Hin. unfold grid in Hin. apply in_prod_iff in Hin.
    destruct Hin as [_ Hin]. rewrite Hh in Hin.
    unfold attempt, _calculate_single_fit. rewrite Ht. cbn [fst snd].
    assert (E : Qltb (arg_t_now a - h) t0 = true).
    { apply Qltb_lt. unfold HISTORY_WINDOWS_HR in Hin. simpl in Hin.
      intuition (subst; unfold inject_Z; lra). }
    rewrite E. reflexivity. }
  unfold _process_time_point. rewrite Hrun, Hp. reflexivity.
Qed.

End Estimate.

Lemma process_time_point_estimate_witness :
  exists estimate fits,
    @MAPoptCalculator._process_time_point rational_libm example_args
    = Ok (MAPoptCalculator.arg_k example_args, estimate, fits)
    /\ (length fits <= 72)%nat
    /\ ((estimate = NaN /\ fits = [])
        \/ (within 40 90 estimate /\ fits <> [])).
Proof.
  assert (Ht : example_t <> []) by (vm_compute; discriminate).
  exact (@process_time_point_estimate rational_libm example_args Ht
           eq_refl eq_refl).
Defined.

Lemma first_hour_has_no_estimate_witness :
  @MAPoptCalculator._process_time_point rational_libm example_args_start
  = Ok (MAPoptCalculator.arg_k example_args_start, NaN, []).
Proof.
  assert (Ht : MAPoptCalculator.arg_t example_args_start
               = 0 :: tl example_t) by (vm_compute; reflexivity).
  assert (Hnow : MAPoptCalculator.arg_t_now example_args_start - 1 < 0)
    by reflexivity.
  exact (@first_hour_has_no_estimate rational_libm example_args_start 0
           (tl example_t) Ht eq_refl eq_refl Hnow).
Defined.


(** ** Exceptions of the worker *)

Section WorkerExceptions.

Import Config MAPoptCalculator.

Context {L : Libm}.

(** X8.  The sequential fallback does not absorb an exception of the
    worker: when the worker raises at some evaluation time, the scheduler
    ends with the exception of the first such time, whatever the pool
    does. *)
Theorem worker_exception_propagates (p : pool_behaviour)
  (time_vector t : list Q) (MAP rSO2 : list fl) (e : exn) :
  map_result _process_time_point
    (_prepare_processing_args time_vector t MAP rSO2) = Raise e ->
  _process_parallel p time_vector
    (_prepare_processing_args time_vector t MAP rSO2) = Raise e.
Proof.
  intro H. unfold _process_parallel.
  set (args := _prepare_processing_args time_vector t MAP rSO2) in *.
  assert (Hlen : length time_vector = length args)
    by (symmetry; apply prepare_from_length).
  assert (Hkeys : map arg_k args = seq 0 (length args)).
  { rewrite <- Hlen. apply prepare_from_keys. }
  rewrite (process_with_results _ process_time_point_key args Hkeys)
    by exact Hlen.
  unfold sequential_results. rewrite H. reflexivity.
Qed.

End WorkerExceptions.

Lemma worker_exception_propagates_witness :
  @MAPoptCalculator._process_parallel rational_libm
    (MAPoptCalculator.FailsAtDispatch 0) [0; 1 # 60]
    (MAPoptCalculator._prepare_processing_args [0; 1 # 60] []
       [Num 70] [Num 60])
  = Raise IndexError.
Proof.
  apply (@worker_exception_propagates rational_libm). reflexivity.
Defined.

(** ** Gaps and values of the post-processed series *)

Lemma ffill_from_app (l1 l2 : list fl) (v : Q) :
  forall last,
    ffill_from last (l1 ++ Num v :: l2)
    = ffill_from last l1 ++ Num v :: ffill_from (Num v) l2.
Proof.
  induction l1 as [|a l1 IH]; intro last; [reflexivity|].
  destruct a; cbn [app ffill_from]; rewrite IH; reflexivity.
Qed.

Lemma fills_keep_value (l1 l2 : list fl) (v : Q) :
  exists f1 f2,
    bfill (ffill (l1 ++ Num v :: l2)) = f1 ++ Num v :: f2
    /\ length f1 = length l1.
Proof.
  unfold bfill, ffill. rewrite ffill_from_app.
  rewrite rev_app_distr. cbn [rev]. rewrite <- app_assoc. cbn [app].
  rewrite ffill_from_app, rev_app_distr. cbn [rev].
  rewrite <- app_assoc. cbn [app].
  eexists. eexists. split; [reflexivity|].
  rewrite length_rev, ffill_from_length, length_rev, ffill_from_length.
  reflexivity.
Qed.

Lemma combine_seq_app {A : Type} (l1 l2 : list A) (x : A) :
  forall k,
    combine (seq k (length (l1 ++ x :: l2))) (l1 ++ x :: l2)
    = combine (seq k (length l1)) l1
      ++ ((k + length l1)%nat, x)
      :: combine (seq (S (k + length l1)) (length l2)) l2.
Proof.
  induction l1 as [|a l1 IH]; intro k.
  - cbn [app length seq combine]. rewrite Nat.add_0_r. reflexivity.
  - cbn [app length seq combine]. rewrite IH.
    replace (S k + length l1)%nat with (k + S (length l1))%nat by lia.
    reflexivity.
Qed.

Lemma interpolate_pchip_keeps_position (l1 l2 r : list fl) (v : Q) :
  interpolate_pchip (l1 ++ Num v :: l2) = Ok r ->
  exists r1 r2, r = r1 ++ Num v :: r2 /\ length r1 = length l1.
Proof.
  unfold interpolate_pchip.
  destruct (valid_points _) as [|[first_valid q] others].
  { intro H. injection H as <-. exists l1, l2. split; reflexivity. }
  destruct (forallb np_isfinite _).
  { intro H. injection H as <-. exists l1, l2. split; reflexivity. }
  destruct others as [|p others]; [discriminate|].
  intro H. injection H as <-.
  unfold indexed. rewrite combine_seq_app, map_app. cbn [map snd].
  eexists. eexists. split; [reflexivity|].
  rewrite length_map, length_combine, length_seq. apply Nat.min_id.
Qed.

Section KeptValues.

Import Config MAPoptCalculator.

(** X9.  Before the smoothing an estimate of the raw series is at its
    place in the filled series, clamped to [40, 90]: the interpolation and
    the two fills only write into gaps. *)
Theorem fill_and_clamp_keeps_estimates (raw filled : list fl) (i : nat)
  (q : Q) :
  fill_and_clamp raw = Ok filled ->
  nth_error raw i = Some (Num q) ->
  nth_error filled i = Some (Num (Qclip q 40 90)).
Proof.
  intros Hf Hi. apply nth_error_split in Hi.
  destruct Hi as (l1 & l2 & -> & Hlen).
  unfold fill_and_clamp in Hf.
  destruct (interpolate_pchip _) as [r|e] eqn:Er; cbn [bind] in Hf;
    [|discriminate].
  injection Hf as <-.
  destruct (interpolate_pchip_keeps_position _ _ _ _ Er)
    as (r1 & r2 & -> & Hr1).
  rewrite map_app. cbn [map np_clip].
  destruct (fills_keep_value
              (map (fun v => np_clip v MAP_OPT_MIN MAP_OPT_MAX) r1)
              (map (fun v => np_clip v MAP_OPT_MIN MAP_OPT_MAX) r2)
              (Qclip q MAP_OPT_MIN MAP_OPT_MAX)) as (f1 & f2 & E & Hf1).
  rewrite E. rewrite length_map in Hf1.
  rewrite nth_error_app2 by lia.
  replace (i - length f1)%nat with 0%nat by lia. reflexivity.
Qed.

Lemma fill_and_clamp_keeps_estimates_witness :
  nth_error [NaN; Num 35; NaN; Num 62; NaN] 3 = Some (Num 62)
  /\ exists filled,
       fill_and_clamp [NaN; Num 35; NaN; Num 62; NaN] = Ok filled
       /\ nth_error filled 3 = Some (Num (Qclip 62 40 90)).
Proof.
  split; [reflexivity|].
  assert (Hs : { f | fill_and_clamp [NaN; Num 35; NaN; Num 62; NaN]
                     = Ok f }).
  { eexists. vm_compute. reflexivity. }
  destruct Hs as [filled Hs]. exists filled. split; [exact Hs|].
  exact (fill_and_clamp_keeps_estimates
           [NaN; Num 35; NaN; Num 62; NaN] filled 3 62 Hs eq_refl).
Defined.

Lemma valid_points_repeat_nan (n : nat) :
  forall k,
    flat_map
      (fun p : nat * fl =>
         match snd p with Num q => [(fst p, q)] | NaN => [] end)
      (combine (seq k (length (repeat NaN n))) (repeat NaN n)) = [].
Proof.
  induction n as [|n IH]; intro k; [reflexivity|].
  cbn [repeat length seq combine flat_map snd app]. apply IH.
Qed.

Lemma ffill_from_repeat_nan (n : nat) :
  ffill_from NaN (repeat NaN n) = repeat NaN n.
Proof.
  induction n as [|n IH]; [reflexivity|].
  cbn [repeat ffill_from]. rewrite IH. reflexivity.
Qed.

Lemma rev_repeat {A : Type} (x : A) (n : nat) :
  rev (repeat x n) = repeat x n.
Proof.
  induction n as [|n IH]; [reflexivity|].
  cbn [repeat rev]. rewrite IH. clear IH.
  induction n as [|n IH]; [reflexivity|].
  cbn [repeat app]. rewrite IH. reflexivity.
Qed.

(** X10.  A raw series without any estimate, of any length down to the
    empty one, is not filled: it comes back from the interpolation, the
    clamp and the two fills as it is, all [nan]; up to 11 points this is
    what the post-processing returns. *)
Theorem series_without_estimate_stays_empty (n : nat) :
  fill_and_clamp (repeat NaN n) = Ok (repeat NaN n)
  /\ ((n <= 11)%nat ->
      _post_process_mapopt (repeat NaN n) = Ok (repeat NaN n)).
Proof.
  assert (Hf : fill_and_clamp (repeat NaN n) = Ok (repeat NaN n)).
  { unfold fill_and_clamp, interpolate_pchip, valid_points, indexed.
    rewrite valid_points_repeat_nan. cbn [bind].
    rewrite map_repeat. cbn [np_clip]. unfold bfill, ffill.
    rewrite ffill_from_repeat_nan, rev_repeat, ffill_from_repeat_nan,
      rev_repeat. reflexivity. }
  split; [exact Hf|].
  intro Hn. unfold _post_process_mapopt. rewrite Hf. cbn [bind].
  rewrite repeat_length. unfold SAVGOL_WINDOW.
  replace (11 <? n)%nat with false
    by (symmetry; apply Nat.ltb_ge; exact Hn).
  reflexivity.
Qed.

Lemma series_without_estimate_stays_empty_witness :
  fill_and_clamp (repeat NaN 5) = Ok (repeat NaN 5)
  /\ _post_process_mapopt (repeat NaN 5) = Ok (repeat NaN 5).
Proof.
  split.
  - exact (proj1 (series_without_estimate_stays_empty 5)).
  - apply (proj2 (series_without_estimate_stays_empty 5)).
    repeat constructor.
Defined.

Lemma forallb_filter_length {A : Type} (f : A -> bool) (l : list A) :
  forallb f l = true -> length (filter f l) = length l.
Proof.
  induction l as [|x l IH]; [reflexivity|]. cbn [forallb filter].
  intro H. apply andb_true_iff in H. destruct H as [Hx Hl].
  rewrite Hx. cbn [length]. rewrite (IH Hl). reflexivity.
Qed.

(** X11.  A raw series with exactly one estimate and at least one gap is
    refused: the interpolation needs two points, and the post-processing
    raises [ValueError]. *)
Theorem single_estimate_with_gap_raises (raw : list fl) :
  length (filter np_isfinite raw) = 1%nat ->
  (2 <= length raw)%nat ->
  _post_process_mapopt raw = Raise ValueError.
Proof.
  intros H1 H2.
  unfold _post_process_mapopt, fill_and_clamp, interpolate_pchip.
  pose proof (valid_points_count raw 0) as Hc.
  fold (indexed raw) in Hc. fold (valid_points raw) in Hc.
  rewrite H1 in Hc.
  destruct (valid_points raw) as [|[first_valid v] [|p others]];
    try discriminate.
  destruct (forallb np_isfinite raw) eqn:E; [|reflexivity].
  apply forallb_filter_length in E. lia.
Qed.

Lemma single_estimate_with_gap_raises_witness :
  _post_process_mapopt [NaN; NaN; Num 70; NaN] = Raise ValueError.
Proof.
  apply (single_estimate_with_gap_raises [NaN; NaN; Num 70; NaN]).
  - reflexivity.
  - repeat constructor.
Defined.

End KeptValues.


(** ** Smoothing of a constant series *)

Lemma fold_sum_spec (l : list Q) :
  forall a,
    fold_left (fun acc x => Qred (acc + x)) l a
    == a + fold_right Qplus 0 l.
Proof.
  induction l as [|x l IH]; intro a; cbn [fold_left fold_right].
  - ring.
  - rewrite IH, Qred_correct. ring.
Qed.

Lemma np_sum_spec (l : list Q) : np_sum l == fold_right Qplus 0 l.
Proof. unfold np_sum. rewrite fold_sum_spec. ring. Qed.

Lemma products_of_constant (c : Q) (w : list Q) :
  forall x,
    length x = length w -> Forall (fun v => v == c) x ->
    fold_right Qplus 0 (map (fun p => fst p * snd p) (combine w x))
    == c * fold_right Qplus 0 w.
Proof.
  induction w as [|a w IH]; intros [|b x] Hlen Hx; try discriminate.
  - cbn. ring.
  - inversion Hx as [|? ? Hb Hx']; subst. cbv beta in Hb.
    cbn [combine map fold_right fst snd].
    rewrite IH by (try assumption; simpl in Hlen; lia).
    rewrite Hb. ring.
Qed.

(** The weights of a fitted value add up to one. *)
Lemma savgol_weights_sum (pos : nat) :
  (pos < 11)%nat -> np_sum (fit_weights 11 3 pos) == 1.
Proof.
  intro H.
  do 11 (destruct pos as [|pos]; [vm_compute; reflexivity|]).
  lia.
Qed.

Lemma fit_weights_length (window order pos : nat) :
  length (fit_weights window order pos) = window.
Proof. unfold fit_weights. rewrite length_map, length_seq. reflexivity. Qed.

Lemma dot_of_constant (c : Q) (pos : nat) (x : list Q) :
  (pos < 11)%nat -> length x = 11%nat -> Forall (fun v => v == c) x ->
  dot (fit_weights 11 3 pos) x == c.
Proof.
  intros Hp Hlen Hx. unfold dot. rewrite np_sum_spec.
  rewrite (products_of_constant c (fit_weights 11 3 pos) x)
    by (try assumption; rewrite fit_weights_length; exact Hlen).
  rewrite <- np_sum_spec, (savgol_weights_sum pos Hp). ring.
Qed.

Lemma Forall_firstn {A : Type} (P : A -> Prop) (k : nat) :
  forall l, Forall P l -> Forall P (firstn k l).
Proof.
  induction k as [|k IH]; intros [|x l] H; cbn [firstn]; try constructor.
  - inversion H; assumption.
  - apply IH. inversion H; assumption.
Qed.

Lemma Forall_skipn {A : Type} (P : A -> Prop) (k : nat) :
  forall l, Forall P l -> Forall P (skipn k l).
Proof.
  induction k as [|k IH]; intros [|x l] H; cbn [skipn]; try assumption.
  apply IH. inversion H; assumption.
Qed.

(** The filter returns a constant series as it is. *)
Lemma savgol_values_of_constant (c : Q) (x : list Q) :
  (11 < length x)%nat -> Forall (fun v => v == c) x ->
  Forall (fun v => v == c) (savgol_values 11 3 x).
Proof.
  intros Hn Hx. unfold savgol_values.
  change (11 / 2)%nat with 5%nat.
  apply Forall_map. apply Forall_forall. intros i Hi.
  apply in_seq in Hi.
  destruct (i <? 5)%nat eqn:E1.
  - apply Nat.ltb_lt in E1. apply dot_of_constant; [lia| |].
    + rewrite length_firstn. lia.
    + apply Forall_firstn. exact Hx.
  - apply Nat.ltb_ge in E1.
    destruct (length x - 5 <=? i)%nat eqn:E2.
    + apply Nat.leb_le in E2. apply dot_of_constant; [lia| |].
      * rewrite length_skipn. lia.
      * apply Forall_skipn. exact Hx.
    + apply Nat.leb_gt in E2. apply dot_of_constant; [lia| |].
      * rewrite length_firstn, length_skipn. lia.
      * apply Forall_firstn. apply Forall_skipn. exact Hx.
Qed.

Lemma ffill_from_repeat_num (v : Q) (n : nat) :
  forall last, ffill_from last (repeat (Num v) n) = repeat (Num v) n.
Proof.
  induction n as [|n IH]; intro last; [reflexivity|].
  cbn [repeat ffill_from]. rewrite IH. reflexivity.
Qed.

Lemma all_finite_repeat (v : Q) (n : nat) :
  all_finite (repeat (Num v) n) = Some (repeat v n).
Proof.
  induction n as [|n IH]; [reflexivity|].
  unfold all_finite in *. cbn [repeat fold_right]. rewrite IH. reflexivity.
Qed.

Lemma forallb_repeat_num (v : Q) (n : nat) :
  forallb np_isfinite (repeat (Num v) n) = true.
Proof. induction n as [|n IH]; [reflexivity | exact IH]. Qed.

Lemma Qclip_inside (c lo hi : Q) : lo <= c <= hi -> Qclip c lo hi == c.
Proof.
  intros [H1 H2]. unfold Qclip, np_minimum, np_maximum.
  destruct (Qle_bool c lo) eqn:E1.
  - apply Qle_bool_iff in E1. destruct (Qle_bool lo hi) eqn:E2.
    + lra.
    + apply Qle_bool_false in E2. lra.
  - destruct (Qle_bool c hi) eqn:E2; [reflexivity|].
    apply Qle_bool_false in E2. lra.
Qed.

Section ConstantSeries.

Import Config MAPoptCalculator.

(** X12.  A raw series that is constant at a value of [40, 90], of any
    length and so with or without the smoothing, is returned by the
    post-processing with the same length and the same value at every
    point. *)
Theorem constant_series_is_preserved (c : Q) (n : nat) :
  40 <= c <= 90 ->
  exists out,
    _post_process_mapopt (repeat (Num c) n) = Ok out
    /\ length out = n
    /\ Forall (fun v => feq v (Num c)) out.
Proof.
  intro Hc.
  pose proof (Qclip_inside c 40 90 Hc) as Hclip.
  assert (Hf : fill_and_clamp (repeat (Num c) n)
               = Ok (repeat (Num (Qclip c 40 90)) n)).
  { unfold fill_and_clamp, interpolate_pchip.
    rewrite forallb_repeat_num.
    assert (Hi : match valid_points (repeat (Num c) n) with
                 | [] => Ok (repeat (Num c) n)
                 | (_, _) :: _ => Ok (repeat (Num c) n)
                 end = Ok (repeat (Num c) n)).
    { destruct (valid_points _) as [|[fv v] o]; reflexivity. }
    rewrite Hi. cbn [bind]. rewrite map_repeat. cbn [np_clip].
    unfold bfill, ffill.
    rewrite ffill_from_repeat_num, rev_repeat, ffill_from_repeat_num,
      rev_repeat. reflexivity. }
  unfold _post_process_mapopt. rewrite Hf. cbn [bind].
  rewrite repeat_length. unfold SAVGOL_WINDOW.
  destruct (11 <? n)%nat eqn:E.
  - apply Nat.ltb_lt in E. unfold savgol_filter, SAVGOL_ORDER.
    rewrite all_finite_repeat.
    eexists. split; [reflexivity|]. split.
    + rewrite length_map, savgol_values_length, repeat_length. reflexivity.
    + apply Forall_map.
      eapply Forall_impl;
        [|apply (savgol_values_of_constant (Qclip c 40 90))].
      * intros v Hv. cbn [feq]. rewrite Hv. exact Hclip.
      * rewrite repeat_length. exact E.
      * apply Forall_forall. intros v Hv. apply repeat_spec in Hv.
        subst. reflexivity.
  - eexists. split; [reflexivity|]. split; [apply repeat_length|].
    apply Forall_forall. intros v Hv. apply repeat_spec in Hv. subst.
    exact Hclip.
Qed.

Lemma constant_series_is_preserved_witness :
  exists out,
    _post_process_mapopt (repeat (Num 70) 15) = Ok out
    /\ length out = 15%nat
    /\ Forall (fun v => feq v (Num 70)) out.
Proof.
  apply (constant_series_is_preserved 70 15). split; discriminate.
Defined.

End ConstantSeries.


(** ** How far the smoothing leaves the band *)

(** A weighted sum of values of an interval is within the interval scaled by
    the sum of the weights, up to the width of the interval times the
    negative weights. *)
Lemma weighted_sum_bounds (lo hi : Q) (w : list Q) :
  forall x,
    length x = length w -> Forall (fun v => lo <= v <= hi) x ->
    lo * fold_right Qplus 0 w - (hi - lo) * negative_weight w
    <= fold_right Qplus 0 (map (fun p => fst p * snd p) (combine w x))
    <= hi * fold_right Qplus 0 w + (hi - lo) * negative_weight w.
Proof.
  induction w as [|a w IH]; intros [|b x] Hlen Hx; try discriminate.
  - cbn. lra.
  - inversion Hx as [|? ? Hb Hx']; subst. cbv beta in Hb.
    assert (Hl : length x = length w) by (simpl in Hlen; lia).
    specialize (IH x Hl Hx').
    cbn [combine map fold_right fst snd negative_weight] in *.
    fold (negative_weight w) in *.
    unfold np_maximum. destruct (Qle_bool (- a) 0) eqn:E.
    + apply Qle_bool_iff in E. split; nra.
    + apply Qle_bool_false in E. split; nra.
Qed.

Lemma savgol_negative_weight (pos : nat) :
  (pos < 11)%nat -> negative_weight (fit_weights 11 3 pos) <= 5 # 13.
Proof.
  intro H.
  do 11 (destruct pos as [|pos]; [vm_compute; discriminate|]).
  lia.
Qed.

Lemma negative_weight_nonneg (w : list Q) : 0 <= negative_weight w.
Proof.
  induction w as [|a w IH]; cbn [negative_weight fold_right]; [lra|].
  fold (negative_weight w).
  destruct (np_maximum_cases (- a) 0) as (_ & _ & H). lra.
Qed.

Lemma dot_within_band (pos : nat) (x : list Q) :
  (pos < 11)%nat -> length x = 11%nat ->
  Forall (fun v => 40 <= v <= 90) x ->
  270 # 13 <= dot (fit_weights 11 3 pos) x <= 1420 # 13.
Proof.
  intros Hp Hlen Hx. unfold dot. rewrite np_sum_spec.
  pose proof (weighted_sum_bounds 40 90 (fit_weights 11 3 pos) x) as H.
  rewrite fit_weights_length in H. specialize (H Hlen Hx).
  rewrite <- np_sum_spec, (savgol_weights_sum pos Hp) in H.
  pose proof (savgol_negative_weight pos Hp).
  pose proof (negative_weight_nonneg (fit_weights 11 3 pos)).
  lra.
Qed.

Lemma savgol_values_within_band (x : list Q) :
  (11 < length x)%nat -> Forall (fun v => 40 <= v <= 90) x ->
  Forall (fun v => 270 # 13 <= v <= 1420 # 13) (savgol_values 11 3 x).
Proof.
  intros Hn Hx. unfold savgol_values.
  change (11 / 2)%nat with 5%nat.
  apply Forall_map. apply Forall_forall. intros i Hi.
  apply in_seq in Hi.
  destruct (i <? 5)%nat eqn:E1.
  - apply Nat.ltb_lt in E1. apply dot_within_band; [lia| |].
    + rewrite length_firstn. lia.
    + apply Forall_firstn. exact Hx.
  - apply Nat.ltb_ge in E1.
    destruct (length x - 5 <=? i)%nat eqn:E2.
    + apply Nat.leb_le in E2. apply dot_within_band; [lia| |].
      * rewrite length_skipn. lia.
      * apply Forall_skipn. exact Hx.
    + apply Nat.leb_gt in E2. apply dot_within_band; [lia| |].
      * rewrite length_firstn, length_skipn. lia.
      * apply Forall_firstn. apply Forall_skipn. exact Hx.
Qed.

Lemma all_finite_values (lo hi : Q) (l : list fl) :
  Forall (within lo hi) l ->
  exists qs, all_finite l = Some qs
             /\ length qs = length l
             /\ Forall (fun v => lo <= v <= hi) qs.
Proof.
  induction 1 as [|a l Ha _ (qs & E & Hlen & Hq)].
  - exists []. repeat split. constructor.
  - destruct a as [|q]; [contradiction|].
    exists (q :: qs). unfold all_finite in *. cbn [fold_right].
    rewrite E. cbn [length]. rewrite Hlen.
    repeat split. constructor; assumption.
Qed.

Section OvershootBound.

Import Config MAPoptCalculator.

Lemma fill_and_clamp_within (raw filled : list fl) :
  (exists q, In (Num q) raw) ->
  fill_and_clamp raw = Ok filled ->
  length filled = length raw /\ Forall (within 40 90) filled.
Proof.
  intros [q0 Hq0] Hf. unfold fill_and_clamp in Hf.
  destruct (interpolate_pchip raw) as [r|e] eqn:Er; cbn [bind] in Hf;
    [|discriminate].
  injection Hf as <-.
  destruct (interpolate_pchip_keeps raw r Er) as [Hlen Hkeep].
  split.
  - rewrite fills_length, length_map. exact Hlen.
  - apply fills_leave_no_gap.
    + apply Forall_map. apply Forall_forall. intros a _.
      destruct a as [|q]; [exact I|]. apply Qclip_bounds. discriminate.
    + exists (Qclip q0 MAP_OPT_MIN MAP_OPT_MAX).
      apply in_map_iff. exists (Num q0). split; [reflexivity|].
      apply Hkeep. exact Hq0.
Qed.

(** X13.  Whenever the post-processing of a raw series with an estimate
    returns, every value of the series returned lies in
    [270/13, 1420/13] mmHg, that is within 250/13 (about 19.2) mmHg of the
    band [40, 90]: the smoothing can leave the band, but no farther. *)
Theorem post_process_overshoot_bound (raw out : list fl) :
  (exists q, In (Num q) raw) ->
  _post_process_mapopt raw = Ok out ->
  Forall (within (270 # 13) (1420 # 13)) out.
Proof.
  intros Hex Hp. unfold _post_process_mapopt in Hp.
  destruct (fill_and_clamp raw) as [filled|e] eqn:Ef; cbn [bind] in Hp;
    [|discriminate].
  destruct (fill_and_clamp_within raw filled Hex Ef) as [Hlen Hw].
  unfold SAVGOL_WINDOW, SAVGOL_ORDER in Hp.
  destruct (11 <? length filled)%nat eqn:E.
  - apply Nat.ltb_lt in E. injection Hp as <-.
    destruct (all_finite_values 40 90 filled Hw) as (qs & Eq & Hql & Hq).
    unfold savgol_filter. rewrite Eq. apply Forall_map.
    eapply Forall_impl; [|apply savgol_values_within_band].
    + intros v Hv. exact Hv.
    + rewrite Hql. exact E.
    + exact Hq.
  - injection Hp as <-. eapply Forall_impl; [|exact Hw].
    intros [|q] Hq; [contradiction|]. cbn [within] in *. lra.
Qed.

Lemma post_process_overshoot_bound_witness :
  exists out,
    _post_process_mapopt example_raw = Ok out
    /\ Forall (within (270 # 13) (1420 # 13)) out.
Proof.
  assert (Hs : { o | _post_process_mapopt example_raw = Ok o }).
  { eexists. vm_compute. reflexivity. }
  destruct Hs as [out Hs]. exists out. split; [exact Hs|].
  apply (post_process_overshoot_bound example_raw out); [|exact Hs].
  exists 40. left. reflexivity.
Defined.

End OvershootBound.


(** ** The Fisher transform outside of the clip bound *)

Section FisherSaturation.

Import RealFisher.

Local Open Scope R_scope.

Lemma clip_range (r lo hi : R) : lo <= hi -> lo <= clip r lo hi <= hi.
Proof.
  intro H. unfold clip, Rmin, Rmax.
  destruct (Rle_dec r lo); destruct (Rle_dec _ hi); lra.
Qed.

(** X14.  For every correlation, also one at or beyond the clip bound, the
    inverse transform of the forward transform is the correlation clipped to
    [-0.999, 0.999]; and the forward transform is bounded by the transform
    of the bound, [0.5 * ln 1999]. *)
Theorem fisher_round_trip_saturates (r : R) :
  inverse_fisher_transform (fisher_transform r)
  = clip r (- FISHER_BOUNDS) FISHER_BOUNDS
  /\ Rabs (fisher_transform r) <= 1 / 2 * ln 1999.
Proof.
  unfold inverse_fisher_transform, fisher_transform. cbv zeta.
  pose proof (clip_range r (- FISHER_BOUNDS) FISHER_BOUNDS) as Hc.
  unfold FISHER_BOUNDS in *.
  set (c := clip r (- (999 / 1000)) (999 / 1000)) in *.
  assert (Hc' : - (999 / 1000) <= c <= 999 / 1000) by (apply Hc; lra).
  assert (Hpos : 0 < (1 + c) / (1 - c)) by (apply Rdiv_lt_0_compat; lra).
  split.
  - rewrite tanh_half_ln by exact Hpos. field. lra.
  - assert (Hup : (1 + c) / (1 - c) <= 1999).
    { apply Rmult_le_reg_r with (1 - c); [lra|].
      unfold Rdiv. rewrite Rmult_assoc, Rinv_l by lra. lra. }
    assert (Hlow : / 1999 <= (1 + c) / (1 - c)).
    { apply Rmult_le_reg_r with (1 - c); [lra|].
      unfold Rdiv. rewrite Rmult_assoc, Rinv_l by lra. lra. }
    assert (H1 : ln ((1 + c) / (1 - c)) <= ln 1999).
    { destruct Hup as [Hup|Hup]; [left; apply ln_increasing; lra|].
      rewrite Hup. lra. }
    assert (H2 : - ln 1999 <= ln ((1 + c) / (1 - c))).
    { rewrite <- ln_Rinv by lra.
      destruct Hlow as [Hlow|Hlow].
      - left. apply ln_increasing; [|exact Hlow].
        apply Rinv_0_lt_compat. lra.
      - rewrite Hlow. lra. }
    apply Rabs_le. lra.
Qed.

End FisherSaturation.


(** ** The state of the burden engine *)

Section BurdenState.

Import Config BurdenCalculator.

Lemma zip_with_map_same {A B C D : Type} (f : B -> C -> D) (g1 : A -> B)
  (g2 : A -> C) (l : list A) :
  zip_with f (map g1 l) (map g2 l) = map (fun x => f (g1 x) (g2 x)) l.
Proof.
  unfold zip_with. rewrite combine_map_same, map_map. reflexivity.
Qed.

Lemma map_fst_combine_same {A B : Type} (a : list A) :
  forall b : list B, length a = length b -> map fst (combine a b) = a.
Proof.
  induction a as [|x a IH]; intros [|y b] H; try discriminate;
    [reflexivity|].
  cbn [combine map fst]. rewrite IH by (simpl in H; lia). reflexivity.
Qed.

Lemma map_snd_combine_same {A B : Type} (a : list A) :
  forall b : list B, length a = length b -> map snd (combine a b) = b.
Proof.
  induction a as [|x a IH]; intros [|y b] H; try discriminate;
    [reflexivity|].
  cbn [combine map snd]. rewrite IH by (simpl in H; lia). reflexivity.
Qed.

Lemma np_interp_returns (xp : list Q) (fp : list fl) (tv : list Q) :
  xp <> [] -> fp <> [] ->
  exists mi,
    MAPoptCalculator.map_result (fun x => np_interp x xp fp) tv = Ok mi
    /\ length mi = length tv.
Proof.
  intros Hx Hf.
  destruct (map_result_total (fun x => np_interp x xp fp) tv) as [mi Hmi].
  - intros x _. unfold np_interp.
    destruct xp as [|x0 xp]; [contradiction|].
    destruct fp as [|f0 fp]; [contradiction|].
    destruct (Qle_bool x x0); eexists; reflexivity.
  - exists mi. split; [exact Hmi|].
    apply (map_result_length _ _ _ Hmi).
Qed.

(** A sample is not above and below the band at once. *)
Lemma not_above_and_below (a b : fl) :
  fgt a (fadd b (Num BURDEN_BOUNDS)) && flt a (fsub b (Num BURDEN_BOUNDS))
  = false.
Proof.
  destruct a as [|x]; destruct b as [|y]; try reflexivity.
  unfold BURDEN_BOUNDS. cbn [fadd fsub fl_lift2 fgt flt].
  destruct (Qltb (Qred (y + 5)) x) eqn:E1; [|reflexivity].
  destruct (Qltb x (Qred (y - 5))) eqn:E2; [|reflexivity].
  apply Qltb_lt in E1, E2. rewrite Qred_correct in E1, E2. lra.
Qed.

Lemma excess_above_nonneg (a b : fl) :
  nonneg_or_nan
    (if fgt a (fadd b (Num BURDEN_BOUNDS))
     then fsub a (fadd b (Num BURDEN_BOUNDS)) else Num 0).
Proof.
  destruct a as [|x]; destruct b as [|y]; try (cbn; lra).
  cbn [fadd fsub fl_lift2 fgt flt].
  destruct (Qltb _ x) eqn:E; cbn [nonneg_or_nan]; [|lra].
  apply Qltb_lt in E. rewrite Qred_correct. lra.
Qed.

Lemma excess_below_nonneg (a b : fl) :
  nonneg_or_nan
    (if flt a (fsub b (Num BURDEN_BOUNDS))
     then fsub (fsub b (Num BURDEN_BOUNDS)) a else Num 0).
Proof.
  destruct a as [|x]; destruct b as [|y]; try (cbn; lra).
  cbn [fadd fsub fl_lift2 fgt flt].
  destruct (Qltb x _) eqn:E; cbn [nonneg_or_nan]; [|lra].
  apply Qltb_lt in E. rewrite Qred_correct. lra.
Qed.

(** The state computed from data that are not empty. *)
Lemma deviation_state_computed (self : State) (data_time : list Q)
  (data_MAP : list fl) (time_vector : list Q) (mapopt_filled : list fl) :
  data_time <> [] -> data_MAP <> [] ->
  length mapopt_filled = length time_vector ->
  exists st,
    calculate_deviation_and_burden self data_time data_MAP time_vector
      mapopt_filled = Ok st
    /\ burden_state_ok st (length time_vector).
Proof.
  intros Hx Hf Hlen.
  destruct (np_interp_returns data_time data_MAP time_vector Hx Hf)
    as (mi & Hmi & Hml).
  unfold calculate_deviation_and_burden. rewrite Hmi. cbn [bind].
  replace (length mi =? length mapopt_filled)%nat with true
    by (symmetry; apply Nat.eqb_eq; lia).
  cbn [negb].
  assert (Hc : length mi = length mapopt_filled) by lia.
  pose (c := combine mi mapopt_filled).
  assert (Hcl : length c = length time_vector).
  { unfold c. rewrite length_combine. lia. }
  assert (Emi : mi = map fst c)
    by (symmetry; apply map_fst_combine_same; exact Hc).
  assert (Emo : mapopt_filled = map snd c)
    by (symmetry; apply map_snd_combine_same; exact Hc).
  clearbody c. clear Hmi Hml Hc Hlen. subst mi mapopt_filled.
  rewrite !map_map.
  rewrite !zip_with_map_same. rewrite ?map_map. cbn [fst snd].
  eexists. split; [reflexivity|].
  do 8 eexists. split; [reflexivity|].
  split; [rewrite !length_map; repeat split; exact Hcl|].
  split.
  { apply Forall_map. apply Forall_forall. intros [a b] _. cbn [fst snd].
    destruct (fsub a b) as [|d]; [exact I|].
    apply Qclip_bounds. discriminate. }
  split.
  { unfold zip_with. rewrite combine_map_same. apply Forall_map.
    apply Forall_forall. intros [a b] _. cbn [fst snd].
    apply not_above_and_below. }
  split.
  { rewrite zip_with_map_same. reflexivity. }
  split.
  { apply Forall_map. apply Forall_forall. intros [a b] _. cbn [fst snd].
    apply excess_above_nonneg. }
  apply Forall_map. apply Forall_forall. intros [a b] _. cbn [fst snd].
  apply excess_below_nonneg.
Qed.

(** X15.  On data that are not empty and a series as long as the time
    grid, [calculate_deviation_and_burden] returns a state whose eight
    arrays have the length of the grid, whose deviations are clipped to
    [-50, 50], in which no sample is above and below the band at once, in
    which a sample is outside when it is above or below, and whose excesses
    are never negative. *)
Theorem deviation_state_invariants (self : State) (data_time : list Q)
  (data_MAP : list fl) (time_vector : list Q) (mapopt_filled : list fl) :
  data_time <> [] -> data_MAP <> [] ->
  length mapopt_filled = length time_vector ->
  exists st,
    calculate_deviation_and_burden self data_time data_MAP time_vector
      mapopt_filled = Ok st
    /\ burden_state_ok st (length time_vector).
Proof.
  exact (deviation_state_computed self data_time data_MAP time_vector
           mapopt_filled).
Qed.

Lemma deviation_state_invariants_witness :
  exists st,
    calculate_deviation_and_burden __init__ [0; 1; 2]
      [Num 100; Num 60; Num 70] [0; 1 # 2; 1; 2]
      [Num 70; Num 70; Num 70; NaN] = Ok st
    /\ burden_state_ok st (length [0; 1 # 2; 1; 2]).
Proof.
  apply (deviation_state_invariants __init__ [0; 1; 2]
           [Num 100; Num 60; Num 70] [0; 1 # 2; 1; 2]
           [Num 70; Num 70; Num 70; NaN]);
    [discriminate | discriminate | reflexivity].
Defined.

End BurdenState.


(** ** Burden queries on a computed state *)

Lemma mask_select_count (mask : list bool) :
  forall l : list bool,
    (count_true (mask_select mask l) <= count_true mask)%Z.
Proof.
  induction mask as [|b mask IH]; intros l.
  - destruct l; cbn [mask_select]; unfold count_true; simpl; lia.
  - pose proof (count_true_bounds (b :: mask)) as Hb.
    destruct l as [|x l]; cbn [mask_select].
    + unfold count_true at 1. simpl. lia.
    + specialize (IH l). rewrite count_true_cons in *.
      destruct b; [rewrite count_true_cons; destruct x|]; lia.
Qed.

Lemma np_any_count (mask : list bool) :
  np_any mask = true -> (0 < count_true mask)%Z.
Proof.
  induction mask as [|b mask IH]; [discriminate|].
  unfold np_any in *. cbn [existsb]. rewrite count_true_cons.
  pose proof (count_true_bounds mask).
  destruct b; [lia|]. cbn [orb]. intro H'. specialize (IH H'). lia.
Qed.

Lemma mask_select_all_true {A : Type} (mask : list bool) :
  forall l : list A,
    length mask = length l -> Forall (fun b => b = true) mask ->
    mask_select mask l = l.
Proof.
  induction mask as [|b mask IH]; intros [|x l] Hlen Hall;
    try discriminate; [reflexivity|].
  inversion Hall; subst. cbn [mask_select].
  rewrite IH by (try assumption; simpl in Hlen; lia). reflexivity.
Qed.

Lemma count_true_all_true (mask : list bool) :
  Forall (fun b => b = true) mask -> count_true mask = len mask.
Proof.
  induction 1 as [|b mask Hb _ IH]; [reflexivity|].
  rewrite count_true_cons, IH, Hb. unfold len. cbn [length]. lia.
Qed.

Lemma np_any_all_true (mask : list bool) :
  mask <> [] -> Forall (fun b => b = true) mask -> np_any mask = true.
Proof.
  intros Hne Hall. destruct Hall as [|b mask Hb _]; [congruence|].
  rewrite Hb. reflexivity.
Qed.

(** A percentage: a count out of a larger positive count, times 100. *)
Lemma percentage_range (c n : Z) :
  (0 <= c <= n)%Z -> (0 < n)%Z ->
  within 0 100
    (fmul (fdiv (Num (inject_Z c)) (Num (inject_Z n))) (Num 100)).
Proof.
  intros Hc Hn. cbn [fdiv].
  assert (Hq : 0 < inject_Z n).
  { change 0 with (inject_Z 0). rewrite <- Zlt_Qlt. exact Hn. }
  assert (Hc0 : 0 <= inject_Z c).
  { change 0 with (inject_Z 0). rewrite <- Zle_Qle. lia. }
  assert (Hcn : inject_Z c <= inject_Z n) by (rewrite <- Zle_Qle; lia).
  assert (En : Qeq_bool (inject_Z n) 0 = false)
    by (apply Qeq_bool_false; lra).
  rewrite En. cbn [fmul fl_lift2 within]. rewrite !Qred_correct.
  assert (H0 : 0 <= inject_Z c / inject_Z n)
    by (apply Qle_shift_div_l; lra).
  assert (H1 : inject_Z c / inject_Z n <= 1)
    by (apply Qle_shift_div_r; lra).
  split; lra.
Qed.

Section BurdenQueries.

Import Config BurdenCalculator.

Lemma subscript_ok {A : Type} (l : list A) (mask : list bool) :
  length l = length mask ->
  subscript (Some l) mask = Ok (mask_select mask l).
Proof.
  intro H. unfold subscript.
  replace (length l =? length mask)%nat with true
    by (symmetry; apply Nat.eqb_eq; exact H).
  reflexivity.
Qed.

(** The trapezoidal integral of values that are not negative, over times
    that do not decrease, is not negative. *)
Lemma np_trapz_nonneg (y : list fl) :
  forall x,
    Forall nonneg_or_nan y -> StronglySorted Qle x ->
    nonneg_or_nan (np_trapz y x).
Proof.
  induction y as [|y0 y IH]; intros x Hy Hx; [cbn; lra|].
  destruct y as [|y1 y]; [cbn; lra|].
  destruct x as [|x0 x]; [cbn; lra|].
  destruct x as [|x1 x]; [cbn; lra|].
  inversion Hy as [|? ? Hy0 Hy']; subst.
  inversion Hx as [|? ? Hx' Hx0]; subst.
  specialize (IH (x1 :: x) Hy' Hx').
  inversion Hy' as [|? ? Hy1 _]; subst.
  inversion Hx0 as [|? ? Hx01 _]; subst.
  change (np_trapz (y0 :: y1 :: y) (x0 :: x1 :: x))
    with (fadd (fdiv (fmul (Num (x1 - x0)) (fadd y1 y0)) (Num 2))
               (np_trapz (y1 :: y) (x1 :: x))).
  destruct (np_trapz (y1 :: y) (x1 :: x)) as [|r];
    [destruct (fdiv _ _); exact I|].
  destruct y0 as [|a]; [destruct y1; exact I|].
  destruct y1 as [|b]; [exact I|].
  cbn [nonneg_or_nan] in *.
  cbn [fadd fmul fdiv fl_lift2]. change (Qeq_bool 2 0) with false.
  cbn [fadd fl_lift2 nonneg_or_nan]. rewrite !Qred_correct.
  assert (0 <= (x1 - x0) * (b + a)) by nra.
  assert (0 <= (x1 - x0) * (b + a) / 2) by (apply Qle_shift_div_l; lra).
  lra.
Qed.

Lemma mask_select_sorted (mask : list bool) :
  forall x, StronglySorted Qle x -> StronglySorted Qle (mask_select mask x).
Proof.
  induction mask as [|b mask IH]; intros [|x0 x] Hx; cbn [mask_select];
    try constructor.
  inversion Hx as [|? ? Hx' Hx0]; subst.
  destruct b; [|apply IH; exact Hx'].
  constructor; [apply IH; exact Hx'|].
  apply mask_select_Forall. exact Hx0.
Qed.

Lemma zip_with_nonneg (a b : list fl) :
  Forall nonneg_or_nan a -> Forall nonneg_or_nan b ->
  Forall nonneg_or_nan (zip_with fadd a b).
Proof.
  intro Ha. revert b.
  induction Ha as [|x a Hx _ IH]; intros b Hb; [constructor|].
  destruct Hb as [|y b Hy Hb]; [constructor|].
  unfold zip_with in *. cbn [combine map fst snd].
  constructor; [|apply IH; exact Hb].
  destruct x as [|p]; [exact I|]. destruct y as [|q]; [exact I|].
  cbn [fadd fl_lift2 nonneg_or_nan] in *. rewrite Qred_correct. lra.
Qed.

Lemma area_burden_returns (st : State) (time_vector : list Q)
  (time_idx : list bool) :
  burden_state_ok st (length time_vector) ->
  length time_idx = length time_vector ->
  exists area,
    _calculate_area_burden st time_vector time_idx = Ok area
    /\ (StronglySorted Qle time_vector -> nonneg_or_nan area).
Proof.
  intros (dev & lower & upper & ou & ol & ob & ea & eb & -> & Hl & _ & _
          & _ & Hea & Heb) Hm.
  destruct Hl as (_ & Hlo & Hup & _ & _ & _ & Hla & Hlb).
  unfold _calculate_area_burden.
  cbn [excess_above excess_below upper_bound lower_bound].
  rewrite !subscript_ok by lia. cbn [bind].
  destruct (fgt _ (Num 0)) eqn:E.
  - eexists. split; [reflexivity|]. intro Hs.
    pose proof (np_trapz_nonneg
                  (zip_with fadd (mask_select time_idx ea)
                     (mask_select time_idx eb))
                  (mask_select time_idx time_vector)
                  (zip_with_nonneg _ _
                     (mask_select_Forall _ _ _ Hea)
                     (mask_select_Forall _ _ _ Heb))
                  (mask_select_sorted _ _ Hs)) as Ho.
    unfold fgt, flt in E.
    destruct (np_trapz (zip_with fsub _ _) _) as [|s]; [discriminate|].
    apply Qltb_lt in E.
    destruct (np_trapz (zip_with fadd _ _) _) as [|o]; [exact I|].
    cbn [fdiv]. replace (Qeq_bool s 0) with false
      by (symmetry; apply Qeq_bool_false; lra).
    cbn [fmul fl_lift2 nonneg_or_nan] in *. rewrite !Qred_correct.
    assert (0 <= o / s) by (apply Qle_shift_div_l; lra). lra.
  - eexists. split; [reflexivity|]. intros _. cbn. lra.
Qed.

(** A burden query on a computed state returns. *)
Lemma burden_query_returns (st : State) (first : Q) (rest : list Q)
  (t_start t_end : Q) :
  burden_state_ok st (length (first :: rest)) ->
  exists r,
    calculate_burden_metrics st (first :: rest) t_start t_end = Ok r
    /\ t_start_hr r = py_max t_start first
    /\ t_end_hr r = py_min t_end (last (first :: rest) first)
    /\ within 0 100 (time_burden r)
    /\ (StronglySorted Qle (first :: rest) ->
        nonneg_or_nan (area_burden_ratio r)).
Proof.
  intro Hok.
  set (tv := first :: rest) in *.
  set (idx := map (in_range (py_max t_start first)
                            (py_min t_end (last tv first))) tv).
  assert (Hidx : length idx = length tv) by (unfold idx; apply length_map).
  destruct (area_burden_returns st tv idx Hok Hidx) as (area & Ha & Hpos).
  destruct Hok as (dev & lower & upper & ou & ol & ob & ea & eb & Est & Hl
                   & _).
  destruct Hl as (_ & _ & _ & _ & _ & Hob & _ & _).
  assert (Hout : outside_bounds st = Some ob)
    by (rewrite Est; reflexivity).
  unfold calculate_burden_metrics. rewrite Hout. subst tv.
  cbv beta iota zeta. fold idx.
  destruct (np_any idx) eqn:Eany; cbn [negb].
  - rewrite subscript_ok by lia. cbn [bind]. rewrite Ha. cbn [bind].
    eexists. split; [reflexivity|].
    cbn [t_start_hr t_end_hr time_burden area_burden_ratio].
    split; [reflexivity|]. split; [reflexivity|]. split; [|exact Hpos].
    apply percentage_range.
    + pose proof (count_true_bounds (mask_select idx ob)).
      pose proof (mask_select_count idx ob). lia.
    + apply np_any_count. exact Eany.
  - eexists. split; [reflexivity|].
    cbn [t_start_hr t_end_hr time_burden area_burden_ratio within
         nonneg_or_nan].
    repeat split; lra.
Qed.

(** X16.  Once the deviations have been computed on a time grid that is
    not empty, a burden query never raises: it returns the range clamped to
    the grid, a time burden between 0 and 100 percent, and, when the times
    of the grid do not decrease, an area burden ratio that is [nan] or not
    negative. *)
Theorem burden_metrics_returns (st : State) (first : Q) (rest : list Q)
  (t_start t_end : Q) :
  burden_state_ok st (length (first :: rest)) ->
  exists r,
    calculate_burden_metrics st (first :: rest) t_start t_end = Ok r
    /\ t_start_hr r = py_max t_start first
    /\ t_end_hr r = py_min t_end (last (first :: rest) first)
    /\ within 0 100 (time_burden r)
    /\ (StronglySorted Qle (first :: rest) ->
        nonneg_or_nan (area_burden_ratio r)).
Proof.
  exact (burden_query_returns st first rest t_start t_end).
Qed.

(** A query over the whole grid selects every sample. *)
Lemma full_range_query (st : State) (outside : list bool) (first : Q)
  (rest : list Q) (t_start t_end : Q) :
  burden_state_ok st (length (first :: rest)) ->
  outside_bounds st = Some outside ->
  (forall t, In t (first :: rest) ->
             first <= t <= last (first :: rest) first) ->
  t_start <= first -> last (first :: rest) first <= t_end ->
  exists r,
    calculate_burden_metrics st (first :: rest) t_start t_end = Ok r
    /\ time_burden r
       = fmul (fdiv (Num (inject_Z (count_true outside)))
                    (Num (inject_Z (len (first :: rest)))))
              (Num 100).
Proof.
  intros Hok Hout Hall Hs He.
  set (tv := first :: rest) in *.
  set (idx := map (in_range (py_max t_start first)
                            (py_min t_end (last tv first))) tv).
  assert (Hidx : length idx = length tv) by (unfold idx; apply length_map).
  assert (Htrue : Forall (fun b => b = true) idx).
  { unfold idx. apply Forall_map. apply Forall_forall. intros t Ht.
    apply in_range_spec. specialize (Hall t Ht).
    unfold py_max, py_min.
    destruct (Qltb t_start first) eqn:E1;
      destruct (Qltb (last tv first) t_end) eqn:E2;
      try apply Qltb_ge in E1; try apply Qltb_ge in E2; lra. }
  destruct (area_burden_returns st tv idx Hok Hidx) as (area & Ha & _).
  destruct Hok as (dev & lower & upper & ou & ol & ob & ea & eb & Est & Hl
                   & _).
  destruct Hl as (_ & _ & _ & _ & _ & Hob & _ & _).
  assert (Eob : ob = outside).
  { rewrite Est in Hout. cbn [outside_bounds] in Hout. congruence. }
  subst ob.
  unfold calculate_burden_metrics. rewrite Hout. subst tv.
  cbv beta iota zeta. fold idx.
  assert (Eany : np_any idx = true).
  { apply np_any_all_true; [|exact Htrue].
    unfold idx. cbn [map]. discriminate. }
  rewrite Eany. cbn [negb].
  rewrite subscript_ok by lia. cbn [bind]. rewrite Ha. cbn [bind].
  eexists. split; [reflexivity|]. cbn [time_burden].
  rewrite (mask_select_all_true idx outside) by (try assumption; lia).
  rewrite (count_true_all_true idx Htrue).
  unfold len. rewrite Hidx. reflexivity.
Qed.

(** X17.  A query over a range that covers the whole grid, as the default
    range from the first to the last time does on a grid that does not
    decrease, selects every sample: its time burden is the share of all
    samples outside the band. *)
Theorem full_range_burden (st : State) (outside : list bool) (first : Q)
  (rest : list Q) (t_start t_end : Q) :
  burden_state_ok st (length (first :: rest)) ->
  outside_bounds st = Some outside ->
  (forall t, In t (first :: rest) ->
             first <= t <= last (first :: rest) first) ->
  t_start <= first -> last (first :: rest) first <= t_end ->
  exists r,
    calculate_burden_metrics st (first :: rest) t_start t_end = Ok r
    /\ time_burden r
       = fmul (fdiv (Num (inject_Z (count_true outside)))
                    (Num (inject_Z (len (first :: rest)))))
              (Num 100).
Proof.
  exact (full_range_query st outside first rest t_start t_end).
Qed.

End BurdenQueries.

Lemma burden_metrics_returns_witness :
  exists r,
    BurdenCalculator.calculate_burden_metrics example_state [0; 1; 2]
      (1 # 2) 5 = Ok r
    /\ BurdenCalculator.t_start_hr r = BurdenCalculator.py_max (1 # 2) 0
    /\ BurdenCalculator.t_end_hr r
       = BurdenCalculator.py_min 5 (last [0; 1; 2] 0)
    /\ within 0 100 (BurdenCalculator.time_burden r)
    /\ (StronglySorted Qle [0; 1; 2] ->
        nonneg_or_nan (BurdenCalculator.area_burden_ratio r)).
Proof.
  apply (burden_metrics_returns example_state 0 [1; 2] (1 # 2) 5).
  unfold burden_state_ok, example_state. do 8 eexists.
  split; [reflexivity|].
  split; [repeat split; reflexivity|].
  split; [repeat constructor; discriminate|].
  split; [repeat constructor|].
  split; [reflexivity|].
  split; repeat constructor; discriminate.
Defined.

Lemma full_range_burden_witness :
  exists r,
    BurdenCalculator.calculate_burden_metrics example_state [0; 1; 2] 0 2
    = Ok r
    /\ BurdenCalculator.time_burden r
       = fmul (fdiv (Num (inject_Z (count_true [true; true; true])))
                    (Num (inject_Z (len [0; 1; 2]))))
              (Num 100).
Proof.
  apply (full_range_burden example_state [true; true; true] 0 [1; 2] 0 2).
  - unfold burden_state_ok, example_state. do 8 eexists.
    split; [reflexivity|].
    split; [repeat split; reflexivity|].
    split; [repeat constructor; discriminate|].
    split; [repeat constructor|].
    split; [reflexivity|].
    split; repeat constructor; discriminate.
  - reflexivity.
  - intros t [<-|[<-|[<-|[]]]]; split; discriminate.
  - discriminate.
  - discriminate.
Defined.


(** ** Burden over sliding windows *)

Section BurdenOverTime.

Import Config BurdenCalculator.



(** With a step that is not positive the start of the window never passes
    the end. *)
Lemma burden_windows_never_end (st : State) (first : Q) (rest : list Q)
  (window step end_time : Q) :
  burden_state_ok st (length (first :: rest)) ->
  step <= 0 ->
  forall (fuel : nat) (current : Q) (centers : list Q) (values : list fl),
    current <= end_time ->
    burden_windows fuel st (first :: rest) window step end_time current
      centers values = None.
Proof.
  intros Hok Hstep.
  induction fuel as [|fuel IH]; intros current centers values Hc;
    cbn [burden_windows];
    (replace (Qle_bool current end_time) with true
      by (symmetry; apply Qle_bool_iff; exact Hc)); [reflexivity|].
  destruct (burden_query_returns st first rest current (current + window)
              Hok) as (r & Hr & _).
  rewrite Hr. apply IH. lra.
Qed.



(** X19.  With a step that is zero or negative and a record at least as
    long as the window, the sweep never ends: the start of the window does
    not advance past the end, whatever the number of iterations. *)
Theorem burden_over_time_never_ends (st : State) (first : Q)
  (rest : list Q) (window_hours step_hours : Q) (fuel : nat) :
  burden_state_ok st (length (first :: rest)) ->
  step_hours <= 0 ->
  first <= last (first :: rest) first - window_hours ->
  calculate_burden_over_time fuel st (first :: rest) window_hours
    step_hours = None.
Proof.
  intros Hok Hstep Hfit.
  pose proof (burden_windows_never_end st first rest window_hours
                step_hours (last (first :: rest) first - window_hours)
                Hok Hstep fuel first [] [] Hfit) as Hn.
  unfold calculate_burden_over_time.
  destruct Hok as (dev & lower & upper & ou & ol & ob & ea & eb & -> & _).
  cbn [outside_bounds]. exact Hn.
Qed.

End BurdenOverTime.

Lemma example_state_ok : burden_state_ok example_state 3.
Proof.
  unfold burden_state_ok, example_state. do 8 eexists.
  split; [reflexivity|].
  split; [repeat split; reflexivity|].
  split; [repeat constructor; discriminate|].
  split; [repeat constructor|].
  split; [reflexivity|].
  split; repeat constructor; discriminate.
Qed.


Lemma burden_over_time_never_ends_witness :
  BurdenCalculator.calculate_burden_over_time 1000 example_state [0; 1; 2]
    1 0 = None.
Proof.
  apply (burden_over_time_never_ends example_state 0 [1; 2] 1 0 1000).
  - exact example_state_ok.
  - discriminate.
  - discriminate.
Defined.


(** ** The whole calculation of the series *)

Lemma np_arange_length (start stop step : Q) :
  length (np_arange start stop step)
  = Z.to_nat (Qceiling ((stop - start) / step)).
Proof. unfold np_arange. rewrite length_map, length_seq. reflexivity. Qed.


Lemma no_estimate_all_nan (raw : list fl) :
  (forall q, ~ In (Num q) raw) -> raw = repeat NaN (length raw).
Proof.
  induction raw as [|a raw IH]; intro H; [reflexivity|].
  destruct a as [|q]; [|exfalso; apply (H q); left; reflexivity].
  cbn [length repeat]. f_equal. apply IH.
  intros q Hq. apply (H q). right. exact Hq.
Qed.

Lemma has_estimate_dec (raw : list fl) :
  (exists q, In (Num q) raw) \/ (forall q, ~ In (Num q) raw).
Proof.
  induction raw as [|a raw [[q Hq]|IH]].
  - right. intros q [].
  - left. exists q. right. exact Hq.
  - destruct a as [|q].
    + right. intros q [Hq|Hq]; [discriminate|exact (IH q Hq)].
    + left. exists q. left. reflexivity.
Qed.

Section PostProcessTotal.

Import Config MAPoptCalculator.

Lemma fill_and_clamp_of_nan (n : nat) :
  fill_and_clamp (repeat NaN n) = Ok (repeat NaN n).
Proof.
  unfold fill_and_clamp, interpolate_pchip, valid_points, indexed.
  rewrite valid_points_repeat_nan. cbn [bind].
  rewrite map_repeat. cbn [np_clip]. unfold bfill, ffill.
  rewrite ffill_from_repeat_nan, rev_repeat, ffill_from_repeat_nan,
    rev_repeat. reflexivity.
Qed.

Lemma all_finite_of_nan (n : nat) :
  all_finite (repeat NaN (S n)) = None.
Proof. reflexivity. Qed.

Lemma post_process_of_nan (n : nat) :
  _post_process_mapopt (repeat NaN n) = Ok (repeat NaN n).
Proof.
  unfold _post_process_mapopt. rewrite fill_and_clamp_of_nan. cbn [bind].
  destruct (SAVGOL_WINDOW <? length (repeat NaN n))%nat eqn:E;
    [|reflexivity].
  unfold savgol_filter. destruct n as [|n]; [discriminate|].
  rewrite all_finite_of_nan. rewrite map_repeat. reflexivity.
Qed.

(** The post-processing raises a [ValueError] or returns a series of the
    same length, without a value when the raw series has none and else
    of values at most 250/13 outside of the band. *)
Lemma post_process_outcome (raw : list fl) :
  _post_process_mapopt raw = Raise ValueError
  \/ exists out,
       _post_process_mapopt raw = Ok out
       /\ length out = length raw
       /\ ((forall q, ~ In (Num q) raw) -> out = repeat NaN (length raw))
       /\ ((exists q, In (Num q) raw) ->
           Forall (within (270 # 13) (1420 # 13)) out).
Proof.
  destruct (has_estimate_dec raw) as [Hex|Hno].
  - unfold _post_process_mapopt.
    destruct (fill_and_clamp raw) as [filled|e] eqn:Ef; cbn [bind].
    + right.
      destruct (fill_and_clamp_within raw filled Hex Ef) as [Hlen Hw].
      unfold SAVGOL_WINDOW, SAVGOL_ORDER.
      destruct (all_finite_values 40 90 filled Hw) as (qs & Eq & Hql & Hq).
      destruct (11 <? length filled)%nat eqn:E.
      * apply Nat.ltb_lt in E.
        eexists. split; [reflexivity|].
        unfold savgol_filter. rewrite Eq.
        split; [rewrite length_map, savgol_values_length; lia|].
        split; [intro H; destruct Hex as [q Hq']; destruct (H q Hq')|].
        intros _. apply Forall_map.
        eapply Forall_impl; [|apply savgol_values_within_band].
        -- intros v Hv. exact Hv.
        -- rewrite Hql. exact E.
        -- exact Hq.
      * exists filled. split; [reflexivity|]. split; [exact Hlen|].
        split; [intro H; destruct Hex as [q Hq']; destruct (H q Hq')|].
        intros _. eapply Forall_impl; [|exact Hw].
        intros [|q] Hq'; [contradiction|]. cbn [within] in *. lra.
    + left. unfold fill_and_clamp in Ef.
      destruct (interpolate_pchip raw) as [r|e'] eqn:Er; cbn [bind] in Ef;
        [discriminate|].
      injection Ef as <-. f_equal.
      unfold interpolate_pchip in Er.
      destruct (valid_points raw) as [|[fv v] others]; [discriminate|].
      destruct (forallb np_isfinite raw); [discriminate|].
      destruct others; [|discriminate]. injection Er as <-. reflexivity.
  - right. pose proof (no_estimate_all_nan raw Hno) as E.
    set (n := length raw) in E. clearbody n. subst raw.
    rewrite post_process_of_nan.
    eexists. split; [reflexivity|].
    split; [reflexivity|]. split; [rewrite repeat_length; reflexivity|].
    intros [q Hq]. destruct (Hno q Hq).
Qed.

End PostProcessTotal.

Section Pipeline.

Import Config MAPoptCalculator.

Context {L : Libm}.

(** On a record that is not empty the scheduler returns the results of
    the worker, whatever the pool does. *)
Lemma process_parallel_returns (p : pool_behaviour)
  (time_vector t : list Q) (MAP rSO2 : list fl) :
  t <> [] ->
  exists rs,
    length rs = length time_vector
    /\ _process_parallel p time_vector
         (_prepare_processing_args time_vector t MAP rSO2)
       = Ok (map value_of rs, map fits_of rs).
Proof.
  intro Ht.
  set (args := _prepare_processing_args time_vector t MAP rSO2).
  assert (Hlen : length time_vector = length args)
    by (symmetry; apply prepare_from_length).
  assert (Hkeys : map arg_k args = seq 0 (length args)).
  { rewrite <- Hlen. apply prepare_from_keys. }
  destruct (map_result_total _process_time_point args) as [rs Hrs].
  { intros a Ha. apply prepare_from_fields in Ha. destruct Ha as [Ha Hw].
    apply process_time_point_returns; [rewrite Ha; exact Ht | exact Hw]. }
  exists rs. split.
  - rewrite (map_result_length _ _ _ Hrs). symmetry. exact Hlen.
  - unfold _process_parallel.
    rewrite (process_with_results _ process_time_point_key args Hkeys)
      by exact Hlen.
    unfold sequential_results. rewrite Hrs. reflexivity.
Qed.


End Pipeline.


(** ** From the series to the burden *)

Lemma np_arange_empty (start stop step : Q) :
  0 < step -> stop <= start -> np_arange start stop step = [].
Proof.
  intros Hs Hle. unfold np_arange.
  assert (Hx : (stop - start) / step <= 0).
  { apply Qle_shift_div_r; [exact Hs|]. lra. }
  assert (Hc : (Qceiling ((stop - start) / step) <= 0)%Z).
  { change 0%Z with (Qceiling 0). apply Qceiling_resp_le. exact Hx. }
  replace (Z.to_nat _) with 0%nat by lia. reflexivity.
Qed.

Lemma np_arange_not_empty (start stop step : Q) :
  0 < step -> start < stop -> np_arange start stop step <> [].
Proof.
  intros Hs Hlt E. apply (f_equal (@length Q)) in E.
  rewrite np_arange_length in E. cbn [length] in E.
  assert (Hx : 0 < (stop - start) / step).
  { apply Qlt_shift_div_l; [exact Hs|]. lra. }
  pose proof (Qle_ceiling ((stop - start) / step)) as Hc.
  assert (H0 : (0 < Qceiling ((stop - start) / step))%Z).
  { rewrite Zlt_Qlt. change (inject_Z 0) with 0. lra. }
  lia.
Qed.

Lemma map_seq_sorted (f : nat -> Q) (n : nat) :
  (forall i j, (i <= j)%nat -> f i <= f j) ->
  forall k, StronglySorted Qle (map f (seq k n)).
Proof.
  intro Hf. induction n as [|n IH]; intro k; [constructor|].
  cbn [seq map]. constructor; [apply IH|].
  apply Forall_map. apply Forall_forall. intros j Hj.
  apply in_seq in Hj. apply Hf. lia.
Qed.

Lemma np_arange_sorted (start stop step : Q) :
  0 < step -> StronglySorted Qle (np_arange start stop step).
Proof.
  intro Hs. unfold np_arange. apply map_seq_sorted.
  intros i j Hij. rewrite !Qred_correct.
  assert (inject_Z (Z.of_nat i) <= inject_Z (Z.of_nat j))
    by (rewrite <- Zle_Qle; lia).
  nra.
Qed.

Section Analysis.

Import Config MAPoptCalculator BurdenCalculator.

Context {L : Libm}.

(** X21.  The steps of an analysis fit together.  When the calculation of
    the series returns, on a record with pressures, the deviations can be
    computed from what it returns, on the same grid.  For a record whose
    last time is not after its first one, as a record of one sample, the
    grid is empty and the burden query raises [IndexError]; for any other
    record the burden query returns for every range, with a time burden
    between 0 and 100 percent and an area burden ratio that is [nan] or
    not negative. *)
Theorem analysis_steps_compose (p : pool_behaviour) (t0 : Q)
  (t' : list Q) (MAP rSO2 : list fl) (time_vector : list Q)
  (mapopt_filled : list fl) (all_fits_data : list (list Fit))
  (t_start t_end : Q) :
  MAP <> [] ->
  calculate_mapopt_series p (t0 :: t') MAP rSO2
  = Ok (time_vector, mapopt_filled, all_fits_data) ->
  exists st,
    calculate_deviation_and_burden __init__ (t0 :: t') MAP time_vector
      mapopt_filled = Ok st
    /\ burden_state_ok st (length time_vector)
    /\ (last (t0 :: t') t0 <= t0 ->
        time_vector = []
        /\ calculate_burden_metrics st time_vector t_start t_end
           = Raise IndexError)
    /\ (t0 < last (t0 :: t') t0 ->
        exists r,
          calculate_burden_metrics st time_vector t_start t_end = Ok r
          /\ within 0 100 (time_burden r)
          /\ nonneg_or_nan (area_burden_ratio r)).
Proof.
  intros HM Hs.
  unfold calculate_mapopt_series in Hs. cbv beta iota zeta in Hs.
  set (tv := np_arange t0 (last (t0 :: t') t0) TIME_STEP_MIN) in *.
  pose proof (process_parallel_returns p tv (t0 :: t') MAP rSO2
                ltac:(discriminate)) as (rs & Hlen & Hp).
  rewrite Hp in Hs. unfold bind at 1 in Hs. unfold fst, snd in Hs.
  destruct (post_process_outcome (map value_of rs))
    as [Hr|(out & Ho & Hol & _)]; rewrite ?Hr, ?Ho in Hs;
    unfold bind in Hs; [discriminate|].
  injection Hs as <- <- <-.
  assert (Hl : length out = length tv)
    by (rewrite Hol, length_map; exact Hlen).
  assert (Hempty : last (t0 :: t') t0 <= t0 -> tv = [])
    by (intro Hle; apply np_arange_empty; [reflexivity|exact Hle]).
  assert (Hne : t0 < last (t0 :: t') t0 -> tv <> [])
    by (intro Hlt; apply np_arange_not_empty; [reflexivity|exact Hlt]).
  assert (Hsorted : StronglySorted Qle tv)
    by (apply np_arange_sorted; reflexivity).
  clearbody tv.
  destruct (deviation_state_computed __init__ (t0 :: t') MAP tv out
              ltac:(discriminate) HM Hl) as (st & Hst & Hok).
  exists st. split; [exact Hst|]. split; [exact Hok|]. split.
  - intro Hle. specialize (Hempty Hle). subst tv.
    split; [reflexivity|].
    destruct Hok as (dev & lower & upper & ou & ol & ob & ea & eb & -> & _).
    reflexivity.
  - intro Hlt. specialize (Hne Hlt).
    destruct tv as [|first rest]; [congruence|].
    destruct (burden_query_returns st first rest t_start t_end Hok)
      as (r & Hr & _ & _ & Hb & Ha).
    exists r. split; [exact Hr|]. split; [exact Hb|].
    apply Ha. exact Hsorted.
Qed.

End Analysis.

Lemma analysis_steps_compose_witness :
  exists st,
    BurdenCalculator.calculate_deviation_and_burden
      BurdenCalculator.__init__ [0; 1 # 30] [Num 70; Num 71]
      [0; 1 # 60] [NaN; NaN] = Ok st
    /\ burden_state_ok st (length [0; 1 # 60])
    /\ (last [0; 1 # 30] 0 <= 0 ->
        [0; 1 # 60] = []
        /\ BurdenCalculator.calculate_burden_metrics st [0; 1 # 60] 0 1
           = Raise IndexError)
    /\ (0 < last [0; 1 # 30] 0 ->
        exists r,
          BurdenCalculator.calculate_burden_metrics st [0; 1 # 60] 0 1
          = Ok r
          /\ within 0 100 (BurdenCalculator.time_burden r)
          /\ nonneg_or_nan (BurdenCalculator.area_burden_ratio r)).
Proof.
  assert (Hs : MAPoptCalculator.calculate_mapopt_series
                 MAPoptCalculator.Healthy [0; 1 # 30] [Num 70; Num 71]
                 [Num 60; Num 61]
               = Ok ([0; 1 # 60], [NaN; NaN], [[]; []]))
    by (vm_compute; reflexivity).
  exact (analysis_steps_compose MAPoptCalculator.Healthy 0 [1 # 30]
           [Num 70; Num 71] [Num 60; Num 61] [0; 1 # 60] [NaN; NaN]
           [[]; []] 0 1 ltac:(discriminate) Hs).
Defined.


(** ** The excesses of the burden engine *)

Lemma Forall2_map_same {A B C : Type} (R : B -> C -> Prop) (f : A -> B)
  (g : A -> C) (l : list A) :
  (forall x, R (f x) (g x)) -> Forall2 R (map f l) (map g l).
Proof.
  intro H. induction l as [|x l IH]; cbn [map]; constructor; auto.
Qed.

Section Excess.

Import Config BurdenCalculator.

Lemma excess_above_marks (a b : fl) :
  excess_marks (fgt a (fadd b (Num BURDEN_BOUNDS)))
    (if fgt a (fadd b (Num BURDEN_BOUNDS))
     then fsub a (fadd b (Num BURDEN_BOUNDS)) else Num 0).
Proof.
  destruct a as [|x]; destruct b as [|y]; try reflexivity.
  cbn [fadd fsub fl_lift2 fgt flt].
  destruct (Qltb _ x) eqn:E; cbn [excess_marks]; [|reflexivity].
  apply Qltb_lt in E. rewrite Qred_correct in E.
  eexists. split; [reflexivity|]. rewrite !Qred_correct.
  unfold BURDEN_BOUNDS in *. lra.
Qed.

Lemma excess_below_marks (a b : fl) :
  excess_marks (flt a (fsub b (Num BURDEN_BOUNDS)))
    (if flt a (fsub b (Num BURDEN_BOUNDS))
     then fsub (fsub b (Num BURDEN_BOUNDS)) a else Num 0).
Proof.
  destruct a as [|x]; destruct b as [|y]; try reflexivity.
  cbn [fadd fsub fl_lift2 fgt flt].
  destruct (Qltb x _) eqn:E; cbn [excess_marks]; [|reflexivity].
  apply Qltb_lt in E. rewrite Qred_correct in E.
  eexists. split; [reflexivity|]. rewrite !Qred_correct.
  unfold BURDEN_BOUNDS in *. lra.
Qed.

(** The marks and the excesses of a computed state. *)
Lemma excess_marks_computed (self : State) (data_time : list Q)
  (data_MAP : list fl) (time_vector : list Q) (mapopt_filled : list fl)
  (st : State) :
  calculate_deviation_and_burden self data_time data_MAP time_vector
    mapopt_filled = Ok st ->
  exists ou ol ob ea eb,
    outside_upper st = Some ou /\ outside_lower st = Some ol
    /\ outside_bounds st = Some ob
    /\ excess_above st = Some ea /\ excess_below st = Some eb
    /\ Forall2 excess_marks ou ea
    /\ Forall2 excess_marks ol eb
    /\ Forall2 (fun m o => m = NaN -> o = false) mapopt_filled ob.
Proof.
  unfold calculate_deviation_and_burden.
  destruct (MAPoptCalculator.map_result _ time_vector) as [mi|e];
    cbn [bind]; [|discriminate].
  destruct (length mi =? length mapopt_filled)%nat eqn:E; cbn [negb];
    [|discriminate].
  apply Nat.eqb_eq in E.
  pose (c := combine mi mapopt_filled).
  assert (Emi : mi = map fst c)
    by (symmetry; apply map_fst_combine_same; exact E).
  assert (Emo : mapopt_filled = map snd c)
    by (symmetry; apply map_snd_combine_same; exact E).
  clearbody c. clear E. subst mi mapopt_filled.
  rewrite !map_map. rewrite !zip_with_map_same. rewrite ?map_map.
  cbn [fst snd]. intro H. injection H as <-.
  cbn [outside_upper outside_lower outside_bounds excess_above
       excess_below].
  do 5 eexists. do 5 (split; [reflexivity|]).
  split; [|split].
  - apply Forall2_map_same. intros [a b]. cbn [fst snd].
    apply excess_above_marks.
  - apply Forall2_map_same. intros [a b]. cbn [fst snd].
    apply excess_below_marks.
  - apply Forall2_map_same. intros [a b]. cbn [fst snd]. intros ->.
    destruct a; reflexivity.
Qed.

(** X22.  In the state that [calculate_deviation_and_burden] returns, an
    excess is never [nan]: it is a positive number at the samples marked
    above (below) the band and exactly 0 at all others; and a time without
    an optimum ([nan] in the MAPopt series) is never marked outside of the
    band. *)
Theorem excess_marks_the_outside (self : State) (data_time : list Q)
  (data_MAP : list fl) (time_vector : list Q) (mapopt_filled : list fl)
  (st : State) :
  calculate_deviation_and_burden self data_time data_MAP time_vector
    mapopt_filled = Ok st ->
  exists ou ol ob ea eb,
    outside_upper st = Some ou /\ outside_lower st = Some ol
    /\ outside_bounds st = Some ob
    /\ excess_above st = Some ea /\ excess_below st = Some eb
    /\ Forall2 excess_marks ou ea
    /\ Forall2 excess_marks ol eb
    /\ Forall2 (fun m o => m = NaN -> o = false) mapopt_filled ob.
Proof.
  exact (excess_marks_computed self data_time data_MAP time_vector
           mapopt_filled st).
Qed.

End Excess.

Lemma excess_marks_the_outside_witness :
  exists ou ol ob ea eb,
    BurdenCalculator.outside_upper example_state = Some ou
    /\ BurdenCalculator.outside_lower example_state = Some ol
    /\ BurdenCalculator.outside_bounds example_state = Some ob
    /\ BurdenCalculator.excess_above example_state = Some ea
    /\ BurdenCalculator.excess_below example_state = Some eb
    /\ Forall2 excess_marks ou ea
    /\ Forall2 excess_marks ol eb
    /\ Forall2 (fun m o => m = NaN -> o = false)
         [Num 70; Num 70; Num 70] ob.
Proof.
  assert (Hs : BurdenCalculator.calculate_deviation_and_burden
                 BurdenCalculator.__init__ [0; 1; 2]
                 [Num 100; Num 100; Num 100] [0; 1; 2]
                 [Num 70; Num 70; Num 70] = Ok example_state)
    by (vm_compute; reflexivity).
  exact (excess_marks_the_outside BurdenCalculator.__init__ [0; 1; 2]
           [Num 100; Num 100; Num 100] [0; 1; 2]
           [Num 70; Num 70; Num 70] example_state Hs).
Defined.


(** ** Statistics of the deviations *)

Lemma fold_fadd_nan (l : list fl) : fold_left fadd l NaN = NaN.
Proof. induction l as [|x l IH]; [reflexivity|exact IH]. Qed.

Lemma all_finite_some (l : list fl) (qs : list Q) :
  all_finite l = Some qs -> l = map Num qs.
Proof.
  revert qs. induction l as [|a l IH]; intros qs H.
  - injection H as <-. reflexivity.
  - unfold all_finite in *. cbn [fold_right] in H.
    destruct a as [|q]; [discriminate|].
    destruct (fold_right _ (Some []) l) as [qs'|]; [|discriminate].
    injection H as <-. cbn [map]. rewrite (IH qs' eq_refl). reflexivity.
Qed.

Lemma all_finite_none (l : list fl) :
  all_finite l = None -> forall a, fold_left fadd l a = NaN.
Proof.
  induction l as [|x l IH]; intros H a; [discriminate|].
  unfold all_finite in *. cbn [fold_right] in H. cbn [fold_left].
  destruct x as [|q].
  - destruct a; apply fold_fadd_nan.
  - destruct (fold_right _ (Some []) l) as [qs'|]; [discriminate|].
    apply IH. reflexivity.
Qed.

Lemma count_true_or (ou : list bool) :
  forall ol,
    length ou = length ol ->
    Forall (fun p => fst p && snd p = false) (combine ou ol) ->
    count_true (BurdenCalculator.zip_with orb ou ol)
    = (count_true ou + count_true ol)%Z.
Proof.
  unfold BurdenCalculator.zip_with.
  induction ou as [|a ou IH]; intros [|b ol] Hlen H; try discriminate;
    [reflexivity|].
  cbn [combine map fst snd] in *. inversion H as [|? ? Hab H']; subst.
  cbn [fst snd] in Hab. rewrite !count_true_cons.
  rewrite (IH ol) by (try assumption; simpl in Hlen; lia).
  destruct a; destruct b; try discriminate; cbn [orb]; lia.
Qed.

Lemma within_map_num (lo hi : Q) (qs : list Q) :
  Forall (fun v => lo <= v <= hi) qs -> Forall (within lo hi) (map Num qs).
Proof.
  intro H. apply Forall_map. eapply Forall_impl; [|exact H].
  intros v Hv. exact Hv.
Qed.

Lemma within_or_nan_values (lo hi : Q) (qs : list Q) :
  Forall (within_or_nan lo hi) (map Num qs) ->
  Forall (fun v => lo <= v <= hi) qs.
Proof.
  intro H. rewrite Forall_map in H. eapply Forall_impl; [|exact H].
  intros v Hv. exact Hv.
Qed.

Section Statistics.

Import Config BurdenCalculator.

Context {L : Libm}.

Lemma fl_max_returns (l : list fl) :
  l <> [] ->
  fl_max l = Ok match all_finite l with
                | Some qs => Num (np_max qs) | None => NaN end.
Proof.
  destruct l; [contradiction|]. intros _. unfold fl_max.
  destruct (all_finite _); reflexivity.
Qed.

Lemma fl_min_returns (l : list fl) :
  l <> [] ->
  fl_min l = Ok match all_finite l with
                | Some qs => Num (np_min qs) | None => NaN end.
Proof.
  destruct l; [contradiction|]. intros _. unfold fl_min.
  destruct (all_finite _); reflexivity.
Qed.

(** X23.  On a computed state of one sample at least,
    [get_deviation_statistics] returns all its entries: the mean, the
    largest and the smallest deviation are [nan] or in [-50, 50], the
    mean lies between the smallest and the largest when these are
    numbers, the three percentages are between 0 and 100, and the
    percentage of time outside of the band is the sum of the percentages
    above and below it. *)
Theorem deviation_statistics_consistent (st : State) (n : nat) :
  burden_state_ok st n -> (0 < n)%nat ->
  exists s,
    get_deviation_statistics st = Ok (Some s)
    /\ within_or_nan (-50) 50 (mean_deviation s)
    /\ within_or_nan (-50) 50 (max_positive_deviation s)
    /\ within_or_nan (-50) 50 (max_negative_deviation s)
    /\ (forall lo hi,
          max_negative_deviation s = Num lo ->
          max_positive_deviation s = Num hi ->
          within lo hi (mean_deviation s))
    /\ within 0 100 (percent_time_above_bounds s)
    /\ within 0 100 (percent_time_below_bounds s)
    /\ within 0 100 (percent_time_outside_bounds s)
    /\ feq (percent_time_outside_bounds s)
           (fadd (percent_time_above_bounds s)
                 (percent_time_below_bounds s)).
Proof.
  intros (dev & lower & upper & ou & ol & ob & ea & eb & -> & Hl & Hdev
          & Hex & Hob & _ & _) Hn.
  destruct Hl as (Hld & _ & _ & Hlu & Hll & Hlb & _ & _).
  unfold get_deviation_statistics.
  cbn [deviation outside_upper outside_lower outside_bounds].
  assert (Hne : dev <> []).
  { intro E. rewrite E in Hld. simpl in Hld. lia. }
  rewrite (fl_max_returns dev Hne), (fl_min_returns dev Hne).
  unfold percent_true. cbn [bind].
  eexists. split; [reflexivity|].
  cbn [mean_deviation max_positive_deviation max_negative_deviation
       percent_time_above_bounds percent_time_below_bounds
       percent_time_outside_bounds].
  assert (Hpos : (0 < Z.of_nat n)%Z) by lia.
  assert (Hcu := count_true_bounds ou).
  assert (Hcl := count_true_bounds ol).
  assert (Hcb := count_true_bounds ob).
  assert (Hsum : count_true ob = (count_true ou + count_true ol)%Z).
  { rewrite Hob. apply count_true_or; [lia|exact Hex]. }
  unfold len in *. rewrite Hlu, Hll, Hlb in *.
  assert (Hmean_min_max :
    within_or_nan (-50) 50 (np_mean dev)
    /\ within_or_nan (-50) 50
         match all_finite dev with
         | Some qs => Num (np_max qs) | None => NaN end
    /\ within_or_nan (-50) 50
         match all_finite dev with
         | Some qs => Num (np_min qs) | None => NaN end
    /\ (forall lo hi,
          match all_finite dev with
          | Some qs => Num (np_min qs) | None => NaN end = Num lo ->
          match all_finite dev with
          | Some qs => Num (np_max qs) | None => NaN end = Num hi ->
          within lo hi (np_mean dev))).
  { destruct (all_finite dev) as [qs|] eqn:Ef.
    - pose proof (all_finite_some dev qs Ef) as Ed.
      assert (Hqs : qs <> []).
      { intro E. rewrite E in Ed. exact (Hne Ed). }
      rewrite Ed in Hdev. apply within_or_nan_values in Hdev.
      destruct (np_min_max_spec qs Hqs) as (Hmin & Hmax & Hb).
      rewrite Forall_forall in Hdev.
      assert (Hlen : (0 < len dev)%Z) by (unfold len; rewrite Hld; lia).
      assert (Hm : forall lo hi,
                 Forall (fun v => lo <= v <= hi) qs ->
                 within lo hi (np_mean dev)).
      { intros lo hi Hlh.
        pose proof (np_mean_within lo hi dev) as Hw.
        rewrite Ed in Hw at 1. specialize (Hw (within_map_num _ _ _ Hlh)).
        unfold np_mean, fl_sum in *.
        destruct (fl_sum_within lo hi (map Num qs)
                    (within_map_num _ _ _ Hlh) 0) as (s & E & _).
        rewrite <- Ed in E. rewrite E in *. cbn [fdiv] in *.
        replace (Qeq_bool (inject_Z (len dev)) 0) with false in *.
        - exact Hw.
        - symmetry. apply Qeq_bool_false.
          assert (0 < inject_Z (len dev)).
          { change 0 with (inject_Z 0). rewrite <- Zlt_Qlt. exact Hlen. }
          lra. }
      split; [|split; [|split]].
      + assert (Hw : within (-50) 50 (np_mean dev)).
        { apply Hm. apply Forall_forall. exact Hdev. }
        destruct (np_mean dev); [contradiction|exact Hw].
      + exact (Hdev _ Hmax).
      + exact (Hdev _ Hmin).
      + intros lo hi Elo Ehi. injection Elo as <-. injection Ehi as <-.
        apply Hm. apply Forall_forall. exact Hb.
    - split; [|split; [exact I|split; [exact I|discriminate]]].
      unfold np_mean, fl_sum.
      rewrite (all_finite_none dev Ef). exact I. }
  destruct Hmean_min_max as (H1 & H2 & H3 & H4).
  split; [exact H1|]. split; [exact H2|]. split; [exact H3|].
  split; [exact H4|].
  split; [apply percentage_range; lia|].
  split; [apply percentage_range; lia|].
  split; [apply percentage_range; lia|].
  rewrite Hsum. cbn [fdiv].
  assert (Hq : 0 < inject_Z (Z.of_nat n)).
  { change 0 with (inject_Z 0). rewrite <- Zlt_Qlt. exact Hpos. }
  replace (Qeq_bool (inject_Z (Z.of_nat n)) 0) with false
    by (symmetry; apply Qeq_bool_false; lra).
  cbn [fmul fadd fl_lift2 feq]. rewrite !Qred_correct.
  rewrite inject_Z_plus. field. lra.
Qed.

End Statistics.

Lemma deviation_statistics_consistent_witness :
  exists s,
    BurdenCalculator.get_deviation_statistics example_state = Ok (Some s)
    /\ within_or_nan (-50) 50 (BurdenCalculator.mean_deviation s)
    /\ within_or_nan (-50) 50 (BurdenCalculator.max_positive_deviation s)
    /\ within_or_nan (-50) 50 (BurdenCalculator.max_negative_deviation s)
    /\ (forall lo hi,
          BurdenCalculator.max_negative_deviation s = Num lo ->
          BurdenCalculator.max_positive_deviation s = Num hi ->
          within lo hi (BurdenCalculator.mean_deviation s))
    /\ within 0 100 (BurdenCalculator.percent_time_above_bounds s)
    /\ within 0 100 (BurdenCalculator.percent_time_below_bounds s)
    /\ within 0 100 (BurdenCalculator.percent_time_outside_bounds s)
    /\ feq (BurdenCalculator.percent_time_outside_bounds s)
           (fadd (BurdenCalculator.percent_time_above_bounds s)
                 (BurdenCalculator.percent_time_below_bounds s)).
Proof.
  exact (deviation_statistics_consistent example_state 3 example_state_ok
           ltac:(lia)).
Defined.


(** ** The summary of the burden *)

Lemma sum_of_positive (l : list fl) :
  Forall (fun e => exists q, e = Num q /\ 0 < q) l ->
  forall a,
    exists s, fold_left fadd l (Num a) = Num s
              /\ a <= s /\ (l <> [] -> a < s).
Proof.
  induction 1 as [|x l (q & -> & Hq) _ IH]; intro a; cbn [fold_left].
  - exists a. split; [reflexivity|]. split; [lra|]. intro H. contradiction.
  - cbn [fadd fl_lift2]. destruct (IH (Qred (a + q))) as (s & E & Hs & _).
    exists s. split; [exact E|]. rewrite Qred_correct in Hs.
    split; [lra|]. intros _. lra.
Qed.

Lemma sum_of_nonnegative (l : list fl) :
  Forall (fun e => exists q, e = Num q /\ 0 <= q) l ->
  forall a, exists s, fold_left fadd l (Num a) = Num s /\ a <= s.
Proof.
  induction 1 as [|x l (q & -> & Hq) _ IH]; intro a; cbn [fold_left].
  - exists a. split; [reflexivity|lra].
  - cbn [fadd fl_lift2]. destruct (IH (Qred (a + q))) as (s & E & Hs).
    exists s. split; [exact E|]. rewrite Qred_correct in Hs. lra.
Qed.

Lemma marks_nonnegative (m : list bool) (e : list fl) :
  Forall2 excess_marks m e ->
  length m = length e
  /\ Forall (fun x => exists q, x = Num q /\ 0 <= q) e.
Proof.
  induction 1 as [|b x m e Hbx _ [IHl IH]];
    [split; [reflexivity|constructor]|].
  split; [cbn [length]; lia|]. constructor; [|exact IH].
  destruct b; cbn [excess_marks] in Hbx.
  - destruct Hbx as (q & -> & Hq). exists q. split; [reflexivity|lra].
  - exists 0. split; [exact Hbx|lra].
Qed.

Lemma marks_selected (m : list bool) (e : list fl) :
  Forall2 excess_marks m e ->
  Forall (fun x => exists q, x = Num q /\ 0 < q) (mask_select m e)
  /\ len (mask_select m e) = count_true m.
Proof.
  induction 1 as [|b x m e Hbx _ [IH IHl]];
    [split; [constructor|reflexivity]|].
  cbn [mask_select]. rewrite count_true_cons. unfold len in *.
  destruct b; cbn [excess_marks] in Hbx.
  - split; [constructor; assumption|]. cbn [length]. lia.
  - split; [exact IH|lia].
Qed.

(** The mean of the excesses at the marked samples: [nan] without a
    marked sample, else a positive number. *)
Lemma mean_of_marked (m : list bool) (e : list fl) :
  Forall2 excess_marks m e ->
  (count_true m = 0%Z -> np_mean (mask_select m e) = NaN)
  /\ ((0 < count_true m)%Z ->
      exists q, np_mean (mask_select m e) = Num q /\ 0 < q).
Proof.
  intro H. destruct (marks_selected m e H) as [Hpos Hlen].
  destruct (sum_of_positive _ Hpos 0) as (s & E & Hs & Hs').
  unfold np_mean, fl_sum. rewrite E, Hlen. split; intro Hc.
  - rewrite Hc. reflexivity.
  - assert (Hq : 0 < inject_Z (count_true m)).
    { change 0 with (inject_Z 0). rewrite <- Zlt_Qlt. exact Hc. }
    cbn [fdiv].
    replace (Qeq_bool (inject_Z (count_true m)) 0) with false
      by (symmetry; apply Qeq_bool_false; lra).
    eexists. split; [reflexivity|]. rewrite Qred_correct.
    apply Qlt_shift_div_l; [exact Hq|].
    assert (Hne : mask_select m e <> []).
    { intro E0. rewrite E0 in Hlen. unfold len in Hlen. simpl in Hlen. lia. }
    specialize (Hs' Hne). lra.
Qed.

Section Summary.

Import Config BurdenCalculator.

Context {L : Libm}.

(** Whatever [calculate_deviation_and_burden] returns is a computed
    state. *)
Lemma deviation_state_of_ok (self : State) (data_time : list Q)
  (data_MAP : list fl) (time_vector : list Q) (mapopt_filled : list fl)
  (st : State) :
  calculate_deviation_and_burden self data_time data_MAP time_vector
    mapopt_filled = Ok st ->
  burden_state_ok st (length time_vector).
Proof.
  intro H.
  assert (Hlen : length mapopt_filled = length time_vector
                 /\ data_time <> [] /\ data_MAP <> []
                 \/ time_vector = [] /\ mapopt_filled = []).
  { unfold calculate_deviation_and_burden in H.
    destruct (MAPoptCalculator.map_result _ time_vector) as [mi|e] eqn:Em;
      cbn [bind] in H; [|discriminate].
    destruct (length mi =? length mapopt_filled)%nat eqn:E;
      cbn [negb] in H; [|discriminate].
    apply Nat.eqb_eq in E.
    pose proof (map_result_length _ _ _ Em) as Hm.
    destruct time_vector as [|x tv].
    - right. split; [reflexivity|].
      destruct mapopt_filled; [reflexivity|]. simpl in *. lia.
    - left. split; [lia|].
      cbn [MAPoptCalculator.map_result] in Em. unfold np_interp in Em.
      destruct data_time; [discriminate|].
      destruct data_MAP; [discriminate|]. split; discriminate. }
  destruct Hlen as [(Hl & Hx & Hf)|(-> & ->)].
  - destruct (deviation_state_computed self data_time data_MAP time_vector
                mapopt_filled Hx Hf Hl) as (st' & Hst & Hok).
    rewrite Hst in H. injection H as <-. exact Hok.
  - cbn in H. injection H as <-.
    do 8 eexists. split; [reflexivity|].
    split; [repeat split; reflexivity|]. repeat split; constructor.
Qed.

Lemma deviation_statistics_returns (st : State) (n : nat)
  (outside : list bool) :
  burden_state_ok st n -> (0 < n)%nat ->
  outside_bounds st = Some outside ->
  exists s,
    get_deviation_statistics st = Ok (Some s)
    /\ percent_time_outside_bounds s
       = fmul (fdiv (Num (inject_Z (count_true outside)))
                    (Num (inject_Z (len outside))))
              (Num 100).
Proof.
  intros (dev & lower & upper & ou & ol & ob & ea & eb & -> & Hl & _) Hn Ho.
  destruct Hl as (Hld & _).
  cbn [outside_bounds] in Ho. injection Ho as ->.
  unfold get_deviation_statistics.
  cbn [deviation outside_upper outside_lower outside_bounds].
  destruct dev as [|d0 dev]; [simpl in Hld; lia|].
  unfold fl_max, fl_min, percent_true.
  destruct (all_finite (d0 :: dev)); cbn [bind];
    eexists; (split; [reflexivity|]); reflexivity.
Qed.

(** X24.  On the state computed on a grid that is not empty and spans
    from its first to its last time, [get_burden_summary] over the full
    period returns its three groups of entries; the time burden of the
    period is the percentage of time outside of the band of the
    statistics; the total excesses are numbers that are not negative; and
    the mean excess above (below) the band is [nan] when no sample is
    above (below) it and else a positive number. *)
Theorem burden_summary_consistent (self : State) (data_time : list Q)
  (data_MAP : list fl) (first : Q) (rest : list Q)
  (mapopt_filled : list fl) (st : State) :
  calculate_deviation_and_burden self data_time data_MAP (first :: rest)
    mapopt_filled = Ok st ->
  (forall t, In t (first :: rest) ->
             first <= t <= last (first :: rest) first) ->
  exists r s e ou ol,
    get_burden_summary st (first :: rest) true
    = Ok {| period_metrics := Some r;
            deviation_statistics := Some s;
            excess_summary := Some e |}
    /\ time_burden r = percent_time_outside_bounds s
    /\ outside_upper st = Some ou /\ outside_lower st = Some ol
    /\ (exists q, total_excess_above e = Num q /\ 0 <= q)
    /\ (exists q, total_excess_below e = Num q /\ 0 <= q)
    /\ (count_true ou = 0%Z -> mean_excess_above e = NaN)
    /\ ((0 < count_true ou)%Z ->
        exists q, mean_excess_above e = Num q /\ 0 < q)
    /\ (count_true ol = 0%Z -> mean_excess_below e = NaN)
    /\ ((0 < count_true ol)%Z ->
        exists q, mean_excess_below e = Num q /\ 0 < q).
Proof.
  intros Hst Hgrid.
  pose proof (deviation_state_of_ok _ _ _ _ _ _ Hst) as Hok.
  destruct (excess_marks_computed _ _ _ _ _ _ Hst)
    as (ou & ol & ob & ea & eb & Eou & Eol & Eob & Eea & Eeb & Hma & Hmb
        & _).
  destruct (full_range_query st ob first rest first
              (last (first :: rest) first) Hok Eob Hgrid
              ltac:(lra) ltac:(lra)) as (r & Hr & Htb).
  destruct (deviation_statistics_returns st (length (first :: rest)) ob
              Hok ltac:(cbn [length]; lia) Eob) as (s & Hs & Hps).
  assert (Hlb : len ob = len (first :: rest)).
  { destruct Hok as (dev & lower & upper & ou' & ol' & ob' & ea' & eb'
                     & -> & Hl & _).
    cbn [outside_bounds] in Eob. injection Eob as ->.
    destruct Hl as (_ & _ & _ & _ & _ & Hlob & _). unfold len.
    rewrite Hlob. reflexivity. }
  destruct (marks_nonnegative ou ea Hma) as [Hla Hna].
  destruct (marks_nonnegative ol eb Hmb) as [Hlb' Hnb].
  destruct (sum_of_nonnegative ea Hna 0) as (sa & Esa & Hsa).
  destruct (sum_of_nonnegative eb Hnb 0) as (sb & Esb & Hsb).
  destruct (mean_of_marked ou ea Hma) as [Ha0 Ha1].
  destruct (mean_of_marked ol eb Hmb) as [Hb0 Hb1].
  unfold get_burden_summary. rewrite Hr. cbn [bind]. rewrite Hs.
  cbn [bind]. rewrite Eea, Eeb, Eou, Eol. unfold mean_selected.
  replace (length ea =? length ou)%nat with true
    by (symmetry; apply Nat.eqb_eq; lia).
  replace (length eb =? length ol)%nat with true
    by (symmetry; apply Nat.eqb_eq; lia).
  cbn [bind].
  do 3 eexists. exists ou, ol. split; [reflexivity|].
  cbn [total_excess_above total_excess_below mean_excess_above
       mean_excess_below].
  split; [rewrite Htb, Hps, Hlb; reflexivity|].
  split; [reflexivity|]. split; [reflexivity|].
  split; [exists sa; split; [exact Esa|exact Hsa]|].
  split; [exists sb; split; [exact Esb|exact Hsb]|].
  repeat split; assumption.
Qed.

End Summary.

Lemma burden_summary_consistent_witness :
  exists r s e ou ol,
    BurdenCalculator.get_burden_summary example_state [0; 1; 2] true
    = Ok {| BurdenCalculator.period_metrics := Some r;
            BurdenCalculator.deviation_statistics := Some s;
            BurdenCalculator.excess_summary := Some e |}
    /\ BurdenCalculator.time_burden r
       = BurdenCalculator.percent_time_outside_bounds s
    /\ BurdenCalculator.outside_upper example_state = Some ou
    /\ BurdenCalculator.outside_lower example_state = Some ol
    /\ (exists q, BurdenCalculator.total_excess_above e = Num q /\ 0 <= q)
    /\ (exists q, BurdenCalculator.total_excess_below e = Num q /\ 0 <= q)
    /\ (count_true ou = 0%Z -> BurdenCalculator.mean_excess_above e = NaN)
    /\ ((0 < count_true ou)%Z ->
        exists q, BurdenCalculator.mean_excess_above e = Num q /\ 0 < q)
    /\ (count_true ol = 0%Z -> BurdenCalculator.mean_excess_below e = NaN)
    /\ ((0 < count_true ol)%Z ->
        exists q, BurdenCalculator.mean_excess_below e = Num q /\ 0 < q).
Proof.
  assert (Hs : BurdenCalculator.calculate_deviation_and_burden
                 BurdenCalculator.__init__ [0; 1; 2]
                 [Num 100; Num 100; Num 100] [0; 1; 2]
                 [Num 70; Num 70; Num 70] = Ok example_state)
    by (vm_compute; reflexivity).
  assert (Hg : forall t, In t [0; 1; 2] -> 0 <= t <= last [0; 1; 2] 0).
  { intros t [<-|[<-|[<-|[]]]]; split; discriminate. }
  exact (burden_summary_consistent BurdenCalculator.__init__ [0; 1; 2]
           [Num 100; Num 100; Num 100] 0 [1; 2]
           [Num 70; Num 70; Num 70] example_state Hs Hg).
Defined.


(** ** The times of the record *)

Section MonotonicTime.

Import DataLoader.




End MonotonicTime.


(** ** The correlations of the record *)

Lemma np_mean_of_values (lo hi : Q) (l : list fl) :
  l <> [] -> Forall (within lo hi) l -> within lo hi (np_mean l).
Proof.
  intros Hne H. pose proof (np_mean_within lo hi l H) as Hw.
  unfold np_mean, fl_sum in *.
  destruct (fl_sum_within lo hi l H 0) as (s & E & _).
  rewrite E in *. cbn [fdiv] in *.
  replace (Qeq_bool (inject_Z (len l)) 0) with false in *; [exact Hw|].
  symmetry. apply Qeq_bool_false.
  assert (0 < inject_Z (len l)); [|lra].
  change 0 with (inject_Z 0). rewrite <- Zlt_Qlt. unfold len.
  destruct l; [contradiction|]. cbn [length]. lia.
Qed.

Section Groups.

Variable P : Q -> Prop.
Variable V : fl -> Prop.

Lemma group_insert_keys (R : Q -> Prop) (k : Q) (v : fl)
  (groups : list (Q * list fl)) :
  R k -> Forall R (map fst groups) ->
  Forall R (map fst (group_insert k v groups)).
Proof.
  intros Hk. induction groups as [|[k' vs] groups IH]; intro H;
    cbn [group_insert].
  - repeat constructor. exact Hk.
  - cbn [map fst] in H. inversion H as [|? ? Hk' H']; subst.
    destruct (Qeq_bool k k'); [exact H|].
    destruct (Qltb k k').
    + constructor; [exact Hk|exact H].
    + cbn [map fst]. constructor; [exact Hk'|apply IH; exact H'].
Qed.

Lemma group_insert_ok (k : Q) (v : fl) (groups : list (Q * list fl)) :
  P k -> V v ->
  groups_ok P V groups -> groups_ok P V (group_insert k v groups).
Proof.
  intros Hk Hv. unfold groups_ok.
  induction groups as [|[k' vs] groups IH]; intros (Hs & Hp & Hg);
    cbn [group_insert].
  - cbn [map fst snd]. repeat split; repeat constructor;
      try assumption; discriminate.
  - cbn [map fst] in Hs, Hp.
    inversion Hs as [|? ? Hs' Hall]; subst.
    inversion Hp as [|? ? Hp0 Hp']; subst.
    inversion Hg as [|? ? [Hne Hvs] Hg']; subst. cbn [snd] in Hne, Hvs.
    destruct (Qeq_bool k k') eqn:E1.
    + cbn [map fst]. split; [exact Hs|]. split; [exact Hp|].
      constructor; [|exact Hg']. cbn [snd]. split.
      * destruct vs; discriminate.
      * apply Forall_app. split; [exact Hvs|]. repeat constructor.
        exact Hv.
    + destruct (Qltb k k') eqn:E2.
      * apply Qltb_lt in E2. cbn [map fst]. split; [|split].
        -- constructor; [exact Hs|]. constructor; [exact E2|].
           eapply Forall_impl; [|exact Hall]. intros c Hc. cbv beta in *.
           lra.
        -- constructor; assumption.
        -- constructor; [|exact Hg]. cbn [snd]. split; [discriminate|].
           repeat constructor. exact Hv.
      * apply Qltb_ge in E2. apply Qeq_bool_false in E1.
        destruct (IH (conj Hs' (conj Hp' Hg'))) as (Is & Ip & Ig).
        cbn [map fst]. split; [|split].
        -- constructor; [exact Is|].
           apply group_insert_keys; [|exact Hall].
           destruct (Qlt_le_dec k' k) as [Hlt|Hle]; [exact Hlt|].
           exfalso. apply E1. lra.
        -- constructor; assumption.
        -- constructor; [|exact Ig]. split; assumption.
Qed.

Lemma groups_of_rows_ok (rows : list (Q * fl)) :
  Forall (fun r => P (fst r) /\ V (snd r)) rows ->
  forall groups,
    groups_ok P V groups ->
    groups_ok P V
      (fold_left (fun groups r => group_insert (fst r) (snd r) groups)
                 rows groups).
Proof.
  induction 1 as [|r rows [Hk Hv] _ IH]; intros groups Hg; cbn [fold_left];
    [exact Hg|].
  apply IH. apply group_insert_ok; assumption.
Qed.

End Groups.

Lemma groupby_mean_shape (P : Q -> Prop) (lo hi : Q) (rows : list (Q * fl)) :
  Forall (fun r => P (fst r) /\ within lo hi (snd r)) rows ->
  StronglySorted Qlt (map fst (groupby_mean rows))
  /\ Forall P (map fst (groupby_mean rows))
  /\ Forall (within lo hi) (map snd (groupby_mean rows)).
Proof.
  intro H.
  destruct (groups_of_rows_ok P (within lo hi) rows H [])
    as (Hs & Hp & Hg).
  { repeat split; constructor. }
  unfold groupby_mean. rewrite !map_map. cbn [fst snd].
  split; [exact Hs|]. split; [exact Hp|].
  apply Forall_map. eapply Forall_impl; [|exact Hg].
  intros g [Hne Hv]. apply np_mean_of_values; assumption.
Qed.

Lemma flat_map_Forall {A B : Type} (P : B -> Prop) (f : A -> list B)
  (l : list A) :
  (forall x, In x l -> Forall P (f x)) -> Forall P (flat_map f l).
Proof.
  induction l as [|x l IH]; intro H; cbn [flat_map]; [constructor|].
  apply Forall_app. split; [apply H; left; reflexivity|].
  apply IH. intros y Hy. apply H. right. exact Hy.
Qed.

Section CoxCorrelations.

Import Config SignalProcessor.

Context {L : Libm}.

Lemma cox_window_rows (t : list Q) (MAP rSO2 : list fl)
  (t0 win_hr step_size : Q) (s : Z) :
  0 < win_hr -> 0 < step_size -> (0 <= s)%Z ->
  Forall (fun r => t0 < fst r /\ within (-1) 1 (snd r))
         (cox_window t MAP rSO2 t0 win_hr step_size s).
Proof.
  intros Hw Hst Hs. unfold cox_window. cbv zeta.
  destruct (_ <? MIN_DATA_POINTS)%Z; [constructor|].
  destruct (1 <? _)%Z; [|constructor].
  match goal with
  | |- context [fast_correlation ?a ?b] =>
      pose proof (fast_correlation_clipped a b) as Hr;
      destruct (fast_correlation a b) as [|c]
  end; cbn [np_isnan negb]; [constructor|].
  constructor; [|constructor]. cbn [fst snd]. split; [|exact Hr].
  rewrite Qred_correct.
  assert (H0 : 0 <= inject_Z s).
  { change 0 with (inject_Z 0). rewrite <- Zle_Qle. exact Hs. }
  assert (0 <= inject_Z s * step_size) by nra.
  apply Qlt_shift_div_l; lra.
Qed.

Lemma cox_window_needs_samples (t : list Q) (MAP rSO2 : list fl)
  (t0 win_hr step_size : Q) (s : Z) :
  (len t < MIN_DATA_POINTS)%Z ->
  cox_window t MAP rSO2 t0 win_hr step_size s = [].
Proof.
  intro H. unfold cox_window. cbv zeta.
  match goal with
  | |- context [count_true ?m] =>
      pose proof (count_true_bounds m) as Hc;
      replace (count_true m <? MIN_DATA_POINTS)%Z with true; [reflexivity|]
  end.
  symmetry. apply Z.ltb_lt. unfold len in *. rewrite length_map in Hc. lia.
Qed.

(** X26.  On a record that is not empty, [calculate_cox_correlations]
    returns as many correlations as times; the times increase strictly
    and lie after the first time of the record, and every correlation is
    a number of [-1, 1]; a record of fewer than 10 samples gives no
    correlation at all. *)
Theorem cox_correlations_shape (t0 : Q) (t' : list Q) (MAP rSO2 : list fl) :
  exists cox_time cox_values,
    calculate_cox_correlations (t0 :: t') MAP rSO2
    = Ok (cox_time, cox_values)
    /\ length cox_time = length cox_values
    /\ StronglySorted Qlt cox_time
    /\ Forall (fun c => t0 < c) cox_time
    /\ Forall (within (-1) 1) cox_values
    /\ ((length (t0 :: t') < 10)%nat -> cox_time = [] /\ cox_values = []).
Proof.
  unfold calculate_cox_correlations. cbv zeta.
  set (t := t0 :: t').
  set (rows := flat_map _ _).
  assert (Hrows : Forall (fun r => t0 < fst r /\ within (-1) 1 (snd r)) rows).
  { unfold rows. apply flat_map_Forall. intros w Hw.
    apply filter_In in Hw. destruct Hw as [Hw _].
    assert (Hpos : 0 < w).
    { unfold COX_WINDOWS_MIN in Hw. cbn [map In] in Hw.
      intuition (subst; reflexivity). }
    assert (Hwin : 0 < w / 60) by (apply Qlt_shift_div_l; lra).
    destruct (Qltb (1 # 2) (w / 60)); [constructor|].
    apply flat_map_Forall. intros s Hs.
    apply cox_window_rows; [exact Hwin| |].
    - apply Qlt_shift_div_l; lra.
    - unfold py_range in Hs. apply in_map_iff in Hs.
      destruct Hs as (i & <- & _). lia. }
  destruct (groupby_mean_shape (fun c => t0 < c) (-1) 1 rows Hrows)
    as (Hs & Hp & Hv).
  do 2 eexists. split; [reflexivity|].
  split; [rewrite !length_map; reflexivity|].
  split; [exact Hs|]. split; [exact Hp|]. split; [exact Hv|].
  intro Hlen.
  assert (Er : rows = []).
  { unfold rows. apply flat_map_all_nil. intros w _.
    destruct (Qltb (1 # 2) (w / 60)); [reflexivity|].
    apply flat_map_all_nil. intros s _.
    apply cox_window_needs_samples. unfold len, MIN_DATA_POINTS.
    fold t in Hlen. lia. }
  rewrite Er. split; reflexivity.
Qed.

End CoxCorrelations.
